(** * The docling conversion pipeline: a shallow embedding

    The development follows [docling/pipeline/base_pipeline.py]
    ([BasePipeline], [PaginatedPipeline]), [docling/datamodel/base_models.py],
    [docling/datamodel/settings.py] and the teardown of
    [docling/backend/mspowerpoint_backend.py].

    Python integers are [Z], Python lists are [list], an [Optional] is an
    [option], an [Enum] is an inductive type.  A Python call either returns or
    raises, and may have changed objects on the way: it is a function from
    the world to an outcome and the world it leaves (section [Py]). *)

From Stdlib Require Import ZArith Lia DecimalString.
From stdpp Require Import base option list strings pretty gmap sorting.

Local Open Scope string_scope.
Local Open Scope list_scope.
Local Open Scope Z_scope.

(** ** Exceptions *)

(** The exception classes the code raises or lets through.  [try ... except
    Exception] catches the classes derived from [Exception]; the others
    ([KeyboardInterrupt], [SystemExit], ...) derive from [BaseException]
    alone and pass through it. *)
Inductive exn : Type :=
  | RuntimeError (msg : string)
  | AttributeError (msg : string)
  | ConfigurationError (msg : string)
  | ValidationError (msg : string)
  | OtherException (cls : string) (msg : string)
  | KeyboardInterrupt
  | SystemExit
  | OtherBaseException (cls : string).

(** [isinstance(e, Exception)] *)
Definition isinstance_Exception (e : exn) : bool :=
  match e with
  | RuntimeError _ | AttributeError _ | ConfigurationError _
  | ValidationError _ | OtherException _ _ => true
  | KeyboardInterrupt | SystemExit | OtherBaseException _ => false
  end.

(** How a call ends. *)
Inductive outcome (A : Type) : Type :=
  | Returns (a : A)
  | Raises (e : exn).
Arguments Returns {A} a.
Arguments Raises {A} e.

(** ** docling.utils.utils.chunkify *)

Module Utils.
Section Chunkify.
Context {A : Type}.

(** Modelled from the spec: the rounds of the batch scheduler, which is
    missing with [docling/utils/utils.py]: each round takes the next [b]
    elements as a batch. *)
Fixpoint chunks_go (fuel : nat) (b : nat) (l : list A) : list (list A) :=
  match fuel, l with
  | _, [] => []
  | O, _ :: _ => []
  | S fuel', _ :: _ => take b l :: chunks_go fuel' b (drop b l)
  end.

(** Modelled from the spec: the batches of [l], "fixed-size contiguous
    batches", made in one pass until the sequence is used up.  A sequence of
    [n] elements needs no more than [n] rounds. *)
Definition chunks (b : nat) (l : list A) : list (list A) :=
  chunks_go (length l) b l.

(** Modelled from the spec: [docling/utils/utils.py] is missing, and with it
    [chunkify], the batch scheduler.  The spec has it as a "pure function:
    given an ordered sequence and a batch size >= 1, yields contiguous
    batches preserving order, with the final batch possibly shorter.  Batch
    size <= 0 is a configuration error.  No reordering, no deduplication." *)
Definition chunkify (iterator : list A) (chunk_size : Z) : outcome (list (list A)) :=
  if chunk_size <? 1
  then Raises (ConfigurationError "batch size must be at least 1")
  else Returns (chunks (Z.to_nat chunk_size) iterator).
End Chunkify.
End Utils.
Import Utils.

(** The ceiling of [n / b], for [b] positive. *)
Definition ceil_div (n b : Z) : Z := (n + b - 1) / b.

(** The size the spec gives to the last batch. *)
Definition last_batch_size (n b : Z) : Z :=
  if decide (n mod b = 0) then b else n mod b.

(** ** docling.datamodel.base_models *)

Inductive ConversionStatus : Type :=
  PENDING | STARTED | FAILURE | SUCCESS | PARTIAL_SUCCESS.

Inductive DoclingComponentType : Type :=
  DOCUMENT_BACKEND | MODEL | DOC_ASSEMBLER.

Global Instance ConversionStatus_eq_dec : EqDecision ConversionStatus.
Proof. solve_decision. Defined.
Global Instance DoclingComponentType_eq_dec : EqDecision DoclingComponentType.
Proof. solve_decision. Defined.

Record ErrorItem : Type := mkErrorItem {
  component_type : DoclingComponentType;
  module_name : string;
  error_message : string
}.

Record Cell : Type := mkCell { id : Z; text : string }.

(** Modelled from the spec: [docling/backend/pdf_backend.py], where
    [PdfPageBackend] is declared, is missing.  Of a backend the core requires
    a "validity check"; the pipeline also reads the name of its class. *)
Record PdfPageBackend : Type := mkPdfPageBackend {
  page_backend_class : string;
  is_valid : bool
}.

(** [class Page]: [page_no], the cells the stages fill in, and [_backend].
    The geometry, the prediction slots, the assembled view and the image cache
    are not read by the pipeline code and are left out. *)
Module Page.
Record t : Type := mk {
  page_no : Z;
  cells : list Cell;
  _backend : option PdfPageBackend
}.
(** [Page(page_no=i)] *)
Definition new (i : Z) : t := {| page_no := i; cells := []; _backend := None |}.
End Page.

(** ** docling.datamodel.settings *)

Module Settings.
Record BatchConcurrencySettings : Type := mkPerf {
  doc_batch_size : Z;
  doc_batch_concurrency : Z;
  page_batch_size : Z;
  page_batch_concurrency : Z;
  elements_batch_size : Z
}.

(** A value handed to a field annotated [int]: an [int], or a value of
    another type, given by its [repr] ('3', 3.0, True, None, ...). *)
Inductive pyvalue : Type :=
  | PyInt (z : Z)
  | PyNotInt (repr : string).

(** Keyword arguments of [BatchConcurrencySettings(...)]; [None] here is an
    argument that was not given. *)
Record kwargs : Type := mkKwargs {
  kw_doc_batch_size : option pyvalue;
  kw_doc_batch_concurrency : option pyvalue;
  kw_page_batch_size : option pyvalue;
  kw_page_batch_concurrency : option pyvalue;
  kw_elements_batch_size : option pyvalue
}.

Definition no_kwargs : kwargs := mkKwargs None None None None None.

Section Validation.
(** The class is a pydantic [BaseModel] with no configuration of its own, so
    its fields are validated in pydantic's lax mode: a value of another type
    that pydantic reads as an integer is converted ('3' and 3.0 become 3, True
    becomes 1), any other value is refused.  Which values are converted is
    pydantic's matter, not that of [settings.py]: [lax_int] stands for it. *)
Context (lax_int : string → option Z).

(** A field declared [name: int = default]: the default when the argument
    is absent, the integer when one is given, what pydantic converts the value
    to when it converts it, and nothing when it refuses it.  The declaration
    carries no bound ([Field(ge=1)] or a validator), so there is no other
    check. *)
Definition int_field (default : Z) (arg : option pyvalue) : option Z :=
  match arg with
  | None => Some default
  | Some (PyInt z) => Some z
  | Some (PyNotInt repr) => lax_int repr
  end.

(** The fields whose value is refused; the [ValidationError] of pydantic
    lists them all. *)
Definition refused (fields : list (string * (Z * option pyvalue))) : list string :=
  omap (λ field, match int_field field.2.1 field.2.2 with
                 | Some _ => None
                 | None => Some field.1
                 end) fields.

(** The constructor of [BatchConcurrencySettings], with keyword arguments. *)
Definition new (kw : kwargs) : outcome BatchConcurrencySettings :=
  let fields :=
    [("doc_batch_size", (2, kw_doc_batch_size kw));
     ("doc_batch_concurrency", (2, kw_doc_batch_concurrency kw));
     ("page_batch_size", (4, kw_page_batch_size kw));
     ("page_batch_concurrency", (2, kw_page_batch_concurrency kw));
     ("elements_batch_size", (16, kw_elements_batch_size kw))] in
  match int_field 2 (kw_doc_batch_size kw),
        int_field 2 (kw_doc_batch_concurrency kw),
        int_field 4 (kw_page_batch_size kw),
        int_field 2 (kw_page_batch_concurrency kw),
        int_field 16 (kw_elements_batch_size kw) with
  | Some a, Some b, Some c, Some d, Some e => Returns (mkPerf a b c d e)
  | _, _, _, _, _ =>
      Raises (ValidationError
                ("Input should be a valid integer: "
                 +:+ String.concat ", " (refused fields)))
  end.
End Validation.

(** [AppSettings]; the debug switches play no part in the pipeline. *)
Record AppSettings : Type := mkApp { perf : BatchConcurrencySettings }.

(** [settings = AppSettings(perf=BatchConcurrencySettings(), ...)] *)
Definition default_perf : BatchConcurrencySettings := mkPerf 2 2 4 2 16.
Definition settings : AppSettings := mkApp default_perf.
End Settings.

(** A sample of what pydantic converts: the string '0', the float 3.0 and
    True. *)
Definition sample_lax_int (repr : string) : option Z :=
  if decide (repr = "'0'") then Some 0
  else if decide (repr = "3.0") then Some 3
  else if decide (repr = "True") then Some 1
  else None.

(** ** docling.backend.mspowerpoint_backend: teardown *)

Module MsPowerpoint.
(** [path_or_stream: Union[BytesIO, Path]]; a [BytesIO] is an object shared
    with whoever handed it in, so it is named by its address. *)
Inductive source : Type :=
  | SrcPath (p : string)
  | SrcBytesIO (addr : nat).

(** A [BytesIO]: its buffer, whether it is closed, and the number of views
    of its buffer that [getbuffer()] has handed out and that are alive. *)
Record BytesIO : Type := mkBytesIO {
  buffer : list Z;
  closed : bool;
  exports : nat
}.

Record MsPowerpointDocumentBackend : Type := mkBackend {
  document_hash : string;
  path_or_stream : option source
}.

(** The backend object and the streams that exist. *)
Record state : Type := mkState {
  self : MsPowerpointDocumentBackend;
  streams : gmap nat BytesIO
}.

Definition BufferError : exn :=
  OtherException "BufferError" "Existing exports of data: object cannot be re-sized".

(** [BytesIO.close()]: raises [BufferError] and leaves the stream as it is
    while a view of its buffer is alive; otherwise it marks the stream closed
    and drops its buffer.  Closing a closed stream does nothing. *)
Definition close (s : BytesIO) : outcome unit * BytesIO :=
  if decide (0 < exports s)%nat
  then (Raises BufferError, s)
  else (Returns (), {| buffer := []; closed := true; exports := 0 |}).

(** [def unload(self)]: when [close()] raises, the assignment of [None] is
    not reached. *)
Definition unload (st : state) : outcome unit * state :=
  let released streams' :=
    (Returns (),
     {| self := {| document_hash := document_hash (self st);
                   path_or_stream := None |};
        streams := streams' |}) in
  match path_or_stream (self st) with
  | Some (SrcBytesIO a) =>
      match streams st !! a with
      | Some s =>
          match close s with
          | (Returns _, s') => released (<[a := s']> (streams st))
          | (Raises e, s') =>
              (Raises e, {| self := self st; streams := <[a := s']> (streams st) |})
          end
      | None => released (streams st)
      end
  | _ => released (streams st)
  end.

(** The backend holds a [BytesIO] with a view of its buffer alive. *)
Definition exported (st : state) : Prop :=
  ∃ a s, path_or_stream (self st) = Some (SrcBytesIO a)
         ∧ streams st !! a = Some s ∧ (0 < exports s)%nat.

(** [def is_valid(self)] *)
Definition is_valid (st : state) : bool := true.
End MsPowerpoint.

(** A backend on a stream, and the same with a view of the buffer alive. *)
Definition backend_on_stream : MsPowerpoint.state :=
  MsPowerpoint.mkState
    (MsPowerpoint.mkBackend "5e1f" (Some (MsPowerpoint.SrcBytesIO 7)))
    {[ 7%nat := MsPowerpoint.mkBytesIO [80; 75; 3; 4] false 0 ]}.

Definition backend_on_exported_stream : MsPowerpoint.state :=
  MsPowerpoint.mkState
    (MsPowerpoint.mkBackend "5e1f" (Some (MsPowerpoint.SrcBytesIO 7)))
    {[ 7%nat := MsPowerpoint.mkBytesIO [80; 75; 3; 4] false 1 ]}.

(** ** docling.datamodel.document, as the pipeline uses it *)

(** Modelled from the spec: [docling/backend/abstract_backend.py] and
    [docling/backend/pdf_backend.py] are missing; of the backends only the
    PowerPoint one is among the files.  The pipeline reads the name of the
    class of the backend and asks whether it derives from
    [PdfDocumentBackend]; the "unload/release operation" is [unload] below.  A
    backend class defines neither [__bool__] nor [__len__], so a backend
    object is true in a condition and only [None] is false. *)
Record DocumentBackend : Type := mkDocumentBackend {
  backend_class : string;
  is_pdf : bool
}.

(** [class MsPowerpointDocumentBackend(DeclarativeDocumentBackend)] *)
Definition mspowerpoint_backend : DocumentBackend :=
  {| backend_class := "MsPowerpointDocumentBackend"; is_pdf := false |}.

Module InputDocument.
(** Modelled from the spec: [docling/datamodel/document.py] is missing; the
    Document Handle has a "source reference (path or owned byte buffer),
    content hash, detected format, validity flag, page count,
    exclusively-owned backend instance (nullable after unload)".  These are
    the attributes [base_pipeline.py] reads. *)
Record t : Type := mk {
  file : string;
  document_hash : string;
  valid : bool;
  page_count : Z;
  _backend : option DocumentBackend
}.
End InputDocument.

(** An element of the output document ([NodeItem], from docling_core) and the
    document itself; [iterate_items()] yields the elements in document order,
    each with its nesting level. *)
Record NodeItem : Type := mkNodeItem { self_ref : string; content : string }.

Record DoclingDocument : Type := mkDoclingDocument {
  name : string;
  items : list (NodeItem * Z)
}.

Definition iterate_items (doc : DoclingDocument) : list (NodeItem * Z) := items doc.

Module ConversionResult.
(** Modelled from the spec: the class is in the missing
    [docling/datamodel/document.py]; the Conversion Result has an "input
    handle, ordered list of Page Records, assembled/enriched output
    document (opaque to the core), status (enum), ordered list of structured
    error items".  The input handle is the [in_doc] of the world below, one
    object under two names. *)
Record t : Type := mk {
  status : ConversionStatus;
  pages : list Page.t;
  errors : list ErrorItem;
  output : DoclingDocument
}.

(** Modelled from the spec: the constructor, [ConversionResult(input=in_doc)],
    of a result "created at the start of a single document's conversion;
    populated by each phase": nothing converted yet. *)
Definition new : t :=
  {| status := PENDING; pages := []; errors := [];
     output := {| name := ""; items := [] |} |}.

Definition with_status (s : ConversionStatus) (r : t) : t :=
  {| status := s; pages := pages r; errors := errors r; output := output r |}.
Definition with_pages (ps : list Page.t) (r : t) : t :=
  {| status := status r; pages := ps; errors := errors r; output := output r |}.
Definition with_errors (es : list ErrorItem) (r : t) : t :=
  {| status := status r; pages := pages r; errors := es; output := output r |}.
Definition with_output (d : DoclingDocument) (r : t) : t :=
  {| status := status r; pages := pages r; errors := errors r; output := d |}.
End ConversionResult.

(** ** Calls, state and exceptions *)

(** What an observer of one conversion would count: the phases [execute]
    enters, the page batches drained, the batches handed to an enrichment
    model, and the calls of [unload()] on the document backend.  The code
    never reads this record. *)
Inductive Event : Type :=
  | EnterBuild
  | EnterAssemble
  | EnterEnrich
  | EnterStatus
  | DrainPages (page_nos : list Z)
  | CallModel (model : string) (element_batch : list NodeItem)
  | CallUnload (cls : string).

Global Instance Event_is_unload_dec (ev : Event) :
  Decision (∃ cls, ev = CallUnload cls).
Proof.
  destruct ev; try (right; intros [? ?]; discriminate). left. by eexists.
Defined.

(** The objects one call of [execute] works on. *)
Record World : Type := mkWorld {
  in_doc : InputDocument.t;
  conv_res : ConversionResult.t;
  calls : list Event
}.

(** The world when [conv_res = ConversionResult(input=in_doc)] has run. *)
Definition fresh (w : World) : World :=
  {| in_doc := in_doc w; conv_res := ConversionResult.new; calls := calls w |}.

(** The world with [conv_res.status = ConversionStatus.FAILURE]. *)
Definition failed (w : World) : World :=
  {| in_doc := in_doc w;
     conv_res := ConversionResult.with_status FAILURE (conv_res w);
     calls := calls w |}.

Section Py.
(** A Python computation: the outcome and the world it leaves.  What was
    changed before an exception was raised stays changed. *)
Definition Py (A : Type) : Type := World → outcome A * World.

Definition run {A} (m : Py A) (w : World) : outcome A * World := m w.

Global Instance Py_ret : MRet Py := λ A a w, (Returns a, w).
Global Instance Py_bind : MBind Py := λ A B k m w,
  match m w with
  | (Returns a, w') => k a w'
  | (Raises e, w') => (Raises e, w')
  end.

Definition raise {A} (e : exn) : Py A := λ w, (Raises e, w).
Definition get_in_doc : Py InputDocument.t := λ w, (Returns (in_doc w), w).
Definition get_conv_res : Py ConversionResult.t := λ w, (Returns (conv_res w), w).
Definition modify_conv_res (f : ConversionResult.t → ConversionResult.t) : Py unit :=
  λ w, (Returns (),
        {| in_doc := in_doc w; conv_res := f (conv_res w); calls := calls w |}).
Definition observe (ev : Event) : Py unit :=
  λ w, (Returns (),
        {| in_doc := in_doc w; conv_res := conv_res w; calls := calls w ++ [ev] |}).
Definition lift {A} (o : outcome A) : Py A := λ w, (o, w).

(** [try: body / except Exception as e: handler e] *)
Definition try_except {A} (body : Py A) (handler : exn → Py A) : Py A :=
  λ w,
    match body w with
    | (Returns a, w') => (Returns a, w')
    | (Raises e, w') =>
        if isinstance_Exception e then handler e w' else (Raises e, w')
    end.

(** [try: body / finally: cleanup]: the cleanup runs however the body ends;
    the body's outcome stands unless the cleanup itself raises. *)
Definition try_finally {A} (body : Py A) (cleanup : Py unit) : Py A :=
  λ w,
    match body w with
    | (r, w') =>
        match cleanup w' with
        | (Returns _, w'') => (r, w'')
        | (Raises e, w'') => (Raises e, w'')
        end
    end.

(** [for x in xs: body x] *)
Fixpoint for_each {A} (xs : list A) (body : A → Py unit) : Py unit :=
  match xs with
  | [] => mret ()
  | x :: xs' => body x ;; for_each xs' body
  end.
End Py.

(** [range(lo, hi)] *)
Definition range (lo hi : Z) : list Z := seqZ lo (hi - lo).

(** ** docling.pipeline.base_pipeline *)

(** Modelled from the spec: [docling/models/base_model.py], where
    [BaseEnrichmentModel] is declared, is missing.  An Enrichment Stage has "an
    applicability predicate given the current document and a candidate
    element", [is_processable(doc, element)], and "a batch-processing
    operation given the document and a batch of elements, with no declared
    return contract beyond exhaustion"; "the stage is expected to mutate
    elements in place".  The predicate answers or raises.  The call gives a
    generator that the pipeline drains: what is left of it is the way the
    drain ended and what it did to the elements of the document, to the
    element at each place of the traversal. *)
Record BaseEnrichmentModel : Type := mkEnrichmentModel {
  model_name : string;
  is_processable : DoclingDocument → NodeItem → outcome bool;
  call : DoclingDocument → list NodeItem → outcome unit * (nat → NodeItem → NodeItem)
}.

(** The document with its elements changed in place: the traversal has the
    same places and levels, the element at place [i] is changed by
    [change i]. *)
Definition in_place (change : nat → NodeItem → NodeItem) (doc : DoclingDocument)
  : DoclingDocument :=
  {| name := name doc;
     items := imap (λ i item, (change i item.1, item.2)) (items doc) |}.

(** [class BasePipeline(ABC)]: the enrichment pipe and the methods a subclass
    supplies.  A method receives [in_doc] and [conv_res] and returns
    [conv_res]; here it works on those of the world. *)
Record BasePipeline : Type := mkBasePipeline {
  enrichment_pipe : list BaseEnrichmentModel;
  _build_document : Py unit;
  _assemble_document : Py unit;
  _determine_status : Py ConversionStatus
}.

Section Pipeline.
(** The module-level [settings] object, read when a phase runs. *)
Context (settings : Settings.AppSettings).

(** The default [_assemble_document]: [return conv_res]. *)
Definition default_assemble_document : Py unit := mret ().

(** The generator [_filter_elements] nested in [_enrich_document], run over
    a stretch of [doc.iterate_items()] with the document as it stands: the
    elements of the stretch that the model can process, in the order of the
    document.  An exception of [is_processable] ends it. *)
Fixpoint filter_elements_of (doc : DoclingDocument) (model : BaseEnrichmentModel)
    (stretch : list (NodeItem * Z)) : outcome (list NodeItem) :=
  match stretch with
  | [] => Returns []
  | (element, _level) :: rest =>
      match is_processable model doc element with
      | Raises e => Raises e
      | Returns yes =>
          match filter_elements_of doc model rest with
          | Raises e => Raises e
          | Returns elements => Returns (if yes then element :: elements else elements)
          end
      end
  end.

(** The generator run to its end in one go.  The pipeline does not do that:
    see [next_batch]. *)
Definition _filter_elements (doc : DoclingDocument) (model : BaseEnrichmentModel)
  : outcome (list NodeItem) :=
  filter_elements_of doc model (iterate_items doc).

(** Modelled from the spec: [chunkify] is missing (see [Utils.chunkify]).
    Handed a generator, it "yields" its batches, the traversal being "lazy":
    it pulls the generator when a batch is asked for, [size] elements, or
    fewer when the generator ends, and not one more.  [next_batch] is such a
    batch pulled from [_filter_elements(doc, model)] when the traversal
    [doc.iterate_items()] has [todo] left: the batch, and what the traversal
    has left after it.  The generator asks [is_processable] of the document
    as it stands when the element is reached; when [is_processable] raises,
    the pull raises and what it had taken is lost. *)
Fixpoint next_batch (model : BaseEnrichmentModel) (doc : DoclingDocument)
    (todo : list (NodeItem * Z)) (size : nat) {struct todo}
  : outcome (list NodeItem * list (NodeItem * Z)) :=
  match todo, size with
  | [], _ => Returns ([], [])
  | _ :: _, O => Returns ([], todo)
  | (element, _level) :: todo', S size' =>
      match is_processable model doc element with
      | Raises e => Raises e
      | Returns true =>
          match next_batch model doc todo' size' with
          | Raises e => Raises e
          | Returns (element_batch, rest) => Returns (element :: element_batch, rest)
          end
      | Returns false => next_batch model doc todo' size
      end
  end.

(** The model called on [conv_res.output] and a batch, and drained. *)
Definition drain_model (model : BaseEnrichmentModel) (element_batch : list NodeItem)
  : Py unit :=
  λ w, let '(r, change) := call model (ConversionResult.output (conv_res w)) element_batch in
       (r, {| in_doc := in_doc w;
              conv_res :=
                ConversionResult.with_output
                  (in_place change (ConversionResult.output (conv_res w))) (conv_res w);
              calls := calls w |}).

(** [for element in model(doc=conv_res.output, element_batch=element_batch): pass] *)
Definition call_model (model : BaseEnrichmentModel) (element_batch : list NodeItem)
  : Py unit :=
  observe (CallModel (model_name model) element_batch) ;;
  drain_model model element_batch.

(** The loop [for element_batch in chunkify(_filter_elements(...), size)],
    the traversal having passed [pos] elements: the next batch is pulled from
    the document as the calls so far have left it, the model is called on it,
    and the loop goes on from where the pull stopped; it ends when a pull
    gives nothing.  The calls change the elements in place and not the
    traversal, and every batch takes at least one element of it: [rounds],
    the number of elements of the traversal, bounds the number of batches. *)
Fixpoint enrich_batches (model : BaseEnrichmentModel) (size rounds pos : nat)
  : Py unit :=
  match rounds with
  | O => mret ()
  | S rounds' =>
      cr ← get_conv_res;
      let doc := ConversionResult.output cr in
      pulled ← lift (next_batch model doc (drop pos (iterate_items doc)) size);
      match pulled.1 with
      | [] => mret ()
      | _ :: _ =>
          call_model model pulled.1 ;;
          enrich_batches model size rounds'
            (length (iterate_items doc) - length pulled.2)
      end
  end.

(** One round of the outer loop of [_enrich_document]: the batches of a
    model.  A batch size below one is the configuration error of
    [chunkify]. *)
Definition enrich_with (model : BaseEnrichmentModel) : Py unit :=
  cr ← get_conv_res;
  let size := Settings.elements_batch_size (Settings.perf settings) in
  if size <? 1
  then raise (ConfigurationError "batch size must be at least 1")
  else enrich_batches model (Z.to_nat size)
         (length (iterate_items (ConversionResult.output cr))) 0.

(** [def _enrich_document(self, in_doc, conv_res)] *)
Definition _enrich_document (self : BasePipeline) : Py unit :=
  for_each (enrichment_pipe self) enrich_with.

(** The body of the [try] block of [execute]: build, assemble, enrich, and
    the status. *)
Definition execute_phases (self : BasePipeline) : Py unit :=
  observe EnterBuild ;; _build_document self ;;
  observe EnterAssemble ;; _assemble_document self ;;
  observe EnterEnrich ;; _enrich_document self ;;
  observe EnterStatus ;; status ← _determine_status self;
  modify_conv_res (ConversionResult.with_status status).

(** [def execute(self, in_doc, raises_on_error)] *)
Definition execute (self : BasePipeline) (raises_on_error : bool)
  : Py ConversionResult.t :=
  modify_conv_res (λ _, ConversionResult.new) ;;
  doc ← get_in_doc;
  if negb (InputDocument.valid doc) then
    modify_conv_res (ConversionResult.with_status FAILURE) ;;
    get_conv_res
  else
    try_except
      (execute_phases self)
      (λ e,
         modify_conv_res (ConversionResult.with_status FAILURE) ;;
         if raises_on_error then raise e else mret ()) ;;
    get_conv_res.

(** *** class PaginatedPipeline(BasePipeline) *)

(** What a subclass brings.  [apply_on_pages doc page_batch] is the drain
    [for p in pipeline_pages: pass] of one batch: [initialize_page] mapped
    over the batch and the stages of [build_pipe] chained on it are lazy,
    and run only there.  The Page objects of the batch are those of
    [conv_res.pages]; the result is these objects as the drain leaves them
    and the exception that ended it, if one did.
    [assemble_document] is the override of [_assemble_document], if any: it
    reads [in_doc] and works on [conv_res]. *)
Record PaginatedPipeline : Type := mkPaginatedPipeline {
  apply_on_pages : InputDocument.t → list Page.t → list Page.t * option exn;
  assemble_document :
    InputDocument.t → ConversionResult.t → outcome unit * ConversionResult.t;
  enrichment_models : list BaseEnrichmentModel
}.

(** The usual shape of [initialize_page] and of a stage of [build_pipe]: a
    step on one page.  A stage is then a generator, [for page in page_batch:
    ...; yield page], and gives the page as the step leaves it and the
    exception the step raised, if it raised. *)
Definition PageStep : Type := Page.t → Page.t * option exn.

(** One page pulled through the chain [map(initialize_page, ...)], then
    [build_pipe] in order ([_apply_on_pages]); a step that raises ends it. *)
Fixpoint through_stages (steps : list PageStep) (page : Page.t)
  : Page.t * option exn :=
  match steps with
  | [] => (page, None)
  | step :: rest =>
      match step page with
      | (page', Some e) => (page', Some e)
      | (page', None) => through_stages rest page'
      end
  end.

(** The drain of a batch through such a chain: the loop pulls the pages one
    by one, each through all the steps before the next is touched; when a
    step raises, the pages behind stay as they were. *)
Fixpoint pull_pages (steps : list PageStep) (page_batch : list Page.t)
  : list Page.t * option exn :=
  match page_batch with
  | [] => ([], None)
  | page :: rest =>
      match through_stages steps page with
      | (page', Some e) => (page' :: rest, Some e)
      | (page', None) =>
          let '(rest', fault) := pull_pages steps rest in
          (page' :: rest', fault)
      end
  end.

(** A paginated pipeline made of such steps. *)
Definition generator_pipeline
    (initialize_page : InputDocument.t → PageStep) (build_pipe : list PageStep)
    (assemble :
       InputDocument.t → ConversionResult.t → outcome unit * ConversionResult.t)
    (models : list BaseEnrichmentModel) : PaginatedPipeline :=
  {| apply_on_pages := λ doc page_batch,
       pull_pages (initialize_page doc :: build_pipe) page_batch;
     assemble_document := assemble;
     enrichment_models := models |}.

(** [isinstance(in_doc._backend, PdfDocumentBackend)] *)
Definition isinstance_PdfDocumentBackend (b : option DocumentBackend) : bool :=
  match b with
  | Some b => is_pdf b
  | None => false
  end.

(** [type(in_doc._backend).__name__] *)
Definition type_name (b : option DocumentBackend) : string :=
  match b with
  | Some b => backend_class b
  | None => "NoneType"
  end.

Definition not_a_pdf_backend (doc : InputDocument.t) : exn :=
  RuntimeError
    ("The selected backend " +:+ type_name (InputDocument._backend doc)
     +:+ " for " +:+ InputDocument.file doc +:+ " is not a PDF backend. "
     +:+ "Can not convert this with a PDF pipeline. "
     +:+ "Please check your format configuration on DocumentConverter.").

(** [in_doc._backend.unload()], on a backend whose class is not among the
    files: the call is put on record. *)
Definition unload (b : DocumentBackend) : Py unit :=
  observe (CallUnload (backend_class b)).

(** The loop over the page batches.  [seen] are the pages of the batches
    already drained; the pages of the batches to come are as they were
    made. *)
Fixpoint build_batches (self : PaginatedPipeline) (doc : InputDocument.t)
    (seen : list Page.t) (batches : list (list Page.t)) : Py unit :=
  match batches with
  | [] => mret ()
  | page_batch :: rest =>
      observe (DrainPages (Page.page_no <$> page_batch)) ;;
      let '(pages', fault) := apply_on_pages self doc page_batch in
      modify_conv_res (ConversionResult.with_pages (seen ++ pages' ++ concat rest)) ;;
      match fault with
      | Some e => raise e
      | None => build_batches self doc (seen ++ pages') rest
      end
  end.

(** [for i in range(0, in_doc.page_count): conv_res.pages.append(Page(page_no=i))] *)
Definition make_pages (doc : InputDocument.t) : Py unit :=
  for_each (range 0 (InputDocument.page_count doc)) (λ i,
    modify_conv_res (λ cr,
      ConversionResult.with_pages (ConversionResult.pages cr ++ [Page.new i]) cr)).

(** [def _build_document(self, in_doc, conv_res)] of [PaginatedPipeline] *)
Definition paginated_build_document (self : PaginatedPipeline) : Py unit :=
  doc ← get_in_doc;
  if negb (isinstance_PdfDocumentBackend (InputDocument._backend doc)) then
    raise (not_a_pdf_backend doc)
  else
    make_pages doc ;;
    try_finally
      (try_except
         (cr ← get_conv_res;
          batches ← lift (chunkify (ConversionResult.pages cr)
                            (Settings.page_batch_size (Settings.perf settings)));
          build_batches self doc [] batches)
         (λ e, modify_conv_res (ConversionResult.with_status FAILURE) ;; raise e))
      (match InputDocument._backend doc with
       | Some b => unload b
       | None => mret ()
       end).

(** The [ErrorItem] that [_determine_status] makes for a page. *)
Definition page_error (page : Page.t) (b : PdfPageBackend) : ErrorItem :=
  {| component_type := DOCUMENT_BACKEND;
     module_name := page_backend_class b;
     error_message := "Page " +:+ pretty (Page.page_no page) +:+ " failed to parse." |}.

Definition append_error (e : ErrorItem) : Py unit :=
  modify_conv_res (λ cr,
    ConversionResult.with_errors (ConversionResult.errors cr ++ [e]) cr).

(** The loop of [_determine_status]; [page._backend.is_valid()] on a page
    without backend is an [AttributeError]. *)
Fixpoint status_loop (pages : list Page.t) (status : ConversionStatus)
  : Py ConversionStatus :=
  match pages with
  | [] => mret status
  | page :: rest =>
      match Page._backend page with
      | None =>
          raise (AttributeError "'NoneType' object has no attribute 'is_valid'")
      | Some b =>
          if negb (is_valid b) then
            append_error (page_error page b) ;;
            status_loop rest PARTIAL_SUCCESS
          else status_loop rest status
      end
  end.

(** [def _determine_status(self, in_doc, conv_res)] of [PaginatedPipeline] *)
Definition paginated_determine_status : Py ConversionStatus :=
  cr ← get_conv_res;
  status_loop (ConversionResult.pages cr) SUCCESS.

Definition paginated_assemble_document (self : PaginatedPipeline) : Py unit :=
  λ w, let '(r, cr) := assemble_document self (in_doc w) (conv_res w) in
       (r, {| in_doc := in_doc w; conv_res := cr; calls := calls w |}).

(** A [PaginatedPipeline] seen as the [BasePipeline] it extends. *)
Definition paginated (self : PaginatedPipeline) : BasePipeline :=
  {| enrichment_pipe := enrichment_models self;
     _build_document := paginated_build_document self;
     _assemble_document := paginated_assemble_document self;
     _determine_status := paginated_determine_status |}.

(** The [_assemble_document] that [PaginatedPipeline] inherits. *)
Definition inherited_assemble_document
  : InputDocument.t → ConversionResult.t → outcome unit * ConversionResult.t :=
  λ _ cr, (Returns (), cr).

(** The stages keep the page index of every page they are given (the
    contract of a Stage: same cardinality, same page identity). *)
Definition preserves_page_no (self : PaginatedPipeline) : Prop :=
  ∀ doc page_batch,
    Page.page_no <$> (apply_on_pages self doc page_batch).1
    = Page.page_no <$> page_batch.

(** What the status resolver is to make of a page. *)
Definition reports_invalid (page : Page.t) : bool :=
  match Page._backend page with
  | Some b => negb (is_valid b)
  | None => false
  end.

(** The message of the error item of page [i]. *)
Definition page_message (i : Z) : string :=
  "Page " +:+ pretty i +:+ " failed to parse.".

(** An error item that is the one of [page]: a backend error, whose message
    names the index of the page. *)
Definition names_page (page : Page.t) (e : ErrorItem) : Prop :=
  component_type e = DOCUMENT_BACKEND
  ∧ error_message e = page_message (Page.page_no page)
  ∧ ∃ b, Page._backend page = Some b ∧ module_name e = page_backend_class b.

(** The status the resolver is to give to a list of pages. *)
Definition resolved_status (pages : list Page.t) : ConversionStatus :=
  if decide (filter (λ page, reports_invalid page) pages = [])
  then SUCCESS else PARTIAL_SUCCESS.

(** What the spec asks of the resolver on [pages]: one error item for each
    page that reports invalid, in the order of the pages, each naming its
    page; SUCCESS and no item if no page reports invalid; PARTIAL_SUCCESS and
    [k] items if [k >= 1] pages do. *)
Definition resolves (pages : list Page.t) (status : ConversionStatus)
    (errs : list ErrorItem) : Prop :=
  let invalid := filter (λ page, reports_invalid page) pages in
  Forall2 names_page invalid errs
  ∧ (invalid = [] → status = SUCCESS ∧ errs = [])
  ∧ (∀ k, length invalid = k → (1 ≤ k)%nat →
       status = PARTIAL_SUCCESS ∧ length errs = k).

(** The world in which [execute] calls [_build_document]. *)
Definition entering_build (w : World) : World :=
  {| in_doc := in_doc w; conv_res := ConversionResult.new;
     calls := calls w ++ [EnterBuild] |}.

(** Pages that carry the indices [0 .. n-1], each at its own position. *)
Definition indexed_by_position (n : Z) (pages : list Page.t) : Prop :=
  length pages = Z.to_nat n
  ∧ (∀ i page, pages !! i = Some page → Page.page_no page = Z.of_nat i)
  ∧ NoDup (Page.page_no <$> pages).


(** The document after a call of [model] on a batch, and after the calls on
    [batches], one after the other. *)
Definition after (model : BaseEnrichmentModel) (doc : DoclingDocument)
    (element_batch : list NodeItem) : DoclingDocument :=
  in_place (call model doc element_batch).2 doc.

Definition enriched_by (model : BaseEnrichmentModel) (batches : list (list NodeItem))
    (doc : DoclingDocument) : DoclingDocument :=
  foldl (after model) doc batches.

(** [element_batch] is the batch that the traversal of [doc], having passed
    [pos] elements, gives when it has passed [stop]: it is made of the
    elements of that stretch that the model declares processable on [doc], in
    the order of the document; it is not empty; and either it is full and the
    stretch ends with its last element, or it is short and the stretch goes to
    the end of the traversal. *)
Definition batch_at (model : BaseEnrichmentModel) (size : nat) (doc : DoclingDocument)
    (pos stop : nat) (element_batch : list NodeItem) : Prop :=
  let stretch := take (stop - pos) (drop pos (iterate_items doc)) in
  (pos < stop ≤ length (iterate_items doc))%nat
  ∧ filter_elements_of doc model stretch = Returns element_batch
  ∧ element_batch ≠ []
  ∧ ((length element_batch = size
      ∧ ∃ element level,
          iterate_items doc !! (stop - 1)%nat = Some (element, level)
          ∧ is_processable model doc element = Returns true)
     ∨ ((length element_batch < size)%nat ∧ stop = length (iterate_items doc))).

(** The pull of a batch from place [pos] of the traversal raises [e]: the
    predicate raises it on an element that the pull reaches while the batch is
    not full. *)
Definition pull_raises (model : BaseEnrichmentModel) (size : nat) (doc : DoclingDocument)
    (pos : nat) (e : exn) : Prop :=
  ∃ stop taken element level,
    (pos ≤ stop)%nat
    ∧ filter_elements_of doc model (take (stop - pos) (drop pos (iterate_items doc)))
      = Returns taken
    ∧ (length taken < size)%nat
    ∧ iterate_items doc !! stop = Some (element, level)
    ∧ is_processable model doc element = Raises e.

(** The enrich phase for one model as the spec words it, with the "lazy"
    traversal: [batches] are the batches of [model] from place [pos] of the
    traversal on, and [r] is how the round ends.  Each batch is the batch at
    its stretch of the document as the calls before it have left it; the
    stretches follow one another; a call that raises is the last one; after
    the last batch, either the traversal has nothing processable left and the
    round returns, or the pull of one more batch raises. *)
Fixpoint model_rounds (model : BaseEnrichmentModel) (size : nat) (doc : DoclingDocument)
    (pos : nat) (batches : list (list NodeItem)) (r : outcome unit) : Prop :=
  match batches with
  | [] =>
      (r = Returns ()
       ∧ filter_elements_of doc model (drop pos (iterate_items doc)) = Returns [])
      ∨ ∃ e, r = Raises e ∧ pull_raises model size doc pos e
  | element_batch :: later =>
      ∃ stop,
        batch_at model size doc pos stop element_batch
        ∧ match (call model doc element_batch).1 with
          | Returns _ =>
              model_rounds model size (after model doc element_batch) stop later r
          | Raises e => later = [] ∧ r = Raises e
          end
  end.

(** The same for the pipe: [plan] has the batches of the models that were
    reached, in the order of the pipe; a model whose round raises is the last
    one reached. *)
Fixpoint pipe_rounds (size : nat) (pipe : list BaseEnrichmentModel) (doc : DoclingDocument)
    (plan : list (list (list NodeItem))) (r : outcome unit) : Prop :=
  match pipe, plan with
  | [], [] => r = Returns ()
  | model :: rest, batches :: plan' =>
      ∃ r1,
        model_rounds model size doc 0 batches r1
        ∧ match r1 with
          | Returns _ => pipe_rounds size rest (enriched_by model batches doc) plan' r
          | Raises e => plan' = [] ∧ r = Raises e
          end
  | _, _ => False
  end.

(** The calls of a plan, one per batch. *)
Definition pipe_calls (pipe : list BaseEnrichmentModel)
    (plan : list (list (list NodeItem))) : list Event :=
  concat (zip_with (λ model batches, CallModel (model_name model) <$> batches) pipe plan).

(** The document after the calls of a plan. *)
Definition enriched_by_pipe (pipe : list BaseEnrichmentModel)
    (plan : list (list (list NodeItem))) (doc : DoclingDocument) : DoclingDocument :=
  foldl (λ d step, enriched_by step.1 step.2 d) doc (zip pipe plan).



(** The number of [unload()] calls on record. *)
Definition unload_count (evs : list Event) : nat :=
  length (filter (λ ev, ∃ cls, ev = CallUnload cls) evs).
End Pipeline.

(** ** The vocabulary of the properties *)

(** [keeps R m]: however [m] ends, the world it leaves is related by [R] to
    the one it found. *)
Definition keeps (R : relation World) {A} (m : Py A) : Prop :=
  ∀ w r w', run m w = (r, w') → R w w'.

(** The document handle is the same and [unload()] was not called. *)
Definition quietly (w w' : World) : Prop :=
  in_doc w' = in_doc w
  ∧ ∃ evs, calls w' = calls w ++ evs ∧ unload_count evs = 0%nat.

(** The page list is the same. *)
Definition same_pages (w w' : World) : Prop :=
  ConversionResult.pages (conv_res w') = ConversionResult.pages (conv_res w).

(** The error list is the same. *)
Definition same_errors (w w' : World) : Prop :=
  ConversionResult.errors (conv_res w') = ConversionResult.errors (conv_res w).

(** The status is the same. *)
Definition same_status (w w' : World) : Prop :=
  ConversionResult.status (conv_res w') = ConversionResult.status (conv_res w).

(** The enrichment phase leaves the status, the pages and the errors. *)
Definition rest_of_result (w w' : World) : Prop :=
  same_status w w' ∧ same_pages w w' ∧ same_errors w w'.

(** A step that keeps the page index. *)
Definition step_keeps_page_no (step : PageStep) : Prop :=
  ∀ page, Page.page_no (step page).1 = Page.page_no page.

(** ** Sample conversions *)

(** A valid PDF document of three pages, and a pipeline whose stages are
    interrupted from the keyboard while the first batch is drained. *)
Definition pdfium : DocumentBackend :=
  {| backend_class := "PyPdfiumDocumentBackend"; is_pdf := true |}.

Definition three_pages : World :=
  {| in_doc := InputDocument.mk "report.pdf" "9f2c" true 3 (Some pdfium);
     conv_res := ConversionResult.new;
     calls := [] |}.

Definition interrupted : PaginatedPipeline :=
  generator_pipeline (λ _ page, (page, None))
    [λ page, (page, Some KeyboardInterrupt)]
    inherited_assemble_document [].

(** The same, with a stage that fails on its own account. *)
Definition failing_stage : PaginatedPipeline :=
  generator_pipeline (λ _ page, (page, None))
    [λ page, (page, Some (OtherException "ValueError" "bad page"))]
    inherited_assemble_document [].

(** A valid slide deck, with the PowerPoint backend attached. *)
Definition slides : World :=
  {| in_doc := InputDocument.mk "talk.pptx" "77aa" true 12 (Some mspowerpoint_backend);
     conv_res := ConversionResult.new;
     calls := [] |}.

Definition plain_pipeline : PaginatedPipeline :=
  generator_pipeline (λ _ page, (page, None)) []
    inherited_assemble_document [].

(** Five pages, of which pages 1 and 4 fail to parse. *)
Definition pdfium_page (valid : bool) : PdfPageBackend :=
  {| page_backend_class := "PyPdfiumPageBackend"; is_valid := valid |}.

Definition initialized (page : Page.t) : Page.t :=
  {| Page.page_no := Page.page_no page;
     Page.cells := Page.cells page;
     Page._backend :=
       Some (pdfium_page (negb (bool_decide (Page.page_no page = 1
                                             ∨ Page.page_no page = 4)))) |}.

Definition loading_pipeline : PaginatedPipeline :=
  generator_pipeline (λ _ page, (initialized page, None)) []
    inherited_assemble_document [].

Definition five_pages : World :=
  {| in_doc := InputDocument.mk "scan.pdf" "c41d" true 5 (Some pdfium);
     conv_res := ConversionResult.new;
     calls := [] |}.

Definition five_pages_built : World :=
  {| in_doc := in_doc five_pages;
     conv_res :=
       ConversionResult.with_pages (initialized <$> (Page.new <$> range 0 5))
         ConversionResult.new;
     calls := [] |}.

(** A document of 45 elements, of which the 40 pictures are for the
    enrichment model below; every ninth element is a caption. *)
Definition sample_element (i : nat) : NodeItem * Z :=
  ({| self_ref := "#/items/" +:+ pretty i;
      content := if decide (i `mod` 9 = 4)%nat then "caption" else "picture" |},
   1).

Definition sample_document : DoclingDocument :=
  {| name := "sample"; items := sample_element <$> seq 0 45 |}.

(** A model that takes the pictures and leaves the document as it is. *)
Definition picture_classifier : BaseEnrichmentModel :=
  {| model_name := "DocumentPictureClassifier";
     is_processable := λ _ element, Returns (bool_decide (content element = "picture"));
     call := λ _ _, (Returns (), λ _ element, element) |}.

(** A model that takes the pictures and, called on a batch, marks every
    picture of the document. *)
Definition picture_marker : BaseEnrichmentModel :=
  {| model_name := "PictureMarker";
     is_processable := λ _ element, Returns (bool_decide (content element = "picture"));
     call := λ _ _,
       (Returns (),
        λ _ element,
          if bool_decide (content element = "picture")
          then {| self_ref := self_ref element; content := "marked picture" |}
          else element) |}.

(** A model that takes the pictures and raises on the second batch, the one
    that begins with the picture [#/items/18]. *)
Definition failing_classifier : BaseEnrichmentModel :=
  {| model_name := "FailingClassifier";
     is_processable := λ _ element, Returns (bool_decide (content element = "picture"));
     call := λ _ element_batch,
       (if bool_decide (self_ref <$> head element_batch = Some "#/items/18")
        then Raises (RuntimeError "out of memory")
        else Returns (),
        λ _ element, element) |}.

Definition picture_pipeline : BasePipeline :=
  {| enrichment_pipe := [picture_classifier];
     _build_document := mret ();
     _assemble_document := default_assemble_document;
     _determine_status := mret SUCCESS |}.

Definition marking_pipeline : BasePipeline :=
  {| enrichment_pipe := [picture_marker; picture_classifier];
     _build_document := mret ();
     _assemble_document := default_assemble_document;
     _determine_status := mret SUCCESS |}.

Definition failing_pipeline : BasePipeline :=
  {| enrichment_pipe := [failing_classifier; picture_classifier];
     _build_document := mret ();
     _assemble_document := default_assemble_document;
     _determine_status := mret SUCCESS |}.

Definition assembled : World :=
  {| in_doc := in_doc five_pages;
     conv_res := ConversionResult.with_output sample_document ConversionResult.new;
     calls := [] |}.

(** The sizes of the batches a record of calls shows. *)
Definition batch_sizes (evs : list Event) : list nat :=
  omap (λ ev, match ev with
              | CallModel _ element_batch => Some (length element_batch)
              | _ => None
              end) evs.

(** ** Further vocabulary: the record of calls *)

(** A page batch drained. *)
Definition is_drain (ev : Event) : Prop := ∃ page_nos, ev = DrainPages page_nos.

(** A call of an enrichment model. *)
Definition is_model_call (ev : Event) : Prop :=
  ∃ model element_batch, ev = CallModel model element_batch.

(** Work that needs the document backend: a batch drained, or the release
    itself. *)
Definition is_page_work (ev : Event) : Prop :=
  is_drain ev ∨ ∃ cls, ev = CallUnload cls.

(** The document handle is the same, and the backend was left alone: no
    batch drained, no release. *)
Definition without_page_work (w w' : World) : Prop :=
  in_doc w' = in_doc w
  ∧ ∃ evs, calls w' = calls w ++ evs ∧ Forall (λ ev, ¬ is_page_work ev) evs.

(** The record of a batch drained. *)
Definition drain_of (page_batch : list Page.t) : Event :=
  DrainPages (Page.page_no <$> page_batch).

(** The document handle is the same, and the calls made are calls of
    enrichment models. *)
Definition with_model_calls (w w' : World) : Prop :=
  in_doc w' = in_doc w
  ∧ ∃ evs, calls w' = calls w ++ evs ∧ Forall is_model_call evs.

(** ** docling.datamodel.base_models: the images of a page *)

Module PageImage.
Section GetImage.
(** A render scale is a key of the cache; an image is what the page backend
    renders. *)
Context {Scale : Type} `{Countable Scale} {Image : Type}.

(** [self._backend.get_page_image(scale=scale)]: the image, or the exception
    the backend raises. *)
Context (get_page_image : PdfPageBackend → Scale → outcome Image).

(** The attributes of a [Page] that [get_image] works on: [_backend] (with
    the page above), [_default_image_scale] and [_image_cache]. *)
Record t : Type := mk {
  page : Page.t;
  _default_image_scale : Scale;
  _image_cache : gmap Scale Image
}.

Definition with_cache (cache : gmap Scale Image) (self : t) : t :=
  {| page := page self;
     _default_image_scale := _default_image_scale self;
     _image_cache := cache |}.

(** [def get_image(self, scale)] *)
Definition get_image (self : t) (scale : Scale) : outcome (option Image) * t :=
  match Page._backend (page self) with
  | None => (Returns (_image_cache self !! scale), self)
  | Some backend =>
      match _image_cache self !! scale with
      | Some image => (Returns (Some image), self)
      | None =>
          match get_page_image backend scale with
          | Returns image =>
              (Returns (Some image),
               with_cache (<[scale := image]> (_image_cache self)) self)
          | Raises e => (Raises e, self)
          end
      end
  end.

(** [@property def image(self)] *)
Definition image (self : t) : outcome (option Image) * t :=
  get_image self (_default_image_scale self).

(** The page with its backend back-reference set anew, or cleared. *)
Definition with_backend (backend : option PdfPageBackend) (self : t) : t :=
  {| page := {| Page.page_no := Page.page_no (page self);
                Page.cells := Page.cells (page self);
                Page._backend := backend |};
     _default_image_scale := _default_image_scale self;
     _image_cache := _image_cache self |}.

(** One call of [get_image], at some scale. *)
Definition asked (self self' : t) : Prop :=
  ∃ scale, (get_image self scale).2 = self'.
End GetImage.
End PageImage.

(** A page on a backend that renders an image at every scale asked for,
    with nothing cached yet. *)
Definition rendering (backend : PdfPageBackend) (scale : Z) : outcome string :=
  Returns (page_backend_class backend +:+ "@" +:+ pretty scale).

Definition page_with_images : PageImage.t (Scale:=Z) (Image:=string) :=
  {| PageImage.page := initialized (Page.new 0);
     PageImage._default_image_scale := 1;
     PageImage._image_cache := ∅ |}.

(** ** tests/verify_utils.py *)

(** Functions that return a value or raise, and change nothing. *)
Global Instance outcome_mret : MRet outcome := λ A a, Returns a.
Global Instance outcome_mbind : MBind outcome := λ A B k o,
  match o with
  | Returns a => k a
  | Raises e => Raises e
  end.

Module VerifyUtils.

(** [assert condition, message] *)
Definition AssertionError (msg : string) : exn := OtherException "AssertionError" msg.

(** A list indexed out of its range. *)
Definition IndexError : exn := OtherException "IndexError" "list index out of range".

Definition assert (P : Prop) `{Decision P} (msg : string) : outcome unit :=
  if decide P then Returns () else Raises (AssertionError msg).

(** [xs[i]] *)
Definition index {A} (xs : list A) (i : nat) : outcome A :=
  match xs !! i with
  | Some x => Returns x
  | None => Raises IndexError
  end.

Section VerifyCells.
(** A page, a cell and the tuple of a bounding box, as [verify_cells] reads
    them: [page.cells], [cell.text], [cell.bbox.as_tuple()], and the tuple
    written out in a message.  [tuple_eq] is [==] on these tuples: it
    compares the coordinates one by one, and on floats [==] need not hold of
    a value and itself (a NaN is equal to no float object but itself), so that
    nothing is assumed of it. *)
Context {P C B : Type}.
Context (cells : P → list C) (text : C → string) (bbox_as_tuple : C → B).
Context (tuple_eq : B → B → bool) (show : B → string).

(** The loop [for cid, cell_true_item in enumerate(page_true_item.cells)],
    from [cid] on. *)
Fixpoint verify_page_cells (page_pred : P) (cid : nat) (true_cells : list C)
  : outcome unit :=
  match true_cells with
  | [] => Returns ()
  | cell_true_item :: rest =>
      cell_pred_item ← index (cells page_pred) cid;
      let true_text := text cell_true_item in
      let pred_text := text cell_pred_item in
      assert (true_text = pred_text) (true_text +:+ "!=" +:+ pred_text) ;;
      let true_bbox := bbox_as_tuple cell_true_item in
      let pred_bbox := bbox_as_tuple cell_pred_item in
      assert (tuple_eq true_bbox pred_bbox = true)
        ("bbox is not the same: " +:+ show true_bbox +:+ " != " +:+ show pred_bbox) ;;
      verify_page_cells page_pred (S cid) rest
  end.

(** The loop [for pid, page_true_item in enumerate(doc_true_pages)], from
    [pid] on. *)
Fixpoint verify_pages (doc_pred_pages : list P) (pid : nat) (true_pages : list P)
  : outcome unit :=
  match true_pages with
  | [] => Returns ()
  | page_true_item :: rest =>
      let num_true_cells := length (cells page_true_item) in
      page_pred ← index doc_pred_pages pid;
      let num_pred_cells := length (cells page_pred) in
      assert (num_true_cells = num_pred_cells)
        ("num_true_cells!=num_pred_cells " +:+ pretty num_true_cells
         +:+ "!=" +:+ pretty num_pred_cells) ;;
      verify_page_cells page_pred 0 (cells page_true_item) ;;
      verify_pages doc_pred_pages (S pid) rest
  end.

(** [def verify_cells(doc_pred_pages, doc_true_pages)] *)
Definition verify_cells (doc_pred_pages doc_true_pages : list P) : outcome bool :=
  assert (length doc_pred_pages = length doc_true_pages)
    "pred- and true-doc do not have the same number of pages" ;;
  verify_pages doc_pred_pages 0 doc_true_pages ;;
  Returns true.

(** Two cells that [verify_cells] takes for the same. *)
Definition same_cell (cell_pred cell_true : C) : Prop :=
  text cell_true = text cell_pred
  ∧ tuple_eq (bbox_as_tuple cell_true) (bbox_as_tuple cell_pred) = true.

(** Two lists of pages that agree, page by page and cell by cell. *)
Definition same_cells (doc_pred_pages doc_true_pages : list P) : Prop :=
  Forall2 (λ page_pred page_true,
             Forall2 same_cell (cells page_pred) (cells page_true))
    doc_pred_pages doc_true_pages.
End VerifyCells.

Section Grids.
(** The two nested loops over the cells of a table,
    [for i, row in enumerate(grid): for j, col in enumerate(grid[i])], with
    the assertions on the cell at [i][j] of the truth and of the prediction as
    [check_cell]. *)
Context {C : Type} (check_cell : C → C → outcome unit).

Fixpoint check_row (pred_grid : list (list C)) (i j : nat) (true_row : list C)
  : outcome unit :=
  match true_row with
  | [] => Returns ()
  | true_cell :: rest =>
      pred_row ← index pred_grid i;
      pred_cell ← index pred_row j;
      check_cell true_cell pred_cell ;;
      check_row pred_grid i (S j) rest
  end.

Fixpoint check_rows (pred_grid : list (list C)) (i : nat) (true_grid : list (list C))
  : outcome unit :=
  match true_grid with
  | [] => Returns ()
  | true_row :: rest =>
      check_row pred_grid i 0 true_row ;;
      check_rows pred_grid (S i) rest
  end.

(** Every cell of the true grid has a cell at its place in the predicted
    grid, and the two agree. *)
Definition covers (agree : C → C → Prop) (pred_grid true_grid : list (list C)) : Prop :=
  ∀ i j true_row true_cell,
    true_grid !! i = Some true_row → true_row !! j = Some true_cell →
    ∃ pred_row pred_cell,
      pred_grid !! i = Some pred_row ∧ pred_row !! j = Some pred_cell
      ∧ agree true_cell pred_cell.
End Grids.

(** The legacy document ([docling_core.types.Document]) as
    [verify_tables_v1] reads it. *)
Record TableCellV1 : Type := mkTableCellV1 { v1_text : string; obj_type : string }.

Record TableV1 : Type := mkTableV1 {
  v1_num_rows : Z;
  v1_num_cols : Z;
  v1_data : option (list (list TableCellV1))
}.

Record DsDocument : Type := mkDsDocument { v1_tables : option (list TableV1) }.

Definition check_cell_v1 (true_cell pred_cell : TableCellV1) : outcome unit :=
  assert (v1_text true_cell = v1_text pred_cell)
    "table-cell does not have the same text" ;;
  assert (obj_type true_cell = obj_type pred_cell)
    "table-cell does not have the same type".

(** The loop [for l, true_item in enumerate(doc_true.tables)], from [l] on. *)
Fixpoint verify_table_items_v1 (pred_tables : list TableV1) (l : nat)
    (true_tables : list TableV1) : outcome unit :=
  match true_tables with
  | [] => Returns ()
  | true_item :: rest =>
      pred_item ← index pred_tables l;
      assert (v1_num_rows true_item = v1_num_rows pred_item)
        "table does not have the same #-rows" ;;
      assert (v1_num_cols true_item = v1_num_cols pred_item)
        "table does not have the same #-cols" ;;
      assert (v1_data true_item ≠ None) "documents are expected to have table data" ;;
      assert (v1_data pred_item ≠ None) "documents are expected to have table data" ;;
      match v1_data true_item, v1_data pred_item with
      | Some true_data, Some pred_data => check_rows check_cell_v1 pred_data 0 true_data
      | _, _ => Returns ()
      end ;;
      verify_table_items_v1 pred_tables (S l) rest
  end.

(** [def verify_tables_v1(doc_pred, doc_true)] *)
Definition verify_tables_v1 (doc_pred doc_true : DsDocument) : outcome bool :=
  match v1_tables doc_true with
  | None =>
      assert (v1_tables doc_pred = None) "not expecting any table on this document" ;;
      Returns true
  | Some true_tables =>
      assert (v1_tables doc_pred ≠ None) "no tables predicted, but expected in doc_true" ;;
      match v1_tables doc_pred with
      | None => Returns true
      | Some pred_tables =>
          assert (length true_tables = length pred_tables)
            "document has different count of tables than expected." ;;
          verify_table_items_v1 pred_tables 0 true_tables ;;
          Returns true
      end
  end.

(** The tables of a [DoclingDocument] as [verify_tables_v2] reads them. *)
Record TableCell : Type := mkTableCell {
  cell_text : string;
  column_header : bool;
  row_header : bool;
  row_section : bool
}.

Record TableData : Type := mkTableData {
  num_rows : Z;
  num_cols : Z;
  grid : list (list TableCell)
}.

Record TableItem : Type := mkTableItem { data : TableData }.

Definition check_cell_v2 (true_cell pred_cell : TableCell) : outcome unit :=
  assert (cell_text true_cell = cell_text pred_cell)
    "table-cell does not have the same text" ;;
  assert (column_header true_cell = column_header pred_cell)
    "table-cell should be a column_header but prediction isn't" ;;
  assert (row_header true_cell = row_header pred_cell)
    "table-cell should be a row_header but prediction isn't" ;;
  assert (row_section true_cell = row_section pred_cell)
    "table-cell should be a row_section but prediction isn't".

(** The loop [for l, true_item in enumerate(doc_true.tables)], from [l] on.
    The data of a table item is never [None], so the two assertions that say
    so hold. *)
Fixpoint verify_table_items_v2 (pred_tables : list TableItem) (l : nat)
    (true_tables : list TableItem) : outcome unit :=
  match true_tables with
  | [] => Returns ()
  | true_item :: rest =>
      pred_item ← index pred_tables l;
      assert (num_rows (data true_item) = num_rows (data pred_item))
        "table does not have the same #-rows" ;;
      assert (num_cols (data true_item) = num_cols (data pred_item))
        "table does not have the same #-cols" ;;
      check_rows check_cell_v2 (grid (data pred_item)) 0 (grid (data true_item)) ;;
      verify_table_items_v2 pred_tables (S l) rest
  end.

(** [def verify_tables_v2(doc_pred, doc_true)], on the tables of the two
    documents. *)
Definition verify_tables_v2 (pred_tables true_tables : list TableItem) : outcome bool :=
  if decide (¬ (0 < length true_tables)%nat) then
    assert (length pred_tables = 0%nat) "not expecting any table on this document" ;;
    Returns true
  else
    assert (0 < length pred_tables)%nat "no tables predicted, but expected in doc_true" ;;
    assert (length true_tables = length pred_tables)
      "document has different count of tables than expected." ;;
    verify_table_items_v2 pred_tables 0 true_tables ;;
    Returns true.

(** Cells, and tables, that the two functions take for the same. *)
Definition agree_v1 (true_cell pred_cell : TableCellV1) : Prop :=
  v1_text true_cell = v1_text pred_cell ∧ obj_type true_cell = obj_type pred_cell.

Definition table_agrees_v1 (pred_item true_item : TableV1) : Prop :=
  v1_num_rows true_item = v1_num_rows pred_item
  ∧ v1_num_cols true_item = v1_num_cols pred_item
  ∧ ∃ true_data pred_data,
      v1_data true_item = Some true_data ∧ v1_data pred_item = Some pred_data
      ∧ covers agree_v1 pred_data true_data.

Definition tables_agree_v1 (doc_pred doc_true : DsDocument) : Prop :=
  match v1_tables doc_true, v1_tables doc_pred with
  | None, None => True
  | Some true_tables, Some pred_tables =>
      Forall2 table_agrees_v1 pred_tables true_tables
  | _, _ => False
  end.

Definition agree_v2 (true_cell pred_cell : TableCell) : Prop :=
  cell_text true_cell = cell_text pred_cell
  ∧ column_header true_cell = column_header pred_cell
  ∧ row_header true_cell = row_header pred_cell
  ∧ row_section true_cell = row_section pred_cell.

Definition table_agrees_v2 (pred_item true_item : TableItem) : Prop :=
  num_rows (data true_item) = num_rows (data pred_item)
  ∧ num_cols (data true_item) = num_cols (data pred_item)
  ∧ covers agree_v2 (grid (data pred_item)) (grid (data true_item)).

(** A grid with more in it: every row of [pred_grid] is there, perhaps with
    cells behind it, and there may be rows behind the last. *)
Definition grid_extends {C} (pred_grid larger : list (list C)) : Prop :=
  ∀ i pred_row, pred_grid !! i = Some pred_row →
    ∃ row, larger !! i = Some row ∧ pred_row `prefix_of` row.

(** A table item with the same counts and a grid with more in it. *)
Definition table_extends (pred_item larger : TableItem) : Prop :=
  num_rows (data larger) = num_rows (data pred_item)
  ∧ num_cols (data larger) = num_cols (data pred_item)
  ∧ grid_extends (grid (data pred_item)) (grid (data larger)).

(** An outcome a verification can have: it returns [True], or an assertion
    fails, or a list is indexed out of range. *)
Definition verdict (r : outcome bool) : Prop :=
  r = Returns true ∨ (∃ msg, r = Raises (AssertionError msg)) ∨ r = Raises IndexError.

(** A loop of checks ends in one of three ways. *)
Definition checked (r : outcome unit) : Prop :=
  r = Returns () ∨ (∃ msg, r = Raises (AssertionError msg)) ∨ r = Raises IndexError.
End VerifyUtils.

(** ** docling.backend.mspowerpoint_backend: tables *)

Module PptxTables.
(** A table cell and the table data that the backend hands to the document
    ([TableCell], [BaseTableData]), with the fields that [handle_tables]
    fills in; the provenance of a shape ([ProvenanceItem]), its bounding box as
    the tuple given to [BoundingBox.from_tuple]. *)
Record TableCell : Type := mkTableCell {
  text : string;
  row_span : Z;
  col_span : Z;
  start_row_offset_idx : Z;
  end_row_offset_idx : Z;
  start_col_offset_idx : Z;
  end_col_offset_idx : Z;
  col_header : bool;
  row_header : bool
}.

Record BaseTableData : Type := mkBaseTableData {
  num_rows : Z;
  num_cols : Z;
  table_cells : list TableCell
}.

Record ProvenanceItem : Type := mkProvenanceItem {
  page_no : Z;
  charspan : Z * Z;
  bbox : Z * Z * Z * Z
}.

(** The [a:tc] element of a cell, as far as it is read: the attributes
    [rowSpan] and [gridSpan]. *)
Record CellXml : Type := mkCellXml {
  rowSpan : option string;
  gridSpan : option string
}.

(** A shape of a slide (python-pptx), as far as [handle_tables] and
    [generate_prov] read it: its frame in EMU, each side [None] when the
    shape has no position or size of its own (a placeholder that inherits
    them), [has_table], the texts of the cells of [table.rows], and what
    [shape._element.xpath(".//a:tbl/a:tr[r]/a:tc[c]")] finds for [r] and
    [c]. *)
Record Shape : Type := mkShape {
  left : option Z;
  top : option Z;
  width : option Z;
  height : option Z;
  has_table : bool;
  rows : list (list string);
  xpath : nat → nat → list CellXml
}.

Section HandleTables.
(** [str.strip()], and [int()] on a string: the number, or the ValueError. *)
Context (strip : string → string) (int : string → outcome Z).

(** [a + b] on two values that are an [int] or [None]: a [TypeError] when
    one of them is [None]. *)
Definition TypeError : exn :=
  OtherException "TypeError" "unsupported operand type(s) for +".

Definition add (a b : option Z) : outcome Z :=
  match a, b with
  | Some x, Some y => Returns (x + y)
  | _, _ => Raises TypeError
  end.

(** [def generate_prov(self, shape, slide_ind, text="")]: the sums
    [left + width] and [top + height] come first, and the bounding box is made
    of numbers. *)
Definition generate_prov (shape : Shape) (slide_ind : Z) (text : string)
  : outcome ProvenanceItem :=
  right ← add (left shape) (width shape);
  bottom ← add (top shape) (height shape);
  match left shape, top shape with
  | Some l, Some t =>
      Returns {| page_no := slide_ind;
                 charspan := (0, Z.of_nat (String.length text));
                 bbox := (l, t, right, bottom) |}
  | _, _ => Raises TypeError
  end.

(** The shape has a position and a size. *)
Definition positioned (shape : Shape) : Prop :=
  is_Some (left shape) ∧ is_Some (top shape)
  ∧ is_Some (width shape) ∧ is_Some (height shape).

(** [1] for an attribute that is not there, [int(...)] of one that is. *)
Definition span_of (attr : option string) : outcome Z :=
  match attr with
  | None => Returns 1
  | Some s => int s
  end.

(** The loop [for col_idx, cell in enumerate(row.cells)], from [col_idx]
    on; [tcells] are the cells appended so far. *)
Fixpoint row_cells (shape : Shape) (row_idx col_idx : nat) (cells : list string)
    (tcells : list TableCell) : outcome (list TableCell) :=
  match cells with
  | [] => Returns tcells
  | cell_text :: rest =>
      match xpath shape (row_idx + 1) (col_idx + 1) with
      | [] => row_cells shape row_idx (S col_idx) rest tcells
      | cell_xml :: _ =>
          row_span ← span_of (rowSpan cell_xml);
          col_span ← span_of (gridSpan cell_xml);
          let icell :=
            {| text := strip cell_text;
               row_span := row_span;
               col_span := col_span;
               start_row_offset_idx := Z.of_nat row_idx;
               end_row_offset_idx := Z.of_nat row_idx + row_span;
               start_col_offset_idx := Z.of_nat col_idx;
               end_col_offset_idx := Z.of_nat col_idx + col_span;
               col_header := false;
               row_header := false |} in
          row_cells shape row_idx (S col_idx) rest
            (if bool_decide (0 < String.length (strip cell_text))%nat
             then tcells ++ [icell] else tcells)
      end
  end.

(** The loop [for row_idx, row in enumerate(table.rows)], from [row_idx]
    on. *)
Fixpoint table_rows (shape : Shape) (row_idx : nat) (todo : list (list string))
    (num_cols : nat) (tcells : list TableCell) : outcome (nat * list TableCell) :=
  match todo with
  | [] => Returns (num_cols, tcells)
  | row :: rest =>
      let num_cols :=
        if bool_decide (num_cols < length row)%nat then length row else num_cols in
      tcells' ← row_cells shape row_idx 0 row tcells;
      table_rows shape (S row_idx) rest num_cols tcells'
  end.

(** [def handle_tables(self, shape, parent_slide, slide_ind, doc)]: the call
    [doc.add_table(data=data, prov=prov)] it makes, if it makes one. *)
Definition handle_tables (shape : Shape) (slide_ind : Z)
  : outcome (option (BaseTableData * ProvenanceItem)) :=
  if has_table shape then
    prov ← generate_prov shape slide_ind "";
    '(num_cols, tcells) ← table_rows shape 0 (rows shape) 0%nat [];
    let data :=
      {| num_rows := Z.of_nat (length (rows shape));
         num_cols := Z.of_nat num_cols;
         table_cells := tcells |} in
    Returns (if bool_decide (0 < length tcells)%nat then Some (data, prov) else None)
  else Returns None.

(** The place of a cell in the table, and the order of places row by row. *)
Definition place (c : TableCell) : Z * Z :=
  (start_row_offset_idx c, start_col_offset_idx c).

Definition place_lt (p q : Z * Z) : Prop :=
  p.1 < q.1 ∨ (p.1 = q.1 ∧ p.2 < q.2).

(** The cell at row [i], column [j] of the table is one that the loops keep:
    it has an XML node and its stripped text is not empty. *)
Definition kept_at (shape : Shape) (i j : nat) : Prop :=
  ∃ row source,
    rows shape !! i = Some row ∧ row !! j = Some source
    ∧ xpath shape (i + 1) (j + 1) ≠ []
    ∧ (0 < String.length (strip source))%nat.

(** A cell made from the cell at row [i], column [j] of the table: it sits
    there, carries its text, stripped and not empty, has the spans of the
    first XML node found for it, ends where its spans say, and is no header. *)
Definition made_from (shape : Shape) (c : TableCell) : Prop :=
  ∃ i j row source cell_xml others,
    rows shape !! i = Some row ∧ row !! j = Some source
    ∧ xpath shape (i + 1) (j + 1) = cell_xml :: others
    ∧ start_row_offset_idx c = Z.of_nat i ∧ start_col_offset_idx c = Z.of_nat j
    ∧ text c = strip source ∧ (0 < String.length (text c))%nat
    ∧ span_of (rowSpan cell_xml) = Returns (row_span c)
    ∧ span_of (gridSpan cell_xml) = Returns (col_span c)
    ∧ end_row_offset_idx c = start_row_offset_idx c + row_span c
    ∧ end_col_offset_idx c = start_col_offset_idx c + col_span c
    ∧ col_header c = false ∧ row_header c = false.

(** What the loops keep true of the cells appended before the place [p]:
    each is made from a cell of the table, they come in the order of their
    places, all before [p], and no kept cell before [p] is missing. *)
Definition cells_before (shape : Shape) (p : Z * Z) (tcells : list TableCell) : Prop :=
  Forall (made_from shape) tcells
  ∧ Forall (λ c, place_lt (place c) p) tcells
  ∧ StronglySorted (λ c d, place_lt (place c) (place d)) tcells
  ∧ ∀ i j, kept_at shape i j → place_lt (Z.of_nat i, Z.of_nat j) p →
      ∃ c, c ∈ tcells ∧ place c = (Z.of_nat i, Z.of_nat j).

(** Every span attribute that the loops read is a number for [int]. *)
Definition spans_are_numbers (shape : Shape) : Prop :=
  ∀ i j cell_xml others s,
    xpath shape i j = cell_xml :: others →
    rowSpan cell_xml = Some s ∨ gridSpan cell_xml = Some s →
    ∃ z, int s = Returns z.

(** A span attribute of an XML node, which [int] refuses with [e]. *)
Definition span_refused (shape : Shape) (e : exn) : Prop :=
  ∃ i j cell_xml others s,
    xpath shape i j = cell_xml :: others
    ∧ (rowSpan cell_xml = Some s ∨ gridSpan cell_xml = Some s)
    ∧ int s = Raises e.
End HandleTables.
End PptxTables.

(** ** A sample slide table *)

(** Stripping the ASCII white space of both ends, what [str.strip()] does on
    ASCII strings. *)
Definition is_space (a : Ascii.ascii) : bool :=
  let n := Ascii.nat_of_ascii a in
  (bool_decide (9 ≤ n ≤ 13)%nat || bool_decide (28 ≤ n ≤ 32)%nat)%bool.

Fixpoint lstrip (s : string) : string :=
  match s with
  | String a s' => if is_space a then lstrip s' else s
  | EmptyString => EmptyString
  end.

Definition strip_ascii (s : string) : string :=
  String.rev (lstrip (String.rev (lstrip s))).

(** Reading a decimal numeral, digits with an optional minus sign; a
    ValueError for any other string. *)
Definition decimal (s : string) : outcome Z :=
  match NilZero.int_of_string s with
  | Some d => Returns (Z.of_int d)
  | None => Raises (OtherException "ValueError" "invalid literal for int() with base 10")
  end.

(** A table of two rows and three columns: the first cell spans two columns,
    the third cell of the first row has no XML node, the first cell of the
    second row is blank. *)
Definition sample_table : PptxTables.Shape :=
  {| PptxTables.left := Some 100;
     PptxTables.top := Some 200;
     PptxTables.width := Some 300;
     PptxTables.height := Some 400;
     PptxTables.has_table := true;
     PptxTables.rows := [["Name "; "Value"; "unit"]; ["  "; " 3"; "cm"]];
     PptxTables.xpath := λ r c,
       match r, c with
       | 1%nat, 1%nat => [PptxTables.mkCellXml None (Some "2")]
       | 1%nat, 3%nat => []
       | _, _ => [PptxTables.mkCellXml None None]
       end |}.

(** * Properties *)

(** ** The batch scheduler *)

Section ChunksFacts.
Context {A : Type}.
Implicit Types (l : list A) (b fuel i : nat).

Lemma chunks_go_nil fuel b : chunks_go (A:=A) fuel b [] = [].
Proof. by destruct fuel. Qed.

Lemma chunks_go_fuel b fuel1 fuel2 l :
  (0 < b)%nat → (length l ≤ fuel1)%nat → (length l ≤ fuel2)%nat →
  chunks_go fuel1 b l = chunks_go fuel2 b l.
Proof.
  intros Hb. revert fuel2 l.
  induction fuel1 as [|fuel1 IH]; intros fuel2 [|x l] H1 H2;
    rewrite ?chunks_go_nil; try done; simpl in *; try lia.
  destruct fuel2 as [|fuel2]; simpl in *; [lia|].
  f_equal. apply IH; rewrite length_drop; simpl; lia.
Qed.

(** The equation a reader expects of the scheduler. *)
Lemma chunks_cons b x l :
  (0 < b)%nat →
  chunks b (x :: l) = take b (x :: l) :: chunks b (drop b (x :: l)).
Proof.
  intros Hb. unfold chunks. simpl length. cbn [chunks_go]. f_equal.
  apply chunks_go_fuel; [done| |done].
  rewrite length_drop. simpl. lia.
Qed.

Lemma chunks_nil b : chunks (A:=A) b [] = [].
Proof. done. Qed.

(** Induction along the batches: a property of all sequences follows from
    the empty one and from peeling one batch off the front. *)
Lemma chunks_ind b (P : list A → Prop) :
  (0 < b)%nat →
  P [] →
  (∀ x l, P (drop b (x :: l)) → P (x :: l)) →
  ∀ l, P l.
Proof.
  intros Hb Hnil Hstep l.
  remember (length l) as n eqn:Hn. revert l Hn.
  induction n as [n IH] using lt_wf_ind. intros [|x l] Hn; [done|].
  apply Hstep. eapply IH; [|done]. rewrite length_drop. simpl in *. lia.
Qed.

Lemma chunks_concat b l : (0 < b)%nat → concat (chunks b l) = l.
Proof.
  intros Hb. revert l. apply (chunks_ind b); [done|done|]. intros x l IH.
  rewrite chunks_cons by done. cbn [concat]. rewrite IH. apply take_drop.
Qed.

(** Batch [i] is the slice of [l] that starts at [i * b]. *)
Lemma chunks_lookup b l i :
  (0 < b)%nat → (i < length (chunks b l))%nat →
  chunks b l !! i = Some (take b (drop (i * b) l)).
Proof.
  intros Hb. revert i. pattern l. revert l. apply (chunks_ind b); [done| |].
  { intros i. rewrite chunks_nil. simpl. lia. }
  intros x l IH i. rewrite chunks_cons by done. destruct i as [|i].
  - done.
  - cbn [length lookup list_lookup]. intros Hi.
    rewrite IH by lia. by rewrite drop_drop.
Qed.

(** The number of batches is the ceiling of [n / b]. *)
Lemma chunks_length b l :
  (0 < b)%nat → length (chunks b l) = ((length l + b - 1) / b)%nat.
Proof.
  intros Hb. revert l. apply (chunks_ind b); [done| |].
  { rewrite chunks_nil. simpl. symmetry. apply Nat.div_small. lia. }
  intros x l IH. rewrite chunks_cons by done. cbn [length]. rewrite IH.
  rewrite length_drop. cbn [length].
  destruct (decide (S (length l) ≤ b)%nat) as [Hle|Hgt].
  - replace (S (length l) - b)%nat with 0%nat by lia.
    rewrite (Nat.div_small (0 + b - 1)) by lia.
    apply (Nat.div_unique _ _ 1 (length l)); lia.
  - replace (S (length l) + b - 1)%nat
      with ((S (length l) - b + b - 1) + 1 * b)%nat by lia.
    rewrite Nat.div_add by lia. lia.
Qed.
End ChunksFacts.

Lemma ceil_div_spec n b : 0 < b → (ceil_div n b - 1) * b < n ≤ ceil_div n b * b.
Proof.
  intros Hb. unfold ceil_div.
  pose proof (Z.div_mod (n + b - 1) b ltac:(lia)) as Hdm.
  pose proof (Z.mod_pos_bound (n + b - 1) b Hb) as Hm. nia.
Qed.

Section ChunksSizes.
Context {A : Type}.
Implicit Types (l : list A) (b i : nat).

Lemma chunks_length_Z b l :
  (0 < b)%nat →
  Z.of_nat (length (chunks b l)) = ceil_div (Z.of_nat (length l)) (Z.of_nat b).
Proof.
  intros Hb. rewrite chunks_length by done. unfold ceil_div.
  rewrite Nat2Z.inj_div. f_equal. lia.
Qed.

Lemma chunks_lookup_Some b l i batch :
  (0 < b)%nat → chunks b l !! i = Some batch →
  batch = take b (drop (i * b) l).
Proof.
  intros Hb Hi. pose proof (lookup_lt_Some _ _ _ Hi) as Hlt.
  rewrite chunks_lookup in Hi by done. congruence.
Qed.

Lemma chunks_size_inner b l i batch :
  (0 < b)%nat → chunks b l !! i = Some batch →
  (S i < length (chunks b l))%nat → length batch = b.
Proof.
  intros Hb Hi Hlt. rewrite (chunks_lookup_Some b l i batch) by done.
  rewrite length_take, length_drop.
  pose proof (chunks_length_Z b l Hb) as Hlen.
  pose proof (ceil_div_spec (Z.of_nat (length l)) (Z.of_nat b) ltac:(lia)). nia.
Qed.

Lemma chunks_size_last b l batch :
  (0 < b)%nat → last (chunks b l) = Some batch →
  Z.of_nat (length batch) = last_batch_size (Z.of_nat (length l)) (Z.of_nat b).
Proof.
  intros Hb Hlast. rewrite last_lookup in Hlast.
  pose proof (lookup_lt_Some _ _ _ Hlast) as Hlt.
  rewrite (chunks_lookup_Some b l _ batch Hb Hlast).
  rewrite length_take, length_drop.
  pose proof (chunks_length_Z b l Hb) as Hlen.
  pose proof (ceil_div_spec (Z.of_nat (length l)) (Z.of_nat b) ltac:(lia)) as [Hlo Hhi].
  set (q := length (chunks b l)) in *.
  set (n := length l) in *.
  rewrite <- Hlen in Hlo, Hhi.
  assert (Hq : (0 < q)%nat) by lia.
  replace (pred q * b)%nat with ((q - 1) * b)%nat by (f_equal; lia).
  assert (Hn : Z.of_nat n = (Z.of_nat q - 1) * Z.of_nat b + Z.of_nat (n - (q - 1) * b)) by nia.
  assert (Hr : 0 < Z.of_nat (n - (q - 1) * b) ≤ Z.of_nat b) by nia.
  unfold last_batch_size.
  destruct (decide (Z.of_nat (n - (q - 1) * b) = Z.of_nat b)) as [Heq|Hne].
  - rewrite decide_True; [lia|].
    rewrite Hn, Heq.
    replace ((Z.of_nat q - 1) * Z.of_nat b + Z.of_nat b) with (Z.of_nat q * Z.of_nat b) by lia.
    apply Z.mod_mul. lia.
  - assert (Hmod : Z.of_nat n mod Z.of_nat b = Z.of_nat (n - (q - 1) * b)).
    { symmetry. apply (Z.mod_unique_pos _ _ (Z.of_nat q - 1)); lia. }
    rewrite decide_False by lia. lia.
Qed.
End ChunksSizes.

(** C5.  For a batch size [b >= 1] and a sequence of [n] elements, [chunkify]
    returns [ceil (n / b)] batches; batch [i] is the slice of the sequence
    that starts at [i * b], so the batches are contiguous and in order; every
    batch but the last has [b] elements, the last has [n mod b], or [b] if
    [b] divides [n]; and the batches put end to end are the sequence. *)
Theorem chunkify_batches {A : Type} (l : list A) (b : Z) :
  1 ≤ b →
  ∃ batches,
    chunkify l b = Returns batches
    ∧ Z.of_nat (length batches) = ceil_div (Z.of_nat (length l)) b
    ∧ concat batches = l
    ∧ (∀ i batch, batches !! i = Some batch →
         batch = take (Z.to_nat b) (drop (i * Z.to_nat b) l))
    ∧ (∀ i batch, batches !! i = Some batch →
         (S i < length batches)%nat → Z.of_nat (length batch) = b)
    ∧ (∀ batch, last batches = Some batch →
         Z.of_nat (length batch) = last_batch_size (Z.of_nat (length l)) b).
Proof.
  intros Hb. assert (Hb' : (0 < Z.to_nat b)%nat) by lia.
  exists (chunks (Z.to_nat b) l). unfold chunkify.
  destruct (Z.ltb_spec b 1) as [?|_]; [lia|].
  split_and!.
  - done.
  - rewrite chunks_length_Z by done. f_equal. lia.
  - by apply chunks_concat.
  - intros i batch. by apply chunks_lookup_Some.
  - intros i batch Hi Hlt. rewrite (chunks_size_inner _ _ _ _ Hb' Hi Hlt). lia.
  - intros batch Hlast. rewrite (chunks_size_last _ _ _ Hb' Hlast). f_equal. lia.
Qed.

Lemma chunkify_batches_witness :
  ∃ batches,
    chunkify [0; 1; 2; 3; 4; 5; 6; 7; 8; 9] 4 = Returns batches
    ∧ Z.of_nat (length batches) = ceil_div 10 4
    ∧ concat batches = [0; 1; 2; 3; 4; 5; 6; 7; 8; 9]
    ∧ (∀ i batch, batches !! i = Some batch →
         batch = take 4 (drop (i * 4) [0; 1; 2; 3; 4; 5; 6; 7; 8; 9]))
    ∧ (∀ i batch, batches !! i = Some batch →
         (S i < length batches)%nat → Z.of_nat (length batch) = 4)
    ∧ (∀ batch, last batches = Some batch →
         Z.of_nat (length batch) = last_batch_size 10 4).
Proof. apply (chunkify_batches [0; 1; 2; 3; 4; 5; 6; 7; 8; 9] 4). lia. Defined.

(** The scenario of the spec: ten pages in batches of four. *)
Example chunkify_10_by_4 :
  chunkify [0; 1; 2; 3; 4; 5; 6; 7; 8; 9] 4
  = Returns [[0; 1; 2; 3]; [4; 5; 6; 7]; [8; 9]].
Proof. reflexivity. Qed.

(** ** The steps of a computation *)

Ltac py_unfold :=
  unfold run, mbind, Py_bind, mret, Py_ret, raise, get_in_doc, get_conv_res,
    modify_conv_res, observe, lift, try_except, try_finally in *.

Lemma run_bind {A B} (m : Py A) (k : A → Py B) w :
  run (m ≫= k) w =
  match run m w with
  | (Returns a, w') => run (k a) w'
  | (Raises e, w') => (Raises e, w')
  end.
Proof. reflexivity. Qed.

Lemma run_try_except {A} (body : Py A) handler w :
  run (try_except body handler) w =
  match run body w with
  | (Returns a, w') => (Returns a, w')
  | (Raises e, w') =>
      if isinstance_Exception e then run (handler e) w' else (Raises e, w')
  end.
Proof. reflexivity. Qed.

Lemma run_try_finally {A} (body : Py A) cleanup w :
  run (try_finally body cleanup) w =
  match run cleanup (run body w).2 with
  | (Returns _, w'') => ((run body w).1, w'')
  | (Raises e, w'') => (Raises e, w'')
  end.
Proof. unfold run, try_finally. by destruct (body w). Qed.

(** ** The guard on the input *)

(** C3.  On an input that fails the validity check, [execute] returns at
    once: the result has status FAILURE, no error item and no page; no phase
    was entered and [unload()] was not called (the record of calls is as it
    was). *)
Theorem execute_invalid_input settings self raises_on_error w :
  InputDocument.valid (in_doc w) = false →
  ∃ cr w',
    run (execute settings self raises_on_error) w = (Returns cr, w')
    ∧ ConversionResult.status cr = FAILURE
    ∧ ConversionResult.errors cr = []
    ∧ ConversionResult.pages cr = []
    ∧ conv_res w' = cr
    ∧ in_doc w' = in_doc w
    ∧ calls w' = calls w.
Proof.
  intros Hvalid. unfold execute. py_unfold. simpl. rewrite Hvalid. simpl.
  by eexists _, _.
Qed.

Lemma execute_invalid_input_witness :
  ∃ cr w',
    run (execute Settings.settings
           (mkBasePipeline [] (raise KeyboardInterrupt) (raise SystemExit)
              (mret SUCCESS)) true)
      (mkWorld (InputDocument.mk "broken.pdf" "0" false 3
                  (Some (mkDocumentBackend "PyPdfiumDocumentBackend" true)))
         ConversionResult.new [])
    = (Returns cr, w')
    ∧ ConversionResult.status cr = FAILURE
    ∧ ConversionResult.errors cr = []
    ∧ ConversionResult.pages cr = []
    ∧ conv_res w' = cr
    ∧ in_doc w' = InputDocument.mk "broken.pdf" "0" false 3
                    (Some (mkDocumentBackend "PyPdfiumDocumentBackend" true))
    ∧ calls w' = [].
Proof.
  apply (execute_invalid_input Settings.settings
           (mkBasePipeline [] (raise KeyboardInterrupt) (raise SystemExit)
              (mret SUCCESS)) true
           (mkWorld (InputDocument.mk "broken.pdf" "0" false 3
                       (Some (mkDocumentBackend "PyPdfiumDocumentBackend" true)))
              ConversionResult.new [])).
  reflexivity.
Defined.

(** ** Faults inside the phases *)

(** C4, as the code has it.  When a phase of [execute] on a valid input
    raises an exception derived from [Exception], the status becomes FAILURE;
    [execute] returns the result if [raises_on_error] is false and raises the
    same exception if it is true.  An exception that is not derived from
    [Exception] passes the guard: it reaches the caller whatever the flag,
    and no result is returned. *)
Theorem execute_fault settings self raises_on_error w e w2 :
  InputDocument.valid (in_doc w) = true →
  run (execute_phases settings self) (fresh w) = (Raises e, w2) →
  run (execute settings self raises_on_error) w
  = (if isinstance_Exception e then
       if raises_on_error then (Raises e, failed w2)
       else (Returns (conv_res (failed w2)), failed w2)
     else (Raises e, w2))
  ∧ ConversionResult.status (conv_res (failed w2)) = FAILURE.
Proof.
  intros Hvalid Hphases. split; [|done].
  unfold execute. rewrite run_bind. cbn [run modify_conv_res].
  rewrite run_bind. cbn [run get_in_doc in_doc]. rewrite Hvalid. cbn [negb].
  rewrite run_bind, run_try_except. fold (fresh w). rewrite Hphases.
  destruct (isinstance_Exception e); [|done].
  by destruct raises_on_error.
Qed.

Lemma execute_fault_witness :
  run (execute Settings.settings (paginated Settings.settings failing_stage) false)
    three_pages
  = (Returns
       (conv_res (failed (run (execute_phases Settings.settings
                                 (paginated Settings.settings failing_stage))
                            (fresh three_pages)).2)),
     failed (run (execute_phases Settings.settings
                    (paginated Settings.settings failing_stage))
               (fresh three_pages)).2)
  ∧ ConversionResult.status
      (conv_res (failed (run (execute_phases Settings.settings
                                (paginated Settings.settings failing_stage))
                           (fresh three_pages)).2)) = FAILURE.
Proof.
  apply (execute_fault Settings.settings
           (paginated Settings.settings failing_stage) false three_pages
           (OtherException "ValueError" "bad page")); reflexivity.
Defined.

(** C4 as written fails: with [raises_on_error] false, an interrupt inside
    the build phase leaves [execute] as an exception, not as a result with
    status FAILURE. *)
Lemma execute_fault_counterexample :
  (run (execute_phases Settings.settings (paginated Settings.settings interrupted))
     (fresh three_pages)).1 = Raises KeyboardInterrupt
  ∧ (run (execute Settings.settings (paginated Settings.settings interrupted) false)
       three_pages).1 = Raises KeyboardInterrupt.
Proof. split; reflexivity. Qed.

(** ** What a computation leaves alone *)

Section Keeps.
Context (R : relation World) `{!PreOrder R}.

Lemma keeps_ret {A} (a : A) : keeps R (mret a).
Proof. intros w r w' [= <- <-]. done. Qed.

Lemma keeps_raise {A} e : keeps R (raise (A:=A) e).
Proof. intros w r w' [= <- <-]. done. Qed.

Lemma keeps_lift {A} (o : outcome A) : keeps R (lift o).
Proof. intros w r w' [= <- <-]. done. Qed.

Lemma keeps_get_in_doc : keeps R get_in_doc.
Proof. intros w r w' [= <- <-]. done. Qed.

Lemma keeps_get_conv_res : keeps R get_conv_res.
Proof. intros w r w' [= <- <-]. done. Qed.

Lemma keeps_bind {A B} (m : Py A) (k : A → Py B) :
  keeps R m → (∀ a, keeps R (k a)) → keeps R (m ≫= k).
Proof.
  intros Hm Hk w r w'. rewrite run_bind.
  destruct (run m w) as [[a|e] w1] eqn:Hrun; intros Hrest.
  - etrans; [by eapply Hm|by eapply Hk].
  - injection Hrest as <- <-. by eapply Hm.
Qed.

Lemma keeps_try_except {A} (body : Py A) handler :
  keeps R body → (∀ e, keeps R (handler e)) → keeps R (try_except body handler).
Proof.
  intros Hb Hh w r w'. rewrite run_try_except.
  destruct (run body w) as [[a|e] w1] eqn:Hrun.
  - intros [= <- <-]. by eapply Hb.
  - destruct (isinstance_Exception e).
    + intros Hrest. etrans; [by eapply Hb|by eapply Hh].
    + intros [= <- <-]. by eapply Hb.
Qed.

Lemma keeps_try_finally {A} (body : Py A) cleanup :
  keeps R body → keeps R cleanup → keeps R (try_finally body cleanup).
Proof.
  intros Hb Hc w r w'. unfold run, try_finally.
  destruct (body w) as [r1 w1] eqn:Hrun.
  destruct (cleanup w1) as [[[]|e] w2] eqn:Hrun2; intros [= <- <-];
    (etrans; [by eapply Hb|by eapply Hc]).
Qed.

Lemma keeps_for_each {A} (xs : list A) body :
  (∀ x, keeps R (body x)) → keeps R (for_each xs body).
Proof.
  intros Hbody. induction xs as [|x xs IH]; simpl.
  - apply keeps_ret.
  - apply keeps_bind; [apply Hbody|]. intros _. apply IH.
Qed.

Lemma keeps_enrich_batches model size rounds :
  (∀ element_batch, keeps R (call_model model element_batch)) →
  ∀ pos, keeps R (enrich_batches model size rounds pos).
Proof.
  intros Hcall. induction rounds as [|rounds IH]; intros pos; cbn [enrich_batches].
  - apply keeps_ret.
  - apply keeps_bind; [apply keeps_get_conv_res|]. intros cr. cbn zeta.
    apply keeps_bind; [apply keeps_lift|]. intros pulled.
    destruct pulled.1 as [|element element_batch].
    + apply keeps_ret.
    + apply keeps_bind; [apply Hcall|]. intros _. apply IH.
Qed.

Lemma keeps_enrich_with settings model :
  (∀ element_batch, keeps R (call_model model element_batch)) →
  keeps R (enrich_with settings model).
Proof.
  intros Hcall. unfold enrich_with.
  apply keeps_bind; [apply keeps_get_conv_res|]. intros cr. cbn zeta.
  destruct (_ <? 1); [apply keeps_raise|by apply keeps_enrich_batches].
Qed.
End Keeps.

Arguments unload_count : simpl never.

Lemma unload_count_app evs1 evs2 :
  unload_count (evs1 ++ evs2) = (unload_count evs1 + unload_count evs2)%nat.
Proof. unfold unload_count. by rewrite filter_app, length_app. Qed.

Global Instance quietly_preorder : PreOrder quietly.
Proof.
  split.
  - intros w. split; [done|]. exists []. by rewrite app_nil_r.
  - intros w1 w2 w3 [Hd1 (evs1 & Hc1 & Hn1)] [Hd2 (evs2 & Hc2 & Hn2)].
    split; [congruence|]. exists (evs1 ++ evs2).
    rewrite Hc2, Hc1, <- app_assoc, unload_count_app. split; [done|lia].
Qed.

Global Instance same_pages_preorder : PreOrder same_pages.
Proof. split; unfold same_pages; [done|intros ???; congruence]. Qed.

Global Instance same_errors_preorder : PreOrder same_errors.
Proof. split; unfold same_errors; [done|intros ???; congruence]. Qed.

Global Instance same_status_preorder : PreOrder same_status.
Proof. split; unfold same_status; [done|intros ???; congruence]. Qed.

Lemma quietly_modify_conv_res f : keeps quietly (modify_conv_res f).
Proof.
  intros w r w' [= <- <-]. split; [done|]. exists []. by rewrite app_nil_r.
Qed.

Lemma quietly_observe ev :
  (∀ cls, ev ≠ CallUnload cls) → keeps quietly (observe ev).
Proof.
  intros Hev w r w' [= <- <-]. split; [done|]. exists [ev]. split; [done|].
  unfold unload_count. rewrite filter_cons_False; [done|].
  intros [cls ->]. by eapply Hev.
Qed.

(** ** The build phase of the paginated pipeline *)

Lemma run_make_pages (l : list Z) w :
  run (for_each l (λ i,
         modify_conv_res (λ cr,
           ConversionResult.with_pages (ConversionResult.pages cr ++ [Page.new i]) cr)))
      w
  = (Returns (),
     {| in_doc := in_doc w;
        conv_res :=
          ConversionResult.with_pages
            (ConversionResult.pages (conv_res w) ++ (Page.new <$> l)) (conv_res w);
        calls := calls w |}).
Proof.
  revert w. induction l as [|i l IH]; intros [doc [st ps es out] evs].
  - cbn. by rewrite app_nil_r.
  - cbn [for_each]. rewrite run_bind. cbn [run modify_conv_res].
    rewrite IH. cbn. by rewrite <- app_assoc.
Qed.

(** The loop over the batches touches the page list and nothing else, and
    does not release the backend; if the stages keep the page indices, so
    does the loop. *)
Lemma build_batches_spec self doc batches : ∀ seen w,
  ∃ r ps evs,
    run (build_batches self doc seen batches) w
    = (r, {| in_doc := in_doc w;
             conv_res := ConversionResult.with_pages ps (conv_res w);
             calls := calls w ++ evs |})
    ∧ unload_count evs = 0%nat
    ∧ (preserves_page_no self →
       Page.page_no <$> ConversionResult.pages (conv_res w)
       = Page.page_no <$> (seen ++ concat batches) →
       Page.page_no <$> ps = Page.page_no <$> (seen ++ concat batches)).
Proof.
  induction batches as [|page_batch rest IH]; intros seen [d [st ps0 es out] evs0].
  - exists (Returns ()), ps0, []. cbn. by rewrite app_nil_r.
  - cbn [build_batches]. rewrite run_bind. cbn [run observe].
    pose proof (λ H : preserves_page_no self, H doc page_batch) as Hkeep.
    destruct (apply_on_pages self doc page_batch) as [pages' fault].
    rewrite run_bind. cbn [run modify_conv_res in_doc conv_res calls].
    destruct fault as [e|].
    + exists (Raises e), (seen ++ pages' ++ concat rest), [DrainPages (Page.page_no <$> page_batch)].
      split_and!; [reflexivity|reflexivity|].
      intros Hpp _. cbn [concat]. rewrite !fmap_app. simpl in Hkeep.
      by rewrite (Hkeep Hpp).
    + edestruct (IH (seen ++ pages')) as (r & ps & evs & -> & Hevs & Hps).
      exists r, ps, (DrainPages (Page.page_no <$> page_batch) :: evs).
      split_and!.
      * cbn [in_doc conv_res calls]. by rewrite <- app_assoc.
      * exact Hevs.
      * intros Hpp _. rewrite Hps; [|done|f_equal; exact (app_assoc _ _ _)].
        cbn [concat]. rewrite !fmap_app. simpl in Hkeep.
        by rewrite (Hkeep Hpp), <- app_assoc.
Qed.

Lemma chunkify_Returns {A} (l : list A) b batches :
  chunkify l b = Returns batches →
  1 ≤ b ∧ batches = chunks (Z.to_nat b) l ∧ concat batches = l.
Proof.
  unfold chunkify. destruct (Z.ltb_spec b 1) as [?|Hb]; [done|].
  intros [= <-]. split_and!; [done|done|]. apply chunks_concat. lia.
Qed.

Lemma chunkify_Raises {A} (l : list A) b e :
  chunkify l b = Raises e → b < 1 ∧ isinstance_Exception e = true.
Proof.
  unfold chunkify. destruct (Z.ltb_spec b 1) as [?|Hb]; [|done].
  by intros [= <-].
Qed.

Lemma page_no_new (l : list Z) : Page.page_no <$> (Page.new <$> l) = l.
Proof. rewrite <- list_fmap_compose. by rewrite list_fmap_id. Qed.

(** The build phase on a PDF backend.  However the drain of the batches
    ends, the world it leaves has the same document handle, a result that
    differs in its page list and perhaps its status, and a record of calls
    that ends with the one call of [unload()].  The status is set, to
    FAILURE, exactly when an exception derived from [Exception] is on its
    way out. *)
Lemma paginated_build_pdf settings self w b :
  InputDocument._backend (in_doc w) = Some b → is_pdf b = true →
  ∃ r st ps evs,
    run (paginated_build_document settings self) w
    = (r, {| in_doc := in_doc w;
             conv_res :=
               ConversionResult.with_status st
                 (ConversionResult.with_pages ps (conv_res w));
             calls := calls w ++ evs ++ [CallUnload (backend_class b)] |})
    ∧ unload_count evs = 0%nat
    ∧ st = match r with
           | Returns _ => ConversionResult.status (conv_res w)
           | Raises e =>
               if isinstance_Exception e then FAILURE
               else ConversionResult.status (conv_res w)
           end
    ∧ (preserves_page_no self →
       Page.page_no <$> ps
       = (Page.page_no <$> ConversionResult.pages (conv_res w))
         ++ range 0 (InputDocument.page_count (in_doc w))).
Proof.
  intros Hb Hpdf. unfold paginated_build_document.
  rewrite run_bind. cbn [run get_in_doc]. rewrite Hb.
  cbn [isinstance_PdfDocumentBackend]. rewrite Hpdf. cbn [negb].
  rewrite run_bind. unfold make_pages. rewrite run_make_pages.
  set (w1 := {| in_doc := in_doc w; conv_res := _; calls := calls w |}).
  rewrite run_try_finally, run_try_except, run_bind. cbn [run get_conv_res].
  rewrite run_bind. cbn [run lift].
  destruct (chunkify _ _) as [batches|e] eqn:Hchunk.
  - apply chunkify_Returns in Hchunk as (_ & _ & Hconcat).
    destruct (build_batches_spec self (in_doc w) batches [] w1)
      as (r & ps & evs & Hrun & Hevs & Hps).
    rewrite Hrun. subst w1. destruct r as [[]|e].
    + exists (Returns ()), (ConversionResult.status (conv_res w)), ps, evs.
      destruct w as [d [st ps0 es out] evs0]. cbn.
      rewrite <- app_assoc. split_and!; [done..|].
      intros Hpp. rewrite Hps; [|done|by rewrite Hconcat].
      rewrite Hconcat. cbn. by rewrite fmap_app, page_no_new.
    + exists (Raises e),
        (if isinstance_Exception e then FAILURE
         else ConversionResult.status (conv_res w)), ps, evs.
      destruct w as [d [st ps0 es out] evs0].
      destruct (isinstance_Exception e); py_unfold; cbn;
        rewrite <- app_assoc; (split_and!; [done..|]);
        intros Hpp; (rewrite Hps; [|done|by rewrite Hconcat]);
        rewrite Hconcat; cbn; by rewrite fmap_app, page_no_new.
  - apply chunkify_Raises in Hchunk as [_ He]. rewrite He. subst w1.
    exists (Raises e), FAILURE,
      (ConversionResult.pages (conv_res w)
       ++ (Page.new <$> range 0 (InputDocument.page_count (in_doc w)))), [].
    destruct w as [d [st ps0 es out] evs0]. py_unfold. cbn.
    split_and!; [done|done|by rewrite He|].
    intros _. by rewrite fmap_app, page_no_new.
Qed.

(** ** The phases that follow the build *)

Ltac keeps_step :=
  first
    [ apply keeps_ret; exact _ | apply keeps_raise; exact _
    | apply keeps_lift; exact _
    | apply keeps_get_in_doc; exact _ | apply keeps_get_conv_res; exact _
    | apply quietly_modify_conv_res
    | apply quietly_observe; intros ?; discriminate
    | apply keeps_for_each; [exact _|intros ?]
    | apply keeps_try_except; [exact _| |intros ?]
    | apply keeps_bind; [exact _| |intros ?] ].

Lemma quietly_drain_model model element_batch :
  keeps quietly (drain_model model element_batch).
Proof.
  intros w r w'. unfold run, drain_model.
  destruct (call model _ _) as [r1 doc']. intros [= <- <-].
  split; [done|]. exists []. by rewrite app_nil_r.
Qed.

Lemma quietly_enrich_document settings self :
  keeps quietly (_enrich_document settings self).
Proof.
  unfold _enrich_document. apply keeps_for_each; [exact _|intros model].
  apply keeps_enrich_with; [exact _|intros element_batch].
  unfold call_model. repeat keeps_step. apply quietly_drain_model.
Qed.

Lemma quietly_assemble_document self :
  keeps quietly (paginated_assemble_document self).
Proof.
  intros w r w'. unfold run, paginated_assemble_document.
  destruct (assemble_document self _ _) as [r1 cr]. intros [= <- <-].
  split; [done|]. exists []. by rewrite app_nil_r.
Qed.

Lemma quietly_status_loop pages : ∀ status, keeps quietly (status_loop pages status).
Proof.
  induction pages as [|page rest IH]; intros status; cbn [status_loop].
  - keeps_step.
  - destruct (Page._backend page) as [b|]; [|keeps_step].
    destruct (negb (is_valid b)); [|apply IH].
    unfold append_error. repeat keeps_step. apply IH.
Qed.

Lemma quietly_determine_status : keeps quietly paginated_determine_status.
Proof.
  unfold paginated_determine_status. repeat keeps_step. apply quietly_status_loop.
Qed.

(** The phases of [execute] after the build, for a paginated pipeline. *)
Lemma quietly_after_build settings self :
  keeps quietly
    (observe EnterAssemble ;; paginated_assemble_document self ;;
     observe EnterEnrich ;; _enrich_document settings (paginated settings self) ;;
     observe EnterStatus ;; status ← paginated_determine_status;
     modify_conv_res (ConversionResult.with_status status)).
Proof.
  repeat first
    [ apply quietly_assemble_document | apply quietly_enrich_document
    | apply quietly_determine_status | keeps_step ].
Qed.

(** Counting over a record of calls written out. *)
Ltac count_unloads :=
  rewrite ?unload_count_app;
  repeat match goal with
         | |- context [unload_count [?ev]] =>
             let n := eval cbv in (unload_count [ev]) in
             change (unload_count [ev]) with n
         end.

Lemma unload_count_snoc_unload evs cls :
  unload_count (evs ++ [CallUnload cls]) = S (unload_count evs).
Proof.
  rewrite unload_count_app.
  change (unload_count [CallUnload cls]) with 1%nat. lia.
Qed.

(** The phases of [execute] on a PDF backend: one call of [unload()],
    however they end. *)
Lemma execute_phases_pdf settings self w b :
  InputDocument._backend (in_doc w) = Some b → is_pdf b = true →
  ∃ r w',
    run (execute_phases settings (paginated settings self)) w = (r, w')
    ∧ in_doc w' = in_doc w
    ∧ unload_count (calls w') = S (unload_count (calls w)).
Proof.
  intros Hb Hpdf. unfold execute_phases. rewrite run_bind. cbn [run observe].
  rewrite run_bind. cbn [_build_document paginated].
  set (w1 := {| in_doc := in_doc w; conv_res := conv_res w;
                calls := calls w ++ [EnterBuild] |}).
  destruct (paginated_build_pdf settings self w1 b Hb Hpdf)
    as (r & st & ps & evs & -> & Hevs & _ & _).
  assert (Hcount : unload_count (calls w1 ++ evs ++ [CallUnload (backend_class b)])
                   = S (unload_count (calls w))).
  { rewrite app_assoc, unload_count_snoc_unload. subst w1. cbn [calls].
    count_unloads. rewrite Hevs. lia. }
  destruct r as [[]|e]; [|by eexists _, _].
  cbn [_assemble_document _determine_status paginated].
  match goal with |- context [run ?m ?w2] =>
    destruct (run m w2) as [r' w'] eqn:Hrest end.
  apply quietly_after_build in Hrest as [Hdoc (evs' & Hcalls & Hevs')].
  exists r', w'. split_and!; [done|by rewrite Hdoc|].
  cbn [calls] in Hcalls. rewrite Hcalls, unload_count_app, Hcount, Hevs'. lia.
Qed.

(** ** The release of the backend *)

(** C2, as the code has it.  [execute] calls [unload()] exactly once when
    the input is valid and its backend is a PDF backend, whatever the stages
    do and however the phases end; it does not call it when the input is
    invalid, nor when the backend is not a PDF backend (the build raises
    before its cleanup block).  The document handle is the same throughout. *)
Theorem execute_unload_count settings self raises_on_error w :
  let w' := (run (execute settings (paginated settings self) raises_on_error) w).2 in
  in_doc w' = in_doc w
  ∧ unload_count (calls w')
    = (unload_count (calls w)
       + if InputDocument.valid (in_doc w)
            && isinstance_PdfDocumentBackend (InputDocument._backend (in_doc w))
         then 1 else 0)%nat.
Proof.
  cbn zeta. unfold execute. rewrite run_bind. cbn [run modify_conv_res].
  rewrite run_bind. cbn [run get_in_doc in_doc].
  destruct (InputDocument.valid (in_doc w)) eqn:Hvalid; cbn [negb andb].
  2:{ py_unfold. cbn. split; [done|lia]. }
  rewrite run_bind, run_try_except. fold (fresh w).
  destruct (InputDocument._backend (in_doc w)) as [b|] eqn:Hb;
    [destruct (is_pdf b) eqn:Hpdf|]; cbn [isinstance_PdfDocumentBackend];
    rewrite ?Hpdf.
  - destruct (execute_phases_pdf settings self (fresh w) b Hb Hpdf)
      as (r & w1 & -> & Hdoc & Hcount).
    cbn [fresh in_doc calls] in Hdoc, Hcount.
    destruct r as [[]|e]; [|destruct (isinstance_Exception e), raises_on_error];
      py_unfold; cbn; (split; [done|lia]).
  - unfold execute_phases, paginated, paginated_build_document. py_unfold.
    cbn. rewrite Hb. cbn. rewrite Hpdf. cbn.
    destruct raises_on_error; cbn; count_unloads; (split; [done|lia]).
  - unfold execute_phases, paginated, paginated_build_document. py_unfold.
    cbn. rewrite Hb. cbn.
    destruct raises_on_error; cbn; count_unloads; (split; [done|lia]).
Qed.

(** C2 as written fails: a backend was acquired, the PowerPoint one, and
    [execute] leaves without a call of [unload()]. *)
Lemma execute_unload_counterexample :
  InputDocument._backend (in_doc slides) = Some mspowerpoint_backend
  ∧ unload_count
      (calls (run (execute Settings.settings
                     (paginated Settings.settings plain_pipeline) false) slides).2)
    = 0%nat.
Proof. split; reflexivity. Qed.

(** ** The guard on the backend *)

(** C10.  On a valid input whose backend is not a PDF backend, the build
    phase of the paginated pipeline raises the RuntimeError at once: the world
    is as it was, so no page was made and [unload()] was not called.  With
    [raises_on_error] false, [execute] returns a result with status FAILURE
    and no page; with [raises_on_error] true, it raises that RuntimeError.  In
    both cases the build phase is the only one entered. *)
Theorem execute_not_a_pdf_backend settings self w :
  InputDocument.valid (in_doc w) = true →
  isinstance_PdfDocumentBackend (InputDocument._backend (in_doc w)) = false →
  (∃ msg, not_a_pdf_backend (in_doc w) = RuntimeError msg)
  ∧ run (paginated_build_document settings self) w
    = (Raises (not_a_pdf_backend (in_doc w)), w)
  ∧ (∃ cr w',
       run (execute settings (paginated settings self) false) w = (Returns cr, w')
       ∧ ConversionResult.status cr = FAILURE
       ∧ ConversionResult.pages cr = []
       ∧ calls w' = calls w ++ [EnterBuild])
  ∧ (∃ w',
       run (execute settings (paginated settings self) true) w
       = (Raises (not_a_pdf_backend (in_doc w)), w')
       ∧ ConversionResult.status (conv_res w') = FAILURE
       ∧ ConversionResult.pages (conv_res w') = []
       ∧ calls w' = calls w ++ [EnterBuild]).
Proof.
  intros Hvalid Hpdf.
  assert (Hbuild : ∀ w0, in_doc w0 = in_doc w →
            run (paginated_build_document settings self) w0
            = (Raises (not_a_pdf_backend (in_doc w)), w0)).
  { intros w0 Hw0. unfold paginated_build_document. rewrite run_bind.
    cbn [run get_in_doc]. by rewrite Hw0, Hpdf. }
  split_and!.
  - by eexists.
  - by apply Hbuild.
  - unfold execute. rewrite run_bind. cbn [run modify_conv_res].
    rewrite run_bind. cbn [run get_in_doc in_doc]. rewrite Hvalid. cbn [negb].
    rewrite run_bind, run_try_except. unfold execute_phases.
    rewrite run_bind. cbn [run observe]. rewrite run_bind.
    cbn [_build_document paginated]. rewrite Hbuild by done.
    by eexists _, _.
  - unfold execute. rewrite run_bind. cbn [run modify_conv_res].
    rewrite run_bind. cbn [run get_in_doc in_doc]. rewrite Hvalid. cbn [negb].
    rewrite run_bind, run_try_except. unfold execute_phases.
    rewrite run_bind. cbn [run observe]. rewrite run_bind.
    cbn [_build_document paginated]. rewrite Hbuild by done.
    by eexists.
Qed.

Lemma execute_not_a_pdf_backend_witness :
  (∃ msg, not_a_pdf_backend (in_doc slides) = RuntimeError msg)
  ∧ run (paginated_build_document Settings.settings plain_pipeline) slides
    = (Raises (not_a_pdf_backend (in_doc slides)), slides)
  ∧ (∃ cr w',
       run (execute Settings.settings (paginated Settings.settings plain_pipeline) false)
         slides = (Returns cr, w')
       ∧ ConversionResult.status cr = FAILURE
       ∧ ConversionResult.pages cr = []
       ∧ calls w' = calls slides ++ [EnterBuild])
  ∧ (∃ w',
       run (execute Settings.settings (paginated Settings.settings plain_pipeline) true)
         slides = (Raises (not_a_pdf_backend (in_doc slides)), w')
       ∧ ConversionResult.status (conv_res w') = FAILURE
       ∧ ConversionResult.pages (conv_res w') = []
       ∧ calls w' = calls slides ++ [EnterBuild]).
Proof.
  apply (execute_not_a_pdf_backend Settings.settings plain_pipeline slides);
    reflexivity.
Defined.

(** ** The status resolver *)

Lemma list_ascii_of_string_app (s1 s2 : string) :
  String.list_ascii_of_string (s1 +:+ s2)
  = String.list_ascii_of_string s1 ++ String.list_ascii_of_string s2.
Proof. induction s1 as [|c s1 IH]; simpl; [done|by f_equal]. Qed.

Lemma string_app_inv_tail (s1 s2 t : string) : s1 +:+ t = s2 +:+ t → s1 = s2.
Proof.
  intros H. apply (f_equal String.list_ascii_of_string) in H.
  rewrite !list_ascii_of_string_app in H. apply app_inv_tail in H.
  apply (f_equal String.string_of_list_ascii) in H.
  by rewrite !String.string_of_list_ascii_of_string in H.
Qed.

(** The message tells the page: two pages with the same message have the
    same index. *)
Lemma page_message_inj i j : page_message i = page_message j → i = j.
Proof.
  unfold page_message. intros H. apply String.app_inj in H.
  apply string_app_inv_tail in H. by apply pretty_Z_inj in H.
Qed.

Lemma status_loop_spec pages : ∀ status w,
  Forall (λ page, is_Some (Page._backend page)) pages →
  ∃ errs,
    run (status_loop pages status) w
    = (Returns (if decide (filter (λ page, reports_invalid page) pages = [])
                then status else PARTIAL_SUCCESS),
       {| in_doc := in_doc w;
          conv_res :=
            ConversionResult.with_errors
              (ConversionResult.errors (conv_res w) ++ errs) (conv_res w);
          calls := calls w |})
    ∧ Forall2 names_page (filter (λ page, reports_invalid page) pages) errs.
Proof.
  induction pages as [|page rest IH]; intros status [d [st ps es out] evs] Hall.
  - exists []. cbn. rewrite app_nil_r. by split.
  - apply Forall_cons in Hall as [[b Hb] Hall]. cbn [status_loop]. rewrite Hb.
    destruct (is_valid b) eqn:Hvalid; cbn [negb].
    + rewrite filter_cons_False by (unfold reports_invalid; rewrite Hb, Hvalid; auto).
      apply IH, Hall.
    + rewrite filter_cons_True by (unfold reports_invalid; by rewrite Hb, Hvalid).
      rewrite run_bind. cbn [run append_error modify_conv_res].
      edestruct (IH PARTIAL_SUCCESS) as (errs & -> & Herrs); [exact Hall|].
      exists (page_error page b :: errs). cbn. rewrite <- app_assoc. split.
      * f_equal. by destruct (decide _).
      * constructor; [|done]. split_and!; [done..|]. by exists b.
Qed.

Lemma resolved_status_resolves pages errs :
  Forall2 names_page (filter (λ page, reports_invalid page) pages) errs →
  resolves pages (resolved_status pages) errs.
Proof.
  intros Herrs. unfold resolves, resolved_status. split_and!; [done| |].
  - intros Hnil. rewrite decide_True by done. rewrite Hnil in Herrs.
    by apply Forall2_nil_inv_l in Herrs.
  - intros k Hk Hpos. apply Forall2_length in Herrs.
    rewrite decide_False; [split; [done|lia]|].
    intros Hnil. rewrite Hnil in Hk. simpl in Hk. lia.
Qed.

(** The resolver returns only if every page has a backend. *)
Lemma status_loop_Returns pages : ∀ status w s w',
  run (status_loop pages status) w = (Returns s, w') →
  Forall (λ page, is_Some (Page._backend page)) pages.
Proof.
  induction pages as [|page rest IH]; intros status w s w'; [by constructor|].
  cbn [status_loop]. destruct (Page._backend page) as [b|] eqn:Hb; [|done].
  destruct (negb (is_valid b)).
  - rewrite run_bind. cbn [run append_error modify_conv_res]. intros Hrun.
    constructor; [by eexists|]. by eapply IH.
  - intros Hrun. constructor; [by eexists|]. by eapply IH.
Qed.

Global Instance rest_of_result_preorder : PreOrder rest_of_result.
Proof.
  split.
  - by intros w.
  - intros w1 w2 w3 (? & ? & ?) (? & ? & ?).
    split_and!; etrans; done.
Qed.

Lemma rest_of_result_enrich_document settings self :
  keeps rest_of_result (_enrich_document settings self).
Proof.
  unfold _enrich_document. apply keeps_for_each; [exact _|intros model].
  apply keeps_enrich_with; [exact _|intros element_batch].
  unfold call_model. apply keeps_bind; [exact _| |intros ?].
  - by intros w r w' [= <- <-].
  - intros w r w'. unfold run, drain_model.
    destruct (call _ _ _) as [r1 doc']. by intros [= <- <-].
Qed.

(** The phases of a paginated pipeline that keeps the inherited
    [_assemble_document], when all of them return: the status is the resolved
    one, and the error items are those of the pages that report invalid. *)
Lemma execute_phases_Returns settings self w w' :
  assemble_document self = inherited_assemble_document →
  run (execute_phases settings (paginated settings self)) (fresh w) = (Returns (), w') →
  ConversionResult.status (conv_res w')
  = resolved_status (ConversionResult.pages (conv_res w'))
  ∧ Forall2 names_page
      (filter (λ page, reports_invalid page) (ConversionResult.pages (conv_res w')))
      (ConversionResult.errors (conv_res w')).
Proof.
  intros Hassemble. unfold execute_phases. rewrite run_bind. cbn [run observe].
  rewrite run_bind. cbn [_build_document paginated fresh in_doc conv_res calls].
  fold (entering_build w).
  destruct (isinstance_PdfDocumentBackend (InputDocument._backend (in_doc w)))
    eqn:Hpdf.
  2:{ unfold paginated_build_document. rewrite run_bind. cbn [run get_in_doc in_doc entering_build].
      by rewrite Hpdf. }
  destruct (InputDocument._backend (in_doc w)) as [b|] eqn:Hb; [|done].
  cbn in Hpdf.
  destruct (paginated_build_pdf settings self (entering_build w) b Hb Hpdf)
    as (r & st & ps & evs & -> & _ & Hst & _).
  destruct r as [[]|e]; [|done]. cbn in Hst. subst st.
  rewrite run_bind. cbn [run observe in_doc conv_res calls].
  rewrite run_bind. cbn [_assemble_document paginated].
  unfold paginated_assemble_document at 1. rewrite Hassemble.
  cbn [run inherited_assemble_document in_doc conv_res calls].
  rewrite run_bind. cbn [run observe in_doc conv_res calls]. rewrite run_bind.
  match goal with |- context [run (_enrich_document ?s ?p) ?w3] =>
    destruct (run (_enrich_document s p) w3) as [[[]|e] w4] eqn:Henrich end;
    [|done].
  apply rest_of_result_enrich_document in Henrich as (Hs4 & Hp4 & He4).
  unfold same_status, same_pages, same_errors in *. cbn in Hs4, Hp4, He4.
  rewrite run_bind. cbn [run observe]. rewrite run_bind.
  cbn [_determine_status paginated]. unfold paginated_determine_status.
  rewrite run_bind. cbn [run get_conv_res conv_res].
  match goal with |- context [run (status_loop ?pages ?s0) ?w5] =>
    destruct (run (status_loop pages s0) w5) as [[s|e] w6] eqn:Hloop end;
    [|done].
  pose proof (status_loop_Returns _ _ _ _ _ Hloop) as Hall.
  match type of Hloop with run (status_loop ?pages ?s0) ?w5 = _ =>
    destruct (status_loop_spec pages s0 w5 Hall) as (errs & Hspec & Herrs) end.
  rewrite Hspec in Hloop. injection Hloop as <- <-.
  cbn [run modify_conv_res]. intros [= <-]. cbn. rewrite He4. cbn.
  split; [done|exact Herrs].
Qed.

Example five_pages_converted :
  (run (execute Settings.settings (paginated Settings.settings loading_pipeline) false)
     five_pages).1
  = Returns
      {| ConversionResult.status := PARTIAL_SUCCESS;
         ConversionResult.pages := initialized <$> (Page.new <$> range 0 5);
         ConversionResult.errors :=
           [ mkErrorItem DOCUMENT_BACKEND "PyPdfiumPageBackend" "Page 1 failed to parse.";
             mkErrorItem DOCUMENT_BACKEND "PyPdfiumPageBackend" "Page 4 failed to parse." ];
         ConversionResult.output := {| name := ""; items := [] |} |}.
Proof. reflexivity. Qed.

(** C1.  The status resolver, on pages that all have a backend, returns
    SUCCESS if no page reports invalid and PARTIAL_SUCCESS otherwise, and
    appends one error item for each page that reports invalid: a
    DOCUMENT_BACKEND item whose message names the page index.  So a
    conversion that [execute] returns with a status other than FAILURE has
    SUCCESS and no error item if every page is valid, and PARTIAL_SUCCESS
    with exactly [k] items if [k >= 1] pages are invalid.  And when the build
    phase has set FAILURE, the result that [execute] returns has FAILURE. *)
Theorem status_resolution settings self :
  (∀ w,
     Forall (λ page, is_Some (Page._backend page))
       (ConversionResult.pages (conv_res w)) →
     ∃ status errs,
       run paginated_determine_status w
       = (Returns status,
          {| in_doc := in_doc w;
             conv_res :=
               ConversionResult.with_errors
                 (ConversionResult.errors (conv_res w) ++ errs) (conv_res w);
             calls := calls w |})
       ∧ resolves (ConversionResult.pages (conv_res w)) status errs)
  ∧ (∀ raises_on_error w cr w',
       assemble_document self = inherited_assemble_document →
       run (execute settings (paginated settings self) raises_on_error) w
       = (Returns cr, w') →
       ConversionResult.status cr ≠ FAILURE →
       resolves (ConversionResult.pages cr) (ConversionResult.status cr)
         (ConversionResult.errors cr))
  ∧ (∀ raises_on_error w cr w',
       run (execute settings (paginated settings self) raises_on_error) w
       = (Returns cr, w') →
       ConversionResult.status
         (conv_res (run (paginated_build_document settings self)
                      (entering_build w)).2) = FAILURE →
       ConversionResult.status cr = FAILURE).
Proof.
  split_and!.
  - intros w Hall. unfold paginated_determine_status.
    destruct (status_loop_spec _ SUCCESS w Hall) as (errs & Hrun & Herrs).
    exists (resolved_status (ConversionResult.pages (conv_res w))), errs.
    split; [|by apply resolved_status_resolves].
    rewrite run_bind. cbn [run get_conv_res]. exact Hrun.
  - intros raises_on_error w cr w' Hassemble. unfold execute.
    rewrite run_bind. cbn [run modify_conv_res].
    rewrite run_bind. cbn [run get_in_doc in_doc].
    destruct (InputDocument.valid (in_doc w)); cbn [negb].
    2:{ py_unfold. cbn. by intros [= <- <-]. }
    rewrite run_bind, run_try_except. fold (fresh w).
    destruct (run (execute_phases _ _) (fresh w)) as [[[]|e] w1] eqn:Hphases.
    + cbn [run get_conv_res]. intros [= <- <-] _.
      destruct (execute_phases_Returns _ _ _ _ Hassemble Hphases) as [-> Herrs].
      by apply resolved_status_resolves.
    + destruct (isinstance_Exception e); [|done].
      destruct raises_on_error; py_unfold; cbn; [done|].
      by intros [= <- <-].
  - intros raises_on_error w cr w'. unfold execute.
    rewrite run_bind. cbn [run modify_conv_res].
    rewrite run_bind. cbn [run get_in_doc in_doc].
    destruct (InputDocument.valid (in_doc w)); cbn [negb].
    { rewrite run_bind, run_try_except. unfold execute_phases.
      rewrite run_bind. cbn [run observe]. rewrite run_bind.
      cbn [_build_document paginated in_doc conv_res calls].
      fold (entering_build w).
      destruct (run (paginated_build_document _ _) _) as [[[]|e] w1] eqn:Hbuild.
      - intros _ Hfailure. exfalso. revert Hbuild Hfailure.
        unfold paginated_build_document. rewrite run_bind.
        cbn [run get_in_doc in_doc entering_build].
        destruct (InputDocument._backend (in_doc w)) as [b|] eqn:Hb; [|done].
        cbn [isinstance_PdfDocumentBackend].
        destruct (is_pdf b) eqn:Hpdf; [|done]. cbn [negb]. intros Hbuild.
        destruct (paginated_build_pdf settings self (entering_build w) b Hb Hpdf)
          as (r & st & ps & evs & Hrun & _ & Hst & _).
        unfold paginated_build_document in Hrun. rewrite run_bind in Hrun.
        cbn [run get_in_doc in_doc entering_build] in Hrun. rewrite Hb in Hrun.
        cbn [isinstance_PdfDocumentBackend] in Hrun. rewrite Hpdf in Hrun.
        cbn [negb] in Hrun. rewrite Hbuild in Hrun. injection Hrun as <- ->.
        cbn in Hst. subst st. cbn. done.
      - cbn [snd]. intros Hrun Hfailure. revert Hrun.
        destruct (isinstance_Exception e) eqn:He.
        + destruct raises_on_error; py_unfold; cbn; [done|].
          by intros [= <- <-].
        + done. }
    py_unfold. cbn. by intros [= <- <-].
Qed.

Lemma status_resolution_witness :
  (∃ status errs,
     run paginated_determine_status five_pages_built
     = (Returns status,
        {| in_doc := in_doc five_pages_built;
           conv_res :=
             ConversionResult.with_errors
               (ConversionResult.errors (conv_res five_pages_built) ++ errs)
               (conv_res five_pages_built);
           calls := calls five_pages_built |})
     ∧ resolves (ConversionResult.pages (conv_res five_pages_built)) status errs)
  ∧ (let cr :=
       conv_res (run (execute Settings.settings
                        (paginated Settings.settings loading_pipeline) false)
                   five_pages).2 in
     resolves (ConversionResult.pages cr) (ConversionResult.status cr)
       (ConversionResult.errors cr))
  ∧ ConversionResult.status
      (conv_res (run (execute Settings.settings
                        (paginated Settings.settings failing_stage) false)
                   three_pages).2) = FAILURE.
Proof.
  split_and!.
  - apply (proj1 (status_resolution Settings.settings loading_pipeline)
             five_pages_built).
    repeat constructor; by eexists.
  - cbv zeta.
    apply (proj1 (proj2 (status_resolution Settings.settings loading_pipeline))
             false five_pages
             (conv_res (run (execute Settings.settings
                               (paginated Settings.settings loading_pipeline) false)
                          five_pages).2)
             (run (execute Settings.settings
                     (paginated Settings.settings loading_pipeline) false)
                five_pages).2).
    + reflexivity.
    + vm_compute. reflexivity.
    + vm_compute. discriminate.
  - apply (proj2 (proj2 (status_resolution Settings.settings failing_stage))
             false three_pages
             (conv_res (run (execute Settings.settings
                               (paginated Settings.settings failing_stage) false)
                          three_pages).2)
             (run (execute Settings.settings
                     (paginated Settings.settings failing_stage) false)
                three_pages).2).
    + vm_compute. reflexivity.
    + vm_compute. reflexivity.
Defined.

(** ** The page records *)

Lemma range_indexed_by_position n pages :
  Page.page_no <$> pages = range 0 n → indexed_by_position n pages.
Proof.
  unfold range. rewrite Z.sub_0_r. intros Hnos. split_and!.
  - rewrite <- (length_fmap Page.page_no), Hnos. apply length_seqZ.
  - intros i page Hi.
    assert (Hno : (Page.page_no <$> pages) !! i = Some (Page.page_no page))
      by (by rewrite list_lookup_fmap, Hi).
    rewrite Hnos in Hno. apply lookup_seqZ in Hno as [-> _]. lia.
  - rewrite Hnos. apply NoDup_seqZ.
Qed.

Lemma same_pages_observe ev : keeps same_pages (observe ev).
Proof. by intros w r w' [= <- <-]. Qed.

Lemma same_pages_modify_conv_res f :
  (∀ cr, ConversionResult.pages (f cr) = ConversionResult.pages cr) →
  keeps same_pages (modify_conv_res f).
Proof. intros Hf w r w' [= <- <-]. apply Hf. Qed.

Lemma same_pages_status_loop pages : ∀ status,
  keeps same_pages (status_loop pages status).
Proof.
  induction pages as [|page rest IH]; intros status; cbn [status_loop].
  - apply keeps_ret; exact _.
  - destruct (Page._backend page) as [b|]; [|apply keeps_raise; exact _].
    destruct (negb (is_valid b)); [|apply IH].
    apply keeps_bind; [exact _| |intros _; apply IH].
    by apply same_pages_modify_conv_res.
Qed.

(** The phases after the build, with the inherited [_assemble_document],
    leave the page list as the build made it. *)
Lemma same_pages_after_build settings self :
  assemble_document self = inherited_assemble_document →
  keeps same_pages
    (observe EnterAssemble ;; paginated_assemble_document self ;;
     observe EnterEnrich ;; _enrich_document settings (paginated settings self) ;;
     observe EnterStatus ;; status ← paginated_determine_status;
     modify_conv_res (ConversionResult.with_status status)).
Proof.
  intros Hassemble.
  assert (Hassemble' : keeps same_pages (paginated_assemble_document self)).
  { intros w r w'. unfold run, paginated_assemble_document.
    rewrite Hassemble. by intros [= <- <-]. }
  assert (Henrich : keeps same_pages
                      (_enrich_document settings (paginated settings self))).
  { intros w r w' Hrun.
    by apply rest_of_result_enrich_document in Hrun as (_ & ? & _). }
  assert (Hstatus : keeps same_pages paginated_determine_status).
  { unfold paginated_determine_status.
    apply keeps_bind; [exact _|apply keeps_get_conv_res; exact _|intros ?].
    apply same_pages_status_loop. }
  repeat first
    [ exact Hassemble' | exact Henrich | exact Hstatus
    | apply same_pages_observe
    | apply same_pages_modify_conv_res; by intros ?
    | apply keeps_bind; [exact _| |intros ?] ].
Qed.

Lemma through_stages_page_no steps : ∀ page,
  Forall step_keeps_page_no steps →
  Page.page_no (through_stages steps page).1 = Page.page_no page.
Proof.
  induction steps as [|step rest IH]; intros page Hsteps; [done|].
  apply Forall_cons in Hsteps as [Hstep Hrest]. cbn [through_stages].
  specialize (Hstep page). destruct (step page) as [page' [e|]]; [done|].
  rewrite IH by done. exact Hstep.
Qed.

Lemma pull_pages_page_no steps : ∀ page_batch,
  Forall step_keeps_page_no steps →
  Page.page_no <$> (pull_pages steps page_batch).1 = Page.page_no <$> page_batch.
Proof.
  induction page_batch as [|page rest IH]; intros Hsteps; [done|].
  cbn [pull_pages]. pose proof (through_stages_page_no steps page Hsteps) as Hpage.
  destruct (through_stages steps page) as [page' [e|]]; cbn in *.
  - by rewrite Hpage.
  - specialize (IH Hsteps). destruct (pull_pages steps rest) as [rest' fault].
    cbn in *. by rewrite Hpage, IH.
Qed.

Lemma generator_pipeline_preserves_page_no initialize_page build_pipe assemble models :
  (∀ doc, step_keeps_page_no (initialize_page doc)) →
  Forall step_keeps_page_no build_pipe →
  preserves_page_no (generator_pipeline initialize_page build_pipe assemble models).
Proof.
  intros Hinit Hpipe doc page_batch. cbn. apply pull_pages_page_no.
  by constructor.
Qed.

Lemma loading_pipeline_preserves_page_no : preserves_page_no loading_pipeline.
Proof. apply generator_pipeline_preserves_page_no; [done|constructor]. Qed.

(** C7.  For a valid document on a PDF backend with [n] pages, the build
    phase makes the page records [Page(page_no=0)] .. [Page(page_no=n-1)], one
    per page and each at the position its index says.  When the stages keep
    the page index of the pages they are given, the pages of the world that
    [execute] leaves carry the indices [0 .. n-1] in this order, whatever the
    batch size, whatever the stages did and however the conversion ended. *)
Theorem page_records settings self raises_on_error w b :
  InputDocument.valid (in_doc w) = true →
  InputDocument._backend (in_doc w) = Some b → is_pdf b = true →
  preserves_page_no self →
  assemble_document self = inherited_assemble_document →
  let n := InputDocument.page_count (in_doc w) in
  let created :=
    ConversionResult.pages
      (conv_res (run (make_pages (in_doc w)) (entering_build w)).2) in
  let final :=
    ConversionResult.pages
      (conv_res (run (execute settings (paginated settings self) raises_on_error) w).2) in
  created = Page.new <$> range 0 n
  ∧ indexed_by_position n created
  ∧ Page.page_no <$> final = range 0 n
  ∧ indexed_by_position n final.
Proof.
  intros Hvalid Hb Hpdf Hkeep Hassemble n created final.
  assert (Hcreated : created = Page.new <$> range 0 n).
  { subst created. unfold make_pages. by rewrite run_make_pages. }
  assert (Hfinal : Page.page_no <$> final = range 0 n).
  { subst final. unfold execute. rewrite run_bind. cbn [run modify_conv_res].
    rewrite run_bind. cbn [run get_in_doc in_doc]. rewrite Hvalid. cbn [negb].
    rewrite run_bind, run_try_except. unfold execute_phases.
    rewrite run_bind. cbn [run observe]. rewrite run_bind.
    cbn [_build_document paginated in_doc conv_res calls].
    fold (entering_build w).
    destruct (paginated_build_pdf settings self (entering_build w) b Hb Hpdf)
      as (r & st & ps & evs & -> & _ & _ & Hps).
    specialize (Hps Hkeep). cbn in Hps. fold n in Hps.
    destruct r as [[]|e].
    - cbn [_assemble_document _determine_status paginated].
      match goal with |- context [run ?m ?w2] =>
        match m with
        | observe EnterAssemble ≫= _ =>
            destruct (run m w2) as [r' w3] eqn:Hrest
        end end.
      apply (same_pages_after_build _ _ Hassemble) in Hrest.
      unfold same_pages in Hrest. cbn in Hrest.
      destruct r' as [[]|e]; [|destruct (isinstance_Exception e), raises_on_error];
        py_unfold; cbn; by rewrite Hrest.
    - destruct (isinstance_Exception e), raises_on_error; py_unfold; cbn; done. }
  split_and!; [done| |done|by apply range_indexed_by_position].
  apply range_indexed_by_position. by rewrite Hcreated, page_no_new.
Qed.

Lemma page_records_witness :
  let n := InputDocument.page_count (in_doc five_pages) in
  let created :=
    ConversionResult.pages
      (conv_res (run (make_pages (in_doc five_pages)) (entering_build five_pages)).2) in
  let final :=
    ConversionResult.pages
      (conv_res (run (execute Settings.settings
                        (paginated Settings.settings loading_pipeline) false)
                   five_pages).2) in
  created = Page.new <$> range 0 n
  ∧ indexed_by_position n created
  ∧ Page.page_no <$> final = range 0 n
  ∧ indexed_by_position n final.
Proof.
  apply (page_records Settings.settings loading_pipeline false five_pages pdfium);
    [reflexivity|reflexivity|reflexivity| |reflexivity].
  apply loading_pipeline_preserves_page_no.
Defined.

(** ** The enrich phase *)

Lemma run_call_model model element_batch w :
  run (call_model model element_batch) w
  = ((call model (ConversionResult.output (conv_res w)) element_batch).1,
     {| in_doc := in_doc w;
        conv_res :=
          ConversionResult.with_output
            (after model (ConversionResult.output (conv_res w)) element_batch)
            (conv_res w);
        calls := calls w ++ [CallModel (model_name model) element_batch] |}).
Proof.
  unfold call_model. rewrite run_bind. cbn [run observe].
  unfold run, drain_model, after. cbn [conv_res in_doc calls].
  by destruct (call _ _ _).
Qed.

Lemma length_items_in_place change doc :
  length (iterate_items (in_place change doc)) = length (iterate_items doc).
Proof. unfold iterate_items, in_place. cbn. apply length_imap. Qed.

Lemma length_items_after model doc element_batch :
  length (iterate_items (after model doc element_batch)) = length (iterate_items doc).
Proof. apply length_items_in_place. Qed.

Lemma filter_elements_of_cons doc model element level rest :
  filter_elements_of doc model ((element, level) :: rest)
  = match is_processable model doc element with
    | Raises e => Raises e
    | Returns yes =>
        match filter_elements_of doc model rest with
        | Raises e => Raises e
        | Returns elements => Returns (if yes then element :: elements else elements)
        end
    end.
Proof. done. Qed.


(** One pull of a batch that returns: it takes the processable elements of a
    stretch of what the traversal has left; it stops at the element that fills
    the batch, and otherwise only at the end of the traversal. *)
Lemma next_batch_Returns model doc : ∀ todo size element_batch rest,
  next_batch model doc todo size = Returns (element_batch, rest) →
  ∃ k,
    (k ≤ length todo)%nat
    ∧ rest = drop k todo
    ∧ filter_elements_of doc model (take k todo) = Returns element_batch
    ∧ (length element_batch ≤ size)%nat
    ∧ ((length element_batch < size)%nat → k = length todo)
    ∧ (size = 0%nat → k = 0%nat)
    ∧ ((0 < size)%nat → length element_batch = size →
       (0 < k)%nat
       ∧ ∃ element level,
           todo !! (k - 1)%nat = Some (element, level)
           ∧ is_processable model doc element = Returns true).
Proof.
  intros todo. induction todo as [|[element level] todo IH];
    intros size element_batch rest Hnext.
  - destruct size; injection Hnext as <- <-; exists 0%nat; cbn;
      split_and!; try done; lia.
  - destruct size as [|size].
    { injection Hnext as <- <-. exists 0%nat. cbn. split_and!; try done; lia. }
    cbn [next_batch] in Hnext.
    destruct (is_processable model doc element) as [[|]|e] eqn:Hproc; [| |done].
    + destruct (next_batch model doc todo size) as [[element_batch' rest']|e] eqn:Hrec;
        [|done].
      injection Hnext as <- <-.
      destruct (IH _ _ _ Hrec) as (k & Hk & -> & Hbatch & Hlen & Hshort & Hzero & Hfull).
      exists (S k). cbn [take drop length].
      rewrite filter_elements_of_cons, Hproc, Hbatch.
      cbn [length]. split_and!; [lia|done|done|lia| |done|].
      * intros Hlt. rewrite Hshort; [done|lia].
      * intros _ Hsize. split; [lia|].
        destruct size as [|size].
        -- rewrite (Hzero eq_refl). cbn. by exists element, level.
        -- destruct Hfull as (Hpos & element' & level' & Hat & Hproc'); [lia|lia|].
           exists element', level'. split; [|done].
           replace (S k - 1)%nat with (S (k - 1)) by lia. done.
    + destruct (IH _ _ _ Hnext) as (k & Hk & -> & Hbatch & Hlen & Hshort & Hzero & Hfull).
      exists (S k). cbn [take drop length].
      rewrite filter_elements_of_cons, Hproc, Hbatch.
      split_and!; [lia|done|done|done| |done|].
      * intros Hlt. rewrite Hshort; [done|lia].
      * intros Hpos Hsize.
        destruct Hfull as (Hk' & element' & level' & Hat & Hproc'); [lia|done|].
        split; [lia|]. exists element', level'. split; [|done].
        replace (S k - 1)%nat with (S (k - 1)) by lia. done.
Qed.

(** One pull of a batch that raises: the predicate raised on an element that
    the pull reached before the batch was full. *)
Lemma next_batch_Raises model doc e : ∀ todo size,
  next_batch model doc todo size = Raises e →
  ∃ k taken element level,
    filter_elements_of doc model (take k todo) = Returns taken
    ∧ (length taken < size)%nat
    ∧ todo !! k = Some (element, level)
    ∧ is_processable model doc element = Raises e.
Proof.
  intros todo. induction todo as [|[element level] todo IH]; intros size Hnext.
  - by destruct size.
  - destruct size as [|size]; [done|].
    cbn [next_batch] in Hnext.
    destruct (is_processable model doc element) as [[|]|e'] eqn:Hproc.
    + destruct (next_batch model doc todo size) as [[element_batch' rest']|e'] eqn:Hrec;
        [done|].
      injection Hnext as ->.
      destruct (IH _ Hrec) as (k & taken & element' & level' & Htaken & Hlen & Hat & Hraise).
      exists (S k), (element :: taken), element', level'.
      cbn [take]. rewrite filter_elements_of_cons, Hproc, Htaken.
      cbn [length]. split_and!; [done|lia|done|done].
    + destruct (IH _ Hnext) as (k & taken & element' & level' & Htaken & Hlen & Hat & Hraise).
      exists (S k), taken, element', level'.
      cbn [take]. rewrite filter_elements_of_cons, Hproc, Htaken.
      by split_and!.
    + injection Hnext as ->.
      exists 0%nat, [], element, level. cbn. split_and!; [done|lia|done|done].
Qed.

(** The loop over the batches of a model, whatever the model does: the
    batches are those of the lazy traversal, the calls are on record one per
    batch, and the document is as the calls left it. *)
Lemma run_enrich_batches model size :
  (0 < size)%nat →
  ∀ rounds pos w,
    (length (iterate_items (ConversionResult.output (conv_res w))) - pos ≤ rounds)%nat →
    ∃ batches,
      model_rounds model size (ConversionResult.output (conv_res w)) pos batches
        (run (enrich_batches model size rounds pos) w).1
      ∧ (run (enrich_batches model size rounds pos) w).2
        = {| in_doc := in_doc w;
             conv_res :=
               ConversionResult.with_output
                 (enriched_by model batches (ConversionResult.output (conv_res w)))
                 (conv_res w);
             calls := calls w ++ (CallModel (model_name model) <$> batches) |}.
Proof.
  intros Hsize rounds.
  assert (∀ w : World,
            w = {| in_doc := in_doc w;
                   conv_res :=
                     ConversionResult.with_output
                       (enriched_by model [] (ConversionResult.output (conv_res w)))
                       (conv_res w);
                   calls := calls w ++ (CallModel (model_name model) <$> []) |})
    as Hsame.
  { intros [d [st ps es out] evs]. cbn. by rewrite app_nil_r. }
  induction rounds as [|rounds IH]; intros pos w Hrounds.
  - exists []. cbn. split; [|apply Hsame].
    left. split; [done|]. rewrite drop_ge by lia. done.
  - cbn [enrich_batches]. rewrite run_bind. cbn [run get_conv_res]. cbn zeta.
    set (doc := ConversionResult.output (conv_res w)) in *.
    rewrite run_bind. cbn [run lift].
    destruct (next_batch model doc (drop pos (iterate_items doc)) size)
      as [[element_batch rest]|e] eqn:Hnext.
    2:{ exists []. cbn [fst snd]. split; [|apply Hsame].
        right. exists e. split; [done|].
        destruct (next_batch_Raises _ _ _ _ _ Hnext)
          as (k & taken & element & level & Htaken & Hlen & Hat & Hraise).
        exists (pos + k)%nat, taken, element, level.
        replace (pos + k - pos)%nat with k by lia.
        rewrite lookup_drop in Hat. split_and!; [lia|done|done|done|done]. }
    destruct (next_batch_Returns _ _ _ _ _ _ Hnext)
      as (k & Hk & -> & Hbatch & Hlen & Hshort & _ & Hfull).
    rewrite length_drop in Hk, Hshort. cbn [fst snd].
    destruct element_batch as [|element element_batch].
    { exists []. cbn [fst snd]. split; [|apply Hsame].
      left. split; [done|]. rewrite Hshort in Hbatch by (cbn; lia).
      rewrite <- length_drop, firstn_all in Hbatch. done. }
    assert (0 < k)%nat as Hkpos.
    { destruct k; [|lia]. by rewrite take_0 in Hbatch. }
    assert (batch_at model size doc pos (pos + k) (element :: element_batch)) as Hat.
    { unfold batch_at. replace (pos + k - pos)%nat with k by lia.
      split_and!; [lia|lia|done|done|].
      destruct (decide (length (element :: element_batch) = size)) as [Heq|Hne].
      - left. split; [done|].
        destruct (Hfull Hsize Heq) as (_ & element' & level' & Hlookup & Hproc).
        exists element', level'. split; [|done].
        rewrite lookup_drop in Hlookup.
        replace (pos + k - 1)%nat with (pos + (k - 1))%nat by lia. done.
      - right. split; [lia|]. rewrite Hshort by lia. lia. }
    rewrite run_bind, run_call_model. fold doc.
    rewrite !length_drop.
    replace (length (iterate_items doc) - (length (iterate_items doc) - pos - k))%nat
      with (pos + k)%nat by lia.
    destruct (call model doc (element :: element_batch)) as [r1 change] eqn:Hcall.
    destruct r1 as [[]|e]; cbn [fst snd].
    + set (w1 := {| in_doc := in_doc w |}).
      destruct (IH (pos + k)%nat w1) as (later & Hrounds' & Hworld).
      { subst w1. unfold ConversionResult.with_output.
        cbn [conv_res ConversionResult.output]. rewrite length_items_after. lia. }
      exists ((element :: element_batch) :: later). split.
      * cbn [model_rounds]. exists (pos + k)%nat. split; [done|].
        rewrite Hcall. cbn [fst]. exact Hrounds'.
      * rewrite Hworld. subst w1. cbn. fold doc.
        destruct (conv_res w). cbn. f_equal. by rewrite <- app_assoc.
    + exists [element :: element_batch]. split.
      * cbn [model_rounds]. exists (pos + k)%nat. split; [done|].
        by rewrite Hcall.
      * cbn. done.
Qed.

Lemma run_enrich_with settings model w :
  1 ≤ Settings.elements_batch_size (Settings.perf settings) →
  ∃ batches,
    model_rounds model
      (Z.to_nat (Settings.elements_batch_size (Settings.perf settings)))
      (ConversionResult.output (conv_res w)) 0 batches
      (run (enrich_with settings model) w).1
    ∧ (run (enrich_with settings model) w).2
      = {| in_doc := in_doc w;
           conv_res :=
             ConversionResult.with_output
               (enriched_by model batches (ConversionResult.output (conv_res w)))
               (conv_res w);
           calls := calls w ++ (CallModel (model_name model) <$> batches) |}.
Proof.
  intros Hb. unfold enrich_with. rewrite run_bind. cbn [run get_conv_res]. cbn zeta.
  destruct (Z.ltb_spec (Settings.elements_batch_size (Settings.perf settings)) 1);
    [lia|].
  apply run_enrich_batches; lia.
Qed.

Lemma pipe_calls_cons model rest batches plan :
  pipe_calls (model :: rest) (batches :: plan)
  = (CallModel (model_name model) <$> batches) ++ pipe_calls rest plan.
Proof. done. Qed.

Lemma enriched_by_pipe_cons model rest batches plan doc :
  enriched_by_pipe (model :: rest) (batches :: plan) doc
  = enriched_by_pipe rest plan (enriched_by model batches doc).
Proof. done. Qed.

(** The enrich phase, whatever the models do. *)
Lemma run_enrich_pipe settings pipe : ∀ w,
  1 ≤ Settings.elements_batch_size (Settings.perf settings) →
  ∃ plan,
    pipe_rounds (Z.to_nat (Settings.elements_batch_size (Settings.perf settings)))
      pipe (ConversionResult.output (conv_res w)) plan
      (run (for_each pipe (enrich_with settings)) w).1
    ∧ (length plan ≤ length pipe)%nat
    ∧ ((run (for_each pipe (enrich_with settings)) w).1 = Returns () →
       length plan = length pipe)
    ∧ (run (for_each pipe (enrich_with settings)) w).2
      = {| in_doc := in_doc w;
           conv_res :=
             ConversionResult.with_output
               (enriched_by_pipe pipe plan (ConversionResult.output (conv_res w)))
               (conv_res w);
           calls := calls w ++ pipe_calls pipe plan |}.
Proof.
  intros w Hb. induction pipe as [|model rest IH] in w |- *.
  - exists []. cbn. split_and!; [done|done|done|].
    destruct w as [d [st ps es out] evs]. cbn. by rewrite app_nil_r.
  - cbn [for_each]. rewrite run_bind.
    destruct (run_enrich_with settings model w Hb) as (batches & Hrounds & Hworld).
    destruct (run (enrich_with settings model) w) as [[[]|e] w1];
      cbn [fst snd] in Hrounds, Hworld; subst w1.
    + set (w1 := {| in_doc := in_doc w |}).
      destruct (IH w1) as (plan & Hplan & Hlen & Hall & Hworld).
      exists (batches :: plan). split_and!.
      * cbn [pipe_rounds]. exists (Returns ()). split; [done|]. exact Hplan.
      * cbn [length]. lia.
      * intros Hr. cbn [length]. by rewrite Hall.
      * rewrite Hworld. subst w1. unfold ConversionResult.with_output.
        cbn [in_doc conv_res calls ConversionResult.status ConversionResult.pages
             ConversionResult.errors ConversionResult.output].
        rewrite pipe_calls_cons, enriched_by_pipe_cons, <- app_assoc. done.
    + exists [batches]. split_and!.
      * cbn [pipe_rounds]. exists (Raises e). by split.
      * cbn [length]. lia.
      * done.
      * cbn [fst snd]. rewrite pipe_calls_cons. unfold pipe_calls at 1.
        destruct rest; cbn [zip_with concat]; by rewrite app_nil_r.
Qed.













(** The scenario of the spec, run: 40 enrichable elements in batches of 16. *)
Example enrich_40_by_16 :
  batch_sizes
    (calls (run (_enrich_document Settings.settings picture_pipeline) assembled).2)
  = [16; 16; 8]%nat.
Proof. vm_compute. reflexivity. Qed.

(** The traversal is lazy: a model that, called on the first batch, marks
    every picture of the document is called once, on 16 of the 40 pictures
    that the document had; the pull of the second batch finds none left. *)
Example enrich_marked_by_first_call :
  (∃ elements,
     _filter_elements sample_document picture_marker = Returns elements
     ∧ length elements = 40%nat)
  ∧ batch_sizes
      (calls (run (_enrich_document Settings.settings marking_pipeline) assembled).2)
    = [16]%nat.
Proof.
  split; [eexists; split; [vm_compute; reflexivity|reflexivity]|].
  vm_compute. reflexivity.
Qed.

(** ** The batching options *)

(** C8, as the code has it.  The five batching options are integers with
    defaults [doc_batch_size = 2], [doc_batch_concurrency = 2],
    [page_batch_size = 4], [page_batch_concurrency = 2] and
    [elements_batch_size = 16], and these are the values of the module-level
    [settings].  The class sets no lower bound: whatever integers are given,
    zero and negative ones too, the constructor returns settings that hold
    them.  Whatever pydantic converts to an integer, the constructor returns
    exactly when every value given is an integer or is converted to one, and
    the settings hold these integers, of whatever sign; otherwise it raises
    a [ValidationError], and then some value given is no integer and is not
    converted to one. *)
Theorem batch_settings (lax_int : string → option Z) :
  Settings.new lax_int Settings.no_kwargs = Returns (Settings.mkPerf 2 2 4 2 16)
  ∧ Settings.perf Settings.settings = Settings.mkPerf 2 2 4 2 16
  ∧ (Settings.doc_batch_size (Settings.perf Settings.settings) = 2
     ∧ Settings.doc_batch_concurrency (Settings.perf Settings.settings) = 2
     ∧ Settings.page_batch_size (Settings.perf Settings.settings) = 4
     ∧ Settings.page_batch_concurrency (Settings.perf Settings.settings) = 2
     ∧ Settings.elements_batch_size (Settings.perf Settings.settings) = 16)
  ∧ (∀ a b c d e : Z,
       Settings.new lax_int
         (Settings.mkKwargs (Some (Settings.PyInt a)) (Some (Settings.PyInt b))
            (Some (Settings.PyInt c)) (Some (Settings.PyInt d))
            (Some (Settings.PyInt e)))
       = Returns (Settings.mkPerf a b c d e))
  ∧ (∀ kw perf,
       Settings.new lax_int kw = Returns perf
       ↔ Settings.int_field lax_int 2 (Settings.kw_doc_batch_size kw)
         = Some (Settings.doc_batch_size perf)
         ∧ Settings.int_field lax_int 2 (Settings.kw_doc_batch_concurrency kw)
           = Some (Settings.doc_batch_concurrency perf)
         ∧ Settings.int_field lax_int 4 (Settings.kw_page_batch_size kw)
           = Some (Settings.page_batch_size perf)
         ∧ Settings.int_field lax_int 2 (Settings.kw_page_batch_concurrency kw)
           = Some (Settings.page_batch_concurrency perf)
         ∧ Settings.int_field lax_int 16 (Settings.kw_elements_batch_size kw)
           = Some (Settings.elements_batch_size perf))
  ∧ (∀ kw e,
       Settings.new lax_int kw = Raises e →
       (∃ msg, e = ValidationError msg)
       ∧ ∃ arg repr,
           arg ∈ [Settings.kw_doc_batch_size kw;
                  Settings.kw_doc_batch_concurrency kw;
                  Settings.kw_page_batch_size kw;
                  Settings.kw_page_batch_concurrency kw;
                  Settings.kw_elements_batch_size kw]
           ∧ arg = Some (Settings.PyNotInt repr)
           ∧ lax_int repr = None).
Proof.
  split_and!; try reflexivity.
  - intros [a b c d e] [a' b' c' d' e']. unfold Settings.new. cbn.
    destruct (Settings.int_field lax_int 2 a) as [za|];
      destruct (Settings.int_field lax_int 2 b) as [zb|];
      destruct (Settings.int_field lax_int 4 c) as [zc|];
      destruct (Settings.int_field lax_int 2 d) as [zd|];
      destruct (Settings.int_field lax_int 16 e) as [ze|];
      split; try (intros [=]; by subst); try (by intros (? & ? & ? & ? & ?));
      intros ([= ->] & [= ->] & [= ->] & [= ->] & [= ->]); done.
  - intros [a b c d e] exc. unfold Settings.new. cbn.
    assert (Hfield : ∀ default (x : option Settings.pyvalue),
              Settings.int_field lax_int default x = None →
              ∃ repr, x = Some (Settings.PyNotInt repr) ∧ lax_int repr = None).
    { intros default [[z|repr]|]; cbn; [done| |done]. by exists repr. }
    destruct (Settings.int_field lax_int 2 a) as [za|] eqn:Ha;
      [|intros [= <-]; split; [by eexists|];
        destruct (Hfield _ _ Ha) as (repr & -> & Hrepr);
        exists (Some (Settings.PyNotInt repr)), repr; split_and!; [|done|done];
        rewrite !elem_of_cons; eauto 10].
    destruct (Settings.int_field lax_int 2 b) as [zb|] eqn:Hb;
      [|intros [= <-]; split; [by eexists|];
        destruct (Hfield _ _ Hb) as (repr & -> & Hrepr);
        exists (Some (Settings.PyNotInt repr)), repr; split_and!; [|done|done];
        rewrite !elem_of_cons; eauto 10].
    destruct (Settings.int_field lax_int 4 c) as [zc|] eqn:Hc;
      [|intros [= <-]; split; [by eexists|];
        destruct (Hfield _ _ Hc) as (repr & -> & Hrepr);
        exists (Some (Settings.PyNotInt repr)), repr; split_and!; [|done|done];
        rewrite !elem_of_cons; eauto 10].
    destruct (Settings.int_field lax_int 2 d) as [zd|] eqn:Hd;
      [|intros [= <-]; split; [by eexists|];
        destruct (Hfield _ _ Hd) as (repr & -> & Hrepr);
        exists (Some (Settings.PyNotInt repr)), repr; split_and!; [|done|done];
        rewrite !elem_of_cons; eauto 10].
    destruct (Settings.int_field lax_int 16 e) as [ze|] eqn:He;
      [done|intros [= <-]; split; [by eexists|];
        destruct (Hfield _ _ He) as (repr & -> & Hrepr);
        exists (Some (Settings.PyNotInt repr)), repr; split_and!; [|done|done];
        rewrite !elem_of_cons; eauto 10].
Qed.

Lemma batch_settings_witness :
  Settings.int_field sample_lax_int 2 None = Some 2
  ∧ Settings.int_field sample_lax_int 2 (Some (Settings.PyInt (-3))) = Some (-3)
  ∧ Settings.int_field sample_lax_int 4 (Some (Settings.PyNotInt "'0'")) = Some 0
  ∧ Settings.int_field sample_lax_int 2 None = Some 2
  ∧ Settings.int_field sample_lax_int 16 None = Some 16.
Proof.
  apply (proj1 (proj1 (proj2 (proj2 (proj2 (proj2 (batch_settings sample_lax_int)))))
           (Settings.mkKwargs None (Some (Settings.PyInt (-3)))
              (Some (Settings.PyNotInt "'0'")) None None)
           (Settings.mkPerf 2 (-3) 0 2 16))).
  reflexivity.
Defined.

(** C8 as written fails: a page batch size of 0 is not rejected; the
    constructor returns settings that hold it, and so it does for -3 as the
    document batch concurrency. *)
Lemma batch_settings_counterexample :
  Settings.new sample_lax_int
    (Settings.mkKwargs None (Some (Settings.PyInt (-3)))
       (Some (Settings.PyInt 0)) None None)
  = Returns (Settings.mkPerf 2 (-3) 0 2 16).
Proof. reflexivity. Qed.

(** ** The teardown of the PowerPoint backend *)

Lemma mspowerpoint_unload_cases (st : MsPowerpoint.state) :
  (MsPowerpoint.exported st
   ∧ MsPowerpoint.unload st = (Raises MsPowerpoint.BufferError, st))
  ∨ (¬ MsPowerpoint.exported st
     ∧ ∃ streams',
         MsPowerpoint.unload st
         = (Returns (),
            MsPowerpoint.mkState
              (MsPowerpoint.mkBackend
                 (MsPowerpoint.document_hash (MsPowerpoint.self st)) None)
              streams')
         ∧ dom streams' = dom (MsPowerpoint.streams st)
         ∧ (∀ a, MsPowerpoint.path_or_stream (MsPowerpoint.self st)
                 ≠ Some (MsPowerpoint.SrcBytesIO a) →
                 streams' !! a = MsPowerpoint.streams st !! a)
         ∧ (∀ a s, MsPowerpoint.path_or_stream (MsPowerpoint.self st)
                   = Some (MsPowerpoint.SrcBytesIO a) →
                   MsPowerpoint.streams st !! a = Some s →
                   streams' !! a = Some (MsPowerpoint.mkBytesIO [] true 0))).
Proof.
  destruct st as [[hash [[p|a]|]] streams]; unfold MsPowerpoint.unload;
    cbn [MsPowerpoint.self MsPowerpoint.streams MsPowerpoint.path_or_stream
         MsPowerpoint.document_hash].
  - right. split; [by intros (a & s & [=] & _)|]. by eexists.
  - destruct (streams !! a) as [s|] eqn:Hs.
    + unfold MsPowerpoint.close.
      destruct (decide (0 < MsPowerpoint.exports s)%nat) as [Hexp|Hexp].
      * left. split; [by exists a, s|]. by rewrite insert_id.
      * right. split.
        { intros (a' & s' & [= <-] & Hs' & Hexp'). cbn in Hs'. congruence. }
        eexists. split_and!; [done| | |].
        -- by apply dom_insert_lookup_L.
        -- intros a' Ha'. apply lookup_insert_ne. congruence.
        -- intros a' s' [= <-] _. apply lookup_insert_eq.
    + right. split.
      { intros (a' & s' & [= <-] & Hs' & _). cbn in Hs'. congruence. }
      eexists. split_and!; [done|done|done|].
      intros a' s' [= <-]. cbn. congruence.
  - right. split; [by intros (a & s & [=] & _)|]. by eexists.
Qed.

(** C9, as the code has it.  Called again on the state that the first call
    left, [unload()] of the PowerPoint backend ends as the first call did and
    leaves that state as it is: the backend, and the streams too.  When the
    backend holds no stream with a view of its buffer alive, both calls
    return and [path_or_stream] is [None] after the first and after the
    second.  When it holds one, [close()] raises [BufferError]: both calls
    raise it, and the backend keeps its stream, open. *)
Theorem mspowerpoint_unload_idempotent (st : MsPowerpoint.state) :
  let once := MsPowerpoint.unload st in
  let twice := MsPowerpoint.unload once.2 in
  (twice.2 = once.2 ∧ twice.1 = once.1)
  ∧ (¬ MsPowerpoint.exported st →
     once.1 = Returns ()
     ∧ MsPowerpoint.path_or_stream (MsPowerpoint.self once.2) = None
     ∧ twice.1 = Returns ()
     ∧ MsPowerpoint.path_or_stream (MsPowerpoint.self twice.2) = None)
  ∧ (MsPowerpoint.exported st →
     once.1 = Raises MsPowerpoint.BufferError
     ∧ once.2 = st
     ∧ MsPowerpoint.path_or_stream (MsPowerpoint.self once.2) ≠ None
     ∧ twice.1 = Raises MsPowerpoint.BufferError).
Proof.
  cbn zeta.
  destruct (mspowerpoint_unload_cases st)
    as [[Hexp Hrun]|(Hexp & streams' & Hrun & _)]; rewrite Hrun; cbn [fst snd].
  - rewrite Hrun. split_and!; [done|done|done|].
    intros _. split_and!; [done|done| |done].
    destruct Hexp as (a & s & -> & _). done.
  - split_and!; [done|done| |done]. intros _. done.
Qed.

(** C9 as written fails: a backend on a stream of which a view is alive is
    not released by [unload()], which raises and leaves [path_or_stream] as it
    was. *)
Lemma mspowerpoint_unload_counterexample :
  (MsPowerpoint.unload backend_on_exported_stream).1
  = Raises MsPowerpoint.BufferError
  ∧ MsPowerpoint.path_or_stream
      (MsPowerpoint.self (MsPowerpoint.unload backend_on_exported_stream).2)
    = Some (MsPowerpoint.SrcBytesIO 7).
Proof.
  destruct (mspowerpoint_unload_cases backend_on_exported_stream)
    as [[_ ->]|[Hexp _]]; [done|].
  destruct Hexp. eexists 7%nat, _. split_and!; [done|apply lookup_singleton_eq|].
  cbn. lia.
Qed.

(** A stream source: the first call closes the stream, the second finds
    nothing to close. *)
Example mspowerpoint_unload_stream :
  (MsPowerpoint.unload backend_on_stream).2
  = MsPowerpoint.mkState (MsPowerpoint.mkBackend "5e1f" None)
      {[ 7%nat := MsPowerpoint.mkBytesIO [] true 0 ]}
  ∧ (MsPowerpoint.unload (MsPowerpoint.unload backend_on_stream).2).2
    = (MsPowerpoint.unload backend_on_stream).2.
Proof.
  assert (MsPowerpoint.unload backend_on_stream
          = (Returns (),
             MsPowerpoint.mkState (MsPowerpoint.mkBackend "5e1f" None)
               {[ 7%nat := MsPowerpoint.mkBytesIO [] true 0 ]})) as ->.
  { unfold MsPowerpoint.unload, backend_on_stream.
    cbn [MsPowerpoint.self MsPowerpoint.streams MsPowerpoint.path_or_stream
         MsPowerpoint.document_hash].
    rewrite lookup_singleton_eq. unfold MsPowerpoint.close.
    cbn [MsPowerpoint.exports]. destruct (decide (0 < 0)%nat); [lia|].
    by rewrite insert_singleton_eq. }
  done.
Qed.

(** * Further properties *)

(** ** The status that a conversion ends with *)

Lemma run_bind_Returns {A B} (m : Py A) (k : A → Py B) w b w' :
  run (m ≫= k) w = (Returns b, w') →
  ∃ a w1, run m w = (Returns a, w1) ∧ run (k a) w1 = (Returns b, w').
Proof.
  rewrite run_bind. destruct (run m w) as [[a|e] w1]; [|done].
  intros Hk. by exists a, w1.
Qed.

Lemma status_loop_status pages : ∀ status w s w',
  run (status_loop pages status) w = (Returns s, w') →
  s = status ∨ s = PARTIAL_SUCCESS.
Proof.
  induction pages as [|page rest IH]; intros status w s w'; cbn [status_loop].
  - intros [= <- <-]. by left.
  - destruct (Page._backend page) as [b|]; [|done].
    destruct (negb (is_valid b)).
    + intros (_ & w1 & _ & Hrest)%run_bind_Returns.
      apply IH in Hrest as [->| ->]; by right.
    + apply IH.
Qed.

(** X1.  Whatever the stages, the assembler and the models do, a result that
    [execute] of a paginated pipeline returns has one of the three final
    statuses: FAILURE, SUCCESS or PARTIAL_SUCCESS, never PENDING or STARTED;
    and it is the result the world holds. *)
Theorem execute_status_final settings self raises_on_error w cr w' :
  run (execute settings (paginated settings self) raises_on_error) w
  = (Returns cr, w') →
  conv_res w' = cr
  ∧ (ConversionResult.status cr = FAILURE
     ∨ ConversionResult.status cr = SUCCESS
     ∨ ConversionResult.status cr = PARTIAL_SUCCESS).
Proof.
  unfold execute. rewrite run_bind. cbn [run modify_conv_res].
  rewrite run_bind. cbn [run get_in_doc in_doc].
  destruct (InputDocument.valid (in_doc w)); cbn [negb].
  2:{ py_unfold. cbn. intros [= <- <-]. split; [done|by left]. }
  rewrite run_bind, run_try_except. fold (fresh w).
  destruct (run (execute_phases _ _) (fresh w)) as [[[]|e] w1] eqn:Hphases.
  - cbn [run get_conv_res]. intros [= <- <-]. split; [done|right].
    unfold execute_phases in Hphases.
    do 7 apply run_bind_Returns in Hphases as (? & ? & _ & Hphases).
    apply run_bind_Returns in Hphases as (s & w2 & Hstatus & Hset).
    cbn [run modify_conv_res] in Hset. injection Hset as <-. cbn.
    cbn [_determine_status paginated] in Hstatus.
    unfold paginated_determine_status in Hstatus.
    apply run_bind_Returns in Hstatus as (? & ? & _ & Hloop).
    apply status_loop_status in Hloop as [->| ->]; auto.
  - destruct (isinstance_Exception e); [|done].
    destruct raises_on_error; py_unfold; cbn; [done|].
    intros [= <- <-]. split; [done|by left].
Qed.

Lemma execute_status_final_witness :
  conv_res
    (run (execute Settings.settings (paginated Settings.settings loading_pipeline) false)
       five_pages).2
  = conv_res
      (run (execute Settings.settings (paginated Settings.settings loading_pipeline) false)
         five_pages).2
  ∧ (ConversionResult.status
       (conv_res
          (run (execute Settings.settings
                  (paginated Settings.settings loading_pipeline) false)
             five_pages).2) = FAILURE
     ∨ ConversionResult.status
         (conv_res
            (run (execute Settings.settings
                    (paginated Settings.settings loading_pipeline) false)
               five_pages).2) = SUCCESS
     ∨ ConversionResult.status
         (conv_res
            (run (execute Settings.settings
                    (paginated Settings.settings loading_pipeline) false)
               five_pages).2) = PARTIAL_SUCCESS).
Proof.
  apply (execute_status_final Settings.settings loading_pipeline false five_pages
           (conv_res
              (run (execute Settings.settings
                      (paginated Settings.settings loading_pipeline) false)
                 five_pages).2)
           (run (execute Settings.settings
                   (paginated Settings.settings loading_pipeline) false)
              five_pages).2).
  vm_compute. reflexivity.
Defined.

(** ** The resolver on a page without backend *)

Lemma status_loop_missing_backend before page after : ∀ status w,
  Forall (λ page, is_Some (Page._backend page)) before →
  Page._backend page = None →
  ∃ errs,
    run (status_loop (before ++ page :: after) status) w
    = (Raises (AttributeError "'NoneType' object has no attribute 'is_valid'"),
       {| in_doc := in_doc w;
          conv_res :=
            ConversionResult.with_errors
              (ConversionResult.errors (conv_res w) ++ errs) (conv_res w);
          calls := calls w |})
    ∧ Forall2 names_page (filter (λ page, reports_invalid page) before) errs.
Proof.
  induction before as [|p before IH]; intros status [d [st ps es out] evs] Hall Hnone.
  - exists []. cbn. rewrite Hnone, app_nil_r. by split.
  - apply Forall_cons in Hall as [[b Hb] Hall]. cbn [app status_loop]. rewrite Hb.
    destruct (is_valid b) eqn:Hvalid; cbn [negb].
    + rewrite filter_cons_False by (unfold reports_invalid; rewrite Hb, Hvalid; auto).
      by apply IH.
    + rewrite filter_cons_True by (unfold reports_invalid; by rewrite Hb, Hvalid).
      rewrite run_bind. cbn [run append_error modify_conv_res].
      edestruct (IH PARTIAL_SUCCESS) as (errs & -> & Herrs); [exact Hall|exact Hnone|].
      exists (page_error p b :: errs). cbn. rewrite <- app_assoc. split; [done|].
      constructor; [|done]. split_and!; [done..|]. by exists b.
Qed.

(** X2.  When a page has no backend (it was never initialised, or the
    back-reference was cleared), the resolver raises an AttributeError at the
    first such page.  The error items of the invalid pages before it are
    already in the error list and stay there; the pages behind it are not
    looked at.  The exception derives from [Exception], so the guard of
    [execute] turns it into FAILURE. *)
Theorem determine_status_missing_backend w before page after :
  ConversionResult.pages (conv_res w) = before ++ page :: after →
  Forall (λ page, is_Some (Page._backend page)) before →
  Page._backend page = None →
  ∃ msg errs,
    run paginated_determine_status w
    = (Raises (AttributeError msg),
       {| in_doc := in_doc w;
          conv_res :=
            ConversionResult.with_errors
              (ConversionResult.errors (conv_res w) ++ errs) (conv_res w);
          calls := calls w |})
    ∧ isinstance_Exception (AttributeError msg) = true
    ∧ Forall2 names_page (filter (λ page, reports_invalid page) before) errs.
Proof.
  intros Hpages Hall Hnone. unfold paginated_determine_status.
  rewrite run_bind. cbn [run get_conv_res]. rewrite Hpages.
  destruct (status_loop_missing_backend before page after SUCCESS w Hall Hnone)
    as (errs & -> & Herrs).
  by eexists _, errs.
Qed.

Lemma determine_status_missing_backend_witness :
  ∃ msg errs,
    run paginated_determine_status
      {| in_doc := in_doc five_pages;
         conv_res :=
           ConversionResult.with_pages
             ((initialized <$> (Page.new <$> range 0 3)) ++ Page.new 3 :: [Page.new 4])
             ConversionResult.new;
         calls := [] |}
    = (Raises (AttributeError msg),
       {| in_doc := in_doc five_pages;
          conv_res :=
            ConversionResult.with_errors
              ([] ++ errs)
              (ConversionResult.with_pages
                 ((initialized <$> (Page.new <$> range 0 3)) ++ Page.new 3 :: [Page.new 4])
                 ConversionResult.new);
          calls := [] |})
    ∧ isinstance_Exception (AttributeError msg) = true
    ∧ Forall2 names_page
        (filter (λ page, reports_invalid page)
           (initialized <$> (Page.new <$> range 0 3))) errs.
Proof.
  apply (determine_status_missing_backend
           {| in_doc := in_doc five_pages;
              conv_res :=
                ConversionResult.with_pages
                  ((initialized <$> (Page.new <$> range 0 3)) ++ Page.new 3 :: [Page.new 4])
                  ConversionResult.new;
              calls := [] |}
           (initialized <$> (Page.new <$> range 0 3)) (Page.new 3) [Page.new 4]).
  - reflexivity.
  - repeat constructor; by eexists.
  - reflexivity.
Defined.

(** ** The loop over the page batches *)

Lemma build_batches_record self doc batches : ∀ seen w,
  ∃ r ps k,
    run (build_batches self doc seen batches) w
    = (r, {| in_doc := in_doc w;
             conv_res := ConversionResult.with_pages ps (conv_res w);
             calls := calls w ++ (drain_of <$> take k batches) |})
    ∧ (k ≤ length batches)%nat
    ∧ (r = Returns () → k = length batches).
Proof.
  induction batches as [|page_batch rest IH]; intros seen [d [st ps0 es out] evs0].
  - exists (Returns ()), ps0, 0%nat. cbn. by rewrite app_nil_r.
  - cbn [build_batches]. rewrite run_bind. cbn [run observe].
    destruct (apply_on_pages self doc page_batch) as [pages' fault].
    rewrite run_bind. cbn [run modify_conv_res in_doc conv_res calls].
    destruct fault as [e|].
    + exists (Raises e), (seen ++ pages' ++ concat rest), 1%nat.
      split_and!; [reflexivity|cbn; lia|done].
    + edestruct (IH (seen ++ pages')) as (r & ps & k & -> & Hk & Hr).
      exists r, ps, (S k). split_and!.
      * cbn [in_doc conv_res calls take fmap list_fmap]. by rewrite <- app_assoc.
      * cbn. lia.
      * intros Hret. cbn. f_equal. by apply Hr.
Qed.

(** X3.  A fault in one batch ends the loop over the page batches there:
    the batches before it were drained, one after the other; the faulting
    batch is left as the stages left it; the batches behind it are not
    drained and their pages are as they were. *)
Theorem build_fault_isolation self doc before page_batch after : ∀ seen w e,
  Forall (λ b, (apply_on_pages self doc b).2 = None) before →
  (apply_on_pages self doc page_batch).2 = Some e →
  run (build_batches self doc seen (before ++ page_batch :: after)) w
  = (Raises e,
     {| in_doc := in_doc w;
        conv_res :=
          ConversionResult.with_pages
            (seen
             ++ concat ((λ b, (apply_on_pages self doc b).1) <$> before)
             ++ (apply_on_pages self doc page_batch).1
             ++ concat after)
            (conv_res w);
        calls := calls w ++ (drain_of <$> before ++ [page_batch]) |}).
Proof.
  induction before as [|b before IH]; intros seen [d [st ps es out] evs] e Hbefore Hfault.
  - cbn [app build_batches]. rewrite run_bind. cbn [run observe].
    destruct (apply_on_pages self doc page_batch) as [pages' fault].
    cbn in Hfault. subst fault. rewrite run_bind. by cbn.
  - apply Forall_cons in Hbefore as [Hb Hbefore].
    cbn [app build_batches]. rewrite run_bind. cbn [run observe].
    destruct (apply_on_pages self doc b) as [pages' fault] eqn:Happly.
    cbn in Hb. subst fault. rewrite run_bind.
    cbn [run modify_conv_res in_doc conv_res calls].
    rewrite (IH _ _ e) by done. cbn. rewrite Happly. cbn.
    by rewrite <- !app_assoc.
Qed.

Lemma build_fault_isolation_witness :
  run (build_batches interrupted (in_doc three_pages) []
         ([] ++ [Page.new 0; Page.new 1] :: [[Page.new 2]]))
    three_pages
  = (Raises KeyboardInterrupt,
     {| in_doc := in_doc three_pages;
        conv_res :=
          ConversionResult.with_pages
            ([]
             ++ concat ((λ b, (apply_on_pages interrupted (in_doc three_pages) b).1) <$> [])
             ++ (apply_on_pages interrupted (in_doc three_pages)
                   [Page.new 0; Page.new 1]).1
             ++ concat [[Page.new 2]])
            (conv_res three_pages);
        calls := calls three_pages ++ (drain_of <$> [] ++ [[Page.new 0; Page.new 1]]) |}).
Proof.
  apply (build_fault_isolation interrupted (in_doc three_pages) []
           [Page.new 0; Page.new 1] [[Page.new 2]] [] three_pages KeyboardInterrupt).
  - constructor.
  - reflexivity.
Defined.

(** ** The build phase and the backend *)

Lemma Forall_is_drain_take k (batches : list (list Page.t)) :
  Forall is_drain (drain_of <$> take k batches).
Proof. apply Forall_fmap, Forall_forall. intros b _. by eexists. Qed.

Lemma paginated_build_record settings self w b :
  InputDocument._backend (in_doc w) = Some b → is_pdf b = true →
  ∃ r st ps drains,
    run (paginated_build_document settings self) w
    = (r, {| in_doc := in_doc w;
             conv_res :=
               ConversionResult.with_status st
                 (ConversionResult.with_pages ps (conv_res w));
             calls := calls w ++ drains ++ [CallUnload (backend_class b)] |})
    ∧ Forall is_drain drains
    ∧ st = match r with
           | Returns _ => ConversionResult.status (conv_res w)
           | Raises e =>
               if isinstance_Exception e then FAILURE
               else ConversionResult.status (conv_res w)
           end.
Proof.
  intros Hb Hpdf. unfold paginated_build_document.
  rewrite run_bind. cbn [run get_in_doc]. rewrite Hb.
  cbn [isinstance_PdfDocumentBackend]. rewrite Hpdf. cbn [negb].
  rewrite run_bind. unfold make_pages. rewrite run_make_pages.
  set (w1 := {| in_doc := in_doc w; conv_res := _; calls := calls w |}).
  rewrite run_try_finally, run_try_except, run_bind. cbn [run get_conv_res].
  rewrite run_bind. cbn [run lift].
  destruct (chunkify _ _) as [batches|e] eqn:Hchunk.
  - destruct (build_batches_record self (in_doc w) batches [] w1)
      as (r & ps & k & Hrun & _ & _).
    rewrite Hrun. subst w1.
    pose proof (Forall_is_drain_take k batches) as Hdrains.
    destruct r as [[]|e].
    + exists (Returns ()), (ConversionResult.status (conv_res w)), ps,
        (drain_of <$> take k batches).
      destruct w as [d [st ps0 es out] evs0]. cbn.
      rewrite <- app_assoc. by split_and!.
    + exists (Raises e),
        (if isinstance_Exception e then FAILURE
         else ConversionResult.status (conv_res w)), ps,
        (drain_of <$> take k batches).
      destruct w as [d [st ps0 es out] evs0].
      destruct (isinstance_Exception e); py_unfold; cbn;
        rewrite <- app_assoc; by split_and!.
  - apply chunkify_Raises in Hchunk as [_ He]. rewrite He. subst w1.
    exists (Raises e), FAILURE,
      (ConversionResult.pages (conv_res w)
       ++ (Page.new <$> range 0 (InputDocument.page_count (in_doc w)))), [].
    destruct w as [d [st ps0 es out] evs0]. py_unfold. cbn.
    split_and!; [done|done|by rewrite He].
Qed.

(** X4.  The build phase on a PDF backend, however it ends: it leaves the
    document handle, the error list and the output document alone; it sets
    the status, to FAILURE, exactly when it raises an exception derived from
    [Exception] (an interrupt leaves the status as it was); its calls are the
    batches drained followed by the release of the backend, which is the last
    thing it does. *)
Theorem build_document_outcome settings self w b :
  InputDocument._backend (in_doc w) = Some b → is_pdf b = true →
  let r := (run (paginated_build_document settings self) w).1 in
  let w' := (run (paginated_build_document settings self) w).2 in
  in_doc w' = in_doc w
  ∧ ConversionResult.errors (conv_res w') = ConversionResult.errors (conv_res w)
  ∧ ConversionResult.output (conv_res w') = ConversionResult.output (conv_res w)
  ∧ ConversionResult.status (conv_res w')
    = match r with
      | Returns _ => ConversionResult.status (conv_res w)
      | Raises e =>
          if isinstance_Exception e then FAILURE
          else ConversionResult.status (conv_res w)
      end
  ∧ ∃ drains,
      calls w' = calls w ++ drains ++ [CallUnload (backend_class b)]
      ∧ Forall is_drain drains.
Proof.
  intros Hb Hpdf.
  destruct (paginated_build_record settings self w b Hb Hpdf)
    as (r & st & ps & drains & -> & Hdrains & ->).
  cbn. split_and!; [done..|]. by exists drains.
Qed.

Lemma build_document_outcome_witness :
  let r := (run (paginated_build_document Settings.settings interrupted) three_pages).1 in
  let w' := (run (paginated_build_document Settings.settings interrupted) three_pages).2 in
  in_doc w' = in_doc three_pages
  ∧ ConversionResult.errors (conv_res w')
    = ConversionResult.errors (conv_res three_pages)
  ∧ ConversionResult.output (conv_res w')
    = ConversionResult.output (conv_res three_pages)
  ∧ ConversionResult.status (conv_res w')
    = match r with
      | Returns _ => ConversionResult.status (conv_res three_pages)
      | Raises e =>
          if isinstance_Exception e then FAILURE
          else ConversionResult.status (conv_res three_pages)
      end
  ∧ ∃ drains,
      calls w' = calls three_pages ++ drains ++ [CallUnload (backend_class pdfium)]
      ∧ Forall is_drain drains.
Proof.
  apply (build_document_outcome Settings.settings interrupted three_pages pdfium);
    reflexivity.
Defined.

(** ** After the release *)

Global Instance without_page_work_preorder : PreOrder without_page_work.
Proof.
  split.
  - intros w. split; [done|]. exists []. by rewrite app_nil_r.
  - intros w1 w2 w3 [Hd1 (evs1 & Hc1 & Hn1)] [Hd2 (evs2 & Hc2 & Hn2)].
    split; [congruence|]. exists (evs1 ++ evs2).
    rewrite Hc2, Hc1, <- app_assoc. split; [done|by apply Forall_app].
Qed.

Lemma without_page_work_same_calls (m : Py unit) :
  (∀ w, in_doc (run m w).2 = in_doc w ∧ calls (run m w).2 = calls w) →
  keeps without_page_work m.
Proof.
  intros Hm w r w' Hrun. destruct (Hm w) as [Hd Hc]. rewrite Hrun in Hd, Hc.
  split; [done|]. exists []. by rewrite app_nil_r.
Qed.

Lemma without_page_work_modify_conv_res f :
  keeps without_page_work (modify_conv_res f).
Proof. by apply without_page_work_same_calls. Qed.

Lemma without_page_work_observe ev :
  ¬ is_page_work ev → keeps without_page_work (observe ev).
Proof.
  intros Hev w r w' [= <- <-]. split; [done|]. exists [ev]. split; [done|].
  by constructor.
Qed.

Ltac not_page_work :=
  intros [[? ?]|[? ?]]; discriminate.

Lemma without_page_work_status_loop pages : ∀ status,
  keeps without_page_work (status_loop pages status).
Proof.
  induction pages as [|page rest IH]; intros status; cbn [status_loop].
  - apply keeps_ret; exact _.
  - destruct (Page._backend page) as [b|]; [|apply keeps_raise; exact _].
    destruct (negb (is_valid b)); [|apply IH].
    apply keeps_bind; [exact _| |intros _; apply IH].
    apply without_page_work_modify_conv_res.
Qed.

Lemma without_page_work_enrich_document settings self :
  keeps without_page_work (_enrich_document settings self).
Proof.
  unfold _enrich_document. apply keeps_for_each; [exact _|intros model].
  apply keeps_enrich_with; [exact _|intros element_batch].
  unfold call_model. apply keeps_bind; [exact _| |intros ?].
  { apply without_page_work_observe; not_page_work. }
  apply without_page_work_same_calls. intros w. unfold run, drain_model.
  by destruct (call _ _ _).
Qed.

Lemma without_page_work_after_build settings self :
  keeps without_page_work
    (observe EnterAssemble ;; paginated_assemble_document self ;;
     observe EnterEnrich ;; _enrich_document settings (paginated settings self) ;;
     observe EnterStatus ;; status ← paginated_determine_status;
     modify_conv_res (ConversionResult.with_status status)).
Proof.
  assert (Hassemble : keeps without_page_work (paginated_assemble_document self)).
  { apply without_page_work_same_calls. intros w.
    unfold run, paginated_assemble_document. by destruct (assemble_document _ _ _). }
  assert (Hstatus : keeps without_page_work paginated_determine_status).
  { unfold paginated_determine_status.
    apply keeps_bind; [exact _|apply keeps_get_conv_res; exact _|intros ?].
    apply without_page_work_status_loop. }
  repeat first
    [ exact Hassemble | exact Hstatus
    | apply without_page_work_enrich_document
    | apply without_page_work_modify_conv_res
    | apply without_page_work_observe; not_page_work
    | apply keeps_bind; [exact _| |intros ?] ].
Qed.

(** X5.  In a conversion of a valid document on a PDF backend, the backend
    is released once the batches are drained and before the document is
    assembled: the calls are the entry into the build, the batches drained,
    the release, and then calls that neither drain a batch nor release the
    backend.  No stage runs on a released backend, whatever the stages, the
    assembler and the models do and however the conversion ends. *)
Theorem execute_release_order settings self raises_on_error w b :
  InputDocument.valid (in_doc w) = true →
  InputDocument._backend (in_doc w) = Some b → is_pdf b = true →
  ∃ drains later,
    calls (run (execute settings (paginated settings self) raises_on_error) w).2
    = calls w ++ [EnterBuild] ++ drains ++ [CallUnload (backend_class b)] ++ later
    ∧ Forall is_drain drains
    ∧ Forall (λ ev, ¬ is_page_work ev) later.
Proof.
  intros Hvalid Hb Hpdf. unfold execute. rewrite run_bind. cbn [run modify_conv_res].
  rewrite run_bind. cbn [run get_in_doc in_doc]. rewrite Hvalid. cbn [negb].
  rewrite run_bind, run_try_except. unfold execute_phases.
  rewrite run_bind. cbn [run observe]. rewrite run_bind.
  cbn [_build_document paginated in_doc conv_res calls]. fold (entering_build w).
  destruct (paginated_build_record settings self (entering_build w) b Hb Hpdf)
    as (r & st & ps & drains & -> & Hdrains & _).
  exists drains. cbn [entering_build calls].
  destruct r as [[]|e].
  - cbn [_assemble_document _determine_status paginated].
    match goal with |- context [run ?m ?w2] =>
      match m with
      | observe EnterAssemble ≫= _ => destruct (run m w2) as [r' w3] eqn:Hrest
      end end.
    apply without_page_work_after_build in Hrest as [_ (later & Hcalls & Hlater)].
    cbn [calls] in Hcalls. exists later.
    destruct r' as [[]|e]; [|destruct (isinstance_Exception e), raises_on_error];
      py_unfold; cbn; rewrite Hcalls, <- !app_assoc; by split_and!.
  - exists [].
    destruct (isinstance_Exception e), raises_on_error; py_unfold; cbn;
      rewrite <- !app_assoc; by split_and!.
Qed.

Lemma execute_release_order_witness :
  ∃ drains later,
    calls (run (execute Settings.settings
                  (paginated Settings.settings loading_pipeline) false) five_pages).2
    = calls five_pages ++ [EnterBuild] ++ drains
      ++ [CallUnload (backend_class pdfium)] ++ later
    ∧ Forall is_drain drains
    ∧ Forall (λ ev, ¬ is_page_work ev) later.
Proof.
  apply (execute_release_order Settings.settings loading_pipeline false five_pages
           pdfium); reflexivity.
Defined.

(** ** A document without pages *)

Lemma range_nonpos n : n ≤ 0 → range 0 n = [].
Proof.
  intros Hn. unfold range, seqZ. by rewrite Z2Nat.nonpos by lia.
Qed.

Lemma chunkify_nil {A} b : 1 ≤ b → chunkify (A:=A) [] b = Returns [].
Proof. intros Hb. unfold chunkify. by destruct (Z.ltb_spec b 1); [lia|]. Qed.

Lemma enrich_empty_document settings pipe : ∀ w,
  items (ConversionResult.output (conv_res w)) = [] →
  1 ≤ Settings.elements_batch_size (Settings.perf settings) →
  run (for_each pipe (enrich_with settings)) w = (Returns (), w).
Proof.
  induction pipe as [|model rest IH]; intros w Hitems Hb; [done|].
  cbn [for_each]. rewrite run_bind. unfold enrich_with at 1.
  rewrite run_bind. cbn [run get_conv_res]. cbn zeta.
  destruct (Z.ltb_spec (Settings.elements_batch_size (Settings.perf settings)) 1);
    [lia|].
  unfold iterate_items. rewrite Hitems. cbn [length enrich_batches mret Py_ret].
  by apply IH.
Qed.

(** X6.  A valid document on a PDF backend with no page ([page_count] zero
    or less), converted with batch sizes of at least one and the inherited
    assembler: no batch is drained and no model is called, the backend is
    released all the same, and [execute] returns a result with status
    SUCCESS, no page and no error item. *)
Theorem execute_no_pages settings self raises_on_error w b :
  InputDocument.valid (in_doc w) = true →
  InputDocument._backend (in_doc w) = Some b → is_pdf b = true →
  InputDocument.page_count (in_doc w) ≤ 0 →
  1 ≤ Settings.page_batch_size (Settings.perf settings) →
  1 ≤ Settings.elements_batch_size (Settings.perf settings) →
  assemble_document self = inherited_assemble_document →
  let cr := ConversionResult.with_status SUCCESS ConversionResult.new in
  run (execute settings (paginated settings self) raises_on_error) w
  = (Returns cr,
     {| in_doc := in_doc w;
        conv_res := cr;
        calls := calls w ++ [EnterBuild; CallUnload (backend_class b);
                             EnterAssemble; EnterEnrich; EnterStatus] |}).
Proof.
  intros Hvalid Hb Hpdf Hn Hpages Helements Hassemble cr.
  unfold execute. rewrite run_bind. cbn [run modify_conv_res].
  rewrite run_bind. cbn [run get_in_doc in_doc]. rewrite Hvalid. cbn [negb].
  rewrite run_bind, run_try_except. unfold execute_phases.
  rewrite run_bind. cbn [run observe]. rewrite run_bind.
  cbn [_build_document paginated in_doc conv_res calls].
  unfold paginated_build_document.
  rewrite run_bind. cbn [run get_in_doc in_doc]. rewrite Hb.
  cbn [isinstance_PdfDocumentBackend]. rewrite Hpdf. cbn [negb].
  rewrite run_bind. unfold make_pages. rewrite run_make_pages.
  cbn [in_doc conv_res calls]. rewrite range_nonpos by done.
  rewrite run_try_finally, run_try_except, run_bind. cbn [run get_conv_res conv_res].
  rewrite run_bind.
  change (ConversionResult.pages (ConversionResult.with_pages ?ps _)) with ps.
  cbn [ConversionResult.pages ConversionResult.new fmap list_fmap app].
  rewrite chunkify_nil by done.
  cbn [run lift build_batches mret Py_ret fst snd unload observe in_doc conv_res calls].
  rewrite run_bind. cbn [run observe in_doc conv_res calls].
  rewrite run_bind. cbn [_assemble_document paginated].
  unfold paginated_assemble_document at 1. rewrite Hassemble.
  cbn [run inherited_assemble_document in_doc conv_res calls].
  rewrite run_bind. cbn [run observe in_doc conv_res calls]. rewrite run_bind.
  unfold _enrich_document. rewrite enrich_empty_document by done.
  rewrite run_bind. cbn [run observe in_doc conv_res calls]. rewrite run_bind.
  cbn [_determine_status paginated]. unfold paginated_determine_status.
  rewrite run_bind. cbn. rewrite <- !app_assoc. done.
Qed.

Lemma execute_no_pages_witness :
  let cr := ConversionResult.with_status SUCCESS ConversionResult.new in
  run (execute Settings.settings (paginated Settings.settings loading_pipeline) false)
    {| in_doc := InputDocument.mk "blank.pdf" "0000" true 0 (Some pdfium);
       conv_res := ConversionResult.new; calls := [] |}
  = (Returns cr,
     {| in_doc := InputDocument.mk "blank.pdf" "0000" true 0 (Some pdfium);
        conv_res := cr;
        calls := [] ++ [EnterBuild; CallUnload (backend_class pdfium);
                        EnterAssemble; EnterEnrich; EnterStatus] |}).
Proof.
  apply (execute_no_pages Settings.settings loading_pipeline false
           {| in_doc := InputDocument.mk "blank.pdf" "0000" true 0 (Some pdfium);
              conv_res := ConversionResult.new; calls := [] |} pdfium);
    first [reflexivity | cbn; lia].
Defined.

(** ** What the enrich phase touches, and where it stops *)

Global Instance with_model_calls_preorder : PreOrder with_model_calls.
Proof.
  split.
  - intros w. split; [done|]. exists []. by rewrite app_nil_r.
  - intros w1 w2 w3 [Hd1 (evs1 & Hc1 & Hn1)] [Hd2 (evs2 & Hc2 & Hn2)].
    split; [congruence|]. exists (evs1 ++ evs2).
    rewrite Hc2, Hc1, <- app_assoc. split; [done|by apply Forall_app].
Qed.

Lemma with_model_calls_enrich_document settings self :
  keeps with_model_calls (_enrich_document settings self).
Proof.
  unfold _enrich_document. apply keeps_for_each; [exact _|intros model].
  apply keeps_enrich_with; [exact _|intros element_batch].
  unfold call_model. apply keeps_bind; [exact _| |intros ?].
  - intros w r w' [= <- <-]. split; [done|]. eexists [_]. split; [done|].
    constructor; [|done]. by eexists _, _.
  - intros w r w'. unfold run, drain_model.
    destruct (call _ _ _) as [r1 doc']. intros [= <- <-].
    split; [done|]. exists []. by rewrite app_nil_r.
Qed.

(** X7.  The enrich phase works on the output document only: however it
    ends, for whatever models, the document handle, the status, the page
    records and the error list are as they were, and the calls it made are
    calls of enrichment models: no stage is run and the backend is not
    touched. *)
Theorem enrich_document_frame settings self w :
  let w' := (run (_enrich_document settings self) w).2 in
  in_doc w' = in_doc w
  ∧ ConversionResult.status (conv_res w') = ConversionResult.status (conv_res w)
  ∧ ConversionResult.pages (conv_res w') = ConversionResult.pages (conv_res w)
  ∧ ConversionResult.errors (conv_res w') = ConversionResult.errors (conv_res w)
  ∧ ∃ evs, calls w' = calls w ++ evs ∧ Forall is_model_call evs.
Proof.
  cbn zeta. destruct (run (_enrich_document settings self) w) as [r w'] eqn:Hrun.
  pose proof (rest_of_result_enrich_document settings self w r w' Hrun)
    as (Hstatus & Hpages & Herrors).
  pose proof (with_model_calls_enrich_document settings self w r w' Hrun)
    as (Hdoc & Hcalls).
  done.
Qed.

(** A round that raises: either the call that raised is the last one of the
    round and the document is as that call left it, or the predicate raised
    in the pull of one more batch, on the document as the calls left it. *)
Lemma model_rounds_Raises model size : ∀ batches doc pos e,
  model_rounds model size doc pos batches (Raises e) →
  (∃ element_batch doc_then,
     last batches = Some element_batch
     ∧ (call model doc_then element_batch).1 = Raises e
     ∧ enriched_by model batches doc = after model doc_then element_batch)
  ∨ (∃ pos', pull_raises model size (enriched_by model batches doc) pos' e).
Proof.
  intros batches. induction batches as [|element_batch later IH];
    intros doc pos e; cbn [model_rounds].
  - intros [[[=] _]|(e' & [= <-] & Hpull)]. right. by exists pos.
  - intros (stop & _ & Hrest).
    destruct (call model doc element_batch).1 as [[]|e'] eqn:Hcall.
    + destruct (IH _ _ _ Hrest)
        as [(last_batch & doc_then & Hlast & Hraise & Hdoc)|[pos' Hpull]].
      * left. exists last_batch, doc_then. split_and!; [|done|done].
        destruct later; [done|]. done.
      * right. by exists pos'.
    + destruct Hrest as [-> [= ->]]. left. by exists element_batch, doc.
Qed.

Lemma pipe_calls_nil pipe : pipe_calls pipe [] = [].
Proof. by destruct pipe. Qed.

Lemma enriched_by_pipe_nil pipe doc : enriched_by_pipe pipe [] doc = doc.
Proof. by destruct pipe. Qed.

Lemma pipe_rounds_Raises size pipe : ∀ plan doc e,
  pipe_rounds size pipe doc plan (Raises e) →
  ∃ model,
    pipe !! (length plan - 1)%nat = Some model
    ∧ ((∃ element_batch doc_then,
          last (pipe_calls pipe plan) = Some (CallModel (model_name model) element_batch)
          ∧ (call model doc_then element_batch).1 = Raises e
          ∧ enriched_by_pipe pipe plan doc = after model doc_then element_batch)
       ∨ (∃ pos, pull_raises model size (enriched_by_pipe pipe plan doc) pos e)).
Proof.
  induction pipe as [|model rest IH]; intros [|batches plan] doc e;
    cbn [pipe_rounds]; try done.
  intros ([[]|e1] & Hrounds & Hplan).
  - destruct plan as [|batches' plan].
    { destruct rest; cbn [pipe_rounds] in Hplan; done. }
    destruct (IH _ _ _ Hplan) as (model' & Hat & Hhow).
    exists model'. split.
    { replace (length (batches :: batches' :: plan) - 1)%nat
        with (S (length (batches' :: plan) - 1)) by (cbn [length]; lia).
      exact Hat. }
    rewrite pipe_calls_cons, enriched_by_pipe_cons, last_app.
    destruct Hhow as [(element_batch & doc_then & Hlast & Hraise & Hdoc)|Hpull].
    + left. exists element_batch, doc_then. by rewrite Hlast.
    + by right.
  - destruct Hplan as [-> [= ->]]. exists model. split; [done|].
    rewrite pipe_calls_cons, enriched_by_pipe_cons, pipe_calls_nil, app_nil_r,
      enriched_by_pipe_nil.
    destruct (model_rounds_Raises _ _ _ _ _ _ Hrounds)
      as [(element_batch & doc_then & Hlast & Hraise & Hdoc)|Hpull].
    + left. exists element_batch, doc_then. by rewrite fmap_last, Hlast.
    + by right.
Qed.

(** X8.  With an element batch size of at least one, whatever the models
    do, the calls that the enrich phase makes are those of the lazy traversal,
    model by model in the order of the pipe (see [pipe_rounds]).  When the
    phase returns, every model of the pipe had its round.  When it raises, the
    models behind the model that was at work were not reached, and either the
    exception is that of a call of this model, this call is the last one on
    record and the document is as this call left it, or the exception is that
    of [is_processable] of this model, raised while a batch was pulled, and no
    call was made on that batch. *)
Theorem enrich_document_stops settings self : ∀ w,
  1 ≤ Settings.elements_batch_size (Settings.perf settings) →
  let size := Z.to_nat (Settings.elements_batch_size (Settings.perf settings)) in
  let r := (run (_enrich_document settings self) w).1 in
  let w' := (run (_enrich_document settings self) w).2 in
  ∃ plan,
    pipe_rounds size (enrichment_pipe self)
      (ConversionResult.output (conv_res w)) plan r
    ∧ calls w' = calls w ++ pipe_calls (enrichment_pipe self) plan
    ∧ (length plan ≤ length (enrichment_pipe self))%nat
    ∧ (r = Returns () → length plan = length (enrichment_pipe self))
    ∧ (∀ e, r = Raises e →
         ∃ model,
           enrichment_pipe self !! (length plan - 1)%nat = Some model
           ∧ ((∃ element_batch doc_then,
                 last (calls w') = Some (CallModel (model_name model) element_batch)
                 ∧ (call model doc_then element_batch).1 = Raises e
                 ∧ ConversionResult.output (conv_res w')
                   = after model doc_then element_batch)
              ∨ (∃ pos,
                   pull_raises model size (ConversionResult.output (conv_res w'))
                     pos e))).
Proof.
  intros w Hb. cbn zeta. unfold _enrich_document.
  destruct (run_enrich_pipe settings (enrichment_pipe self) w Hb)
    as (plan & Hplan & Hlen & Hall & Hworld).
  destruct (run (for_each (enrichment_pipe self) (enrich_with settings)) w)
    as [r w'].
  cbn [fst snd] in *. subst w'. exists plan.
  split_and!; [done|done|done|done|].
  intros e ->.
  destruct (pipe_rounds_Raises _ _ _ _ _ Hplan) as (model & Hat & Hhow).
  exists model. split; [done|].
  assert (ConversionResult.output
            (ConversionResult.with_output
               (enriched_by_pipe (enrichment_pipe self) plan
                  (ConversionResult.output (conv_res w))) (conv_res w))
          = enriched_by_pipe (enrichment_pipe self) plan
              (ConversionResult.output (conv_res w))) as Hout
    by (by destruct (conv_res w)).
  cbn [calls conv_res]. rewrite Hout, last_app.
  destruct Hhow as [(element_batch & doc_then & Hlast & Hraise & Hdoc)|Hpull].
  - left. exists element_batch, doc_then. by rewrite Hlast.
  - by right.
Qed.

Lemma enrich_document_stops_witness :
  let r := (run (_enrich_document Settings.settings failing_pipeline) assembled).1 in
  let w' := (run (_enrich_document Settings.settings failing_pipeline) assembled).2 in
  r = Raises (RuntimeError "out of memory")
  ∧ batch_sizes (calls w') = [16; 16]%nat
  ∧ ∃ plan,
      pipe_rounds 16 (enrichment_pipe failing_pipeline)
        (ConversionResult.output (conv_res assembled)) plan r
      ∧ calls w' = calls assembled ++ pipe_calls (enrichment_pipe failing_pipeline) plan
      ∧ (length plan ≤ length (enrichment_pipe failing_pipeline))%nat
      ∧ (r = Returns () → length plan = length (enrichment_pipe failing_pipeline))
      ∧ (∀ e, r = Raises e →
           ∃ model,
             enrichment_pipe failing_pipeline !! (length plan - 1)%nat = Some model
             ∧ ((∃ element_batch doc_then,
                   last (calls w') = Some (CallModel (model_name model) element_batch)
                   ∧ (call model doc_then element_batch).1 = Raises e
                   ∧ ConversionResult.output (conv_res w')
                     = after model doc_then element_batch)
                ∨ (∃ pos,
                     pull_raises model 16 (ConversionResult.output (conv_res w'))
                       pos e))).
Proof.
  split; [vm_compute; reflexivity|]. split; [vm_compute; reflexivity|].
  apply (enrich_document_stops Settings.settings failing_pipeline assembled).
  cbn. lia.
Defined.

(** ** A chain of steps, page by page *)

Lemma pull_pages_no_fault steps page_batch :
  Forall (λ page, (through_stages steps page).2 = None) page_batch →
  pull_pages steps page_batch
  = ((λ page, (through_stages steps page).1) <$> page_batch, None).
Proof.
  induction 1 as [|page rest Hpage _ IH]; [done|].
  cbn [pull_pages fmap list_fmap].
  destruct (through_stages steps page) as [page' fault]. cbn in Hpage. subst fault.
  by rewrite IH.
Qed.

(** X9.  The drain of a batch through a chain of steps gives back as many
    pages as it was given.  When no step raises, every page went through the
    whole chain.  When a step raises on a page, the pages before it went
    through the whole chain, the page itself is left as the steps up to the
    raise left it, and the pages behind it were not touched: they are not
    even initialised. *)
Theorem pull_pages_shape steps page_batch :
  length (pull_pages steps page_batch).1 = length page_batch
  ∧ (Forall (λ page, (through_stages steps page).2 = None) page_batch →
     pull_pages steps page_batch
     = ((λ page, (through_stages steps page).1) <$> page_batch, None))
  ∧ (∀ before page after e,
       page_batch = before ++ page :: after →
       Forall (λ page, (through_stages steps page).2 = None) before →
       (through_stages steps page).2 = Some e →
       pull_pages steps page_batch
       = (((λ page, (through_stages steps page).1) <$> before)
          ++ (through_stages steps page).1 :: after,
          Some e)).
Proof.
  split_and!.
  - induction page_batch as [|page rest IH]; [done|]. cbn [pull_pages].
    destruct (through_stages steps page) as [page' [e|]]; [done|].
    destruct (pull_pages steps rest) as [rest' fault]. cbn in *. by rewrite IH.
  - apply pull_pages_no_fault.
  - intros before page after e -> Hbefore Hpage.
    induction Hbefore as [|p before Hp _ IH].
    + cbn. destruct (through_stages steps page) as [page' fault].
      cbn in Hpage. by subst fault.
    + cbn [app pull_pages fmap list_fmap].
      destruct (through_stages steps p) as [p' fault]. cbn in Hp. subst fault.
      by rewrite IH.
Qed.

Lemma pull_pages_shape_witness :
  pull_pages [λ page, (initialized page, None);
              λ page, (page, if bool_decide (Page.page_no page = 1)
                             then Some KeyboardInterrupt else None)]
    ([Page.new 0] ++ Page.new 1 :: [Page.new 2])
  = (((λ page,
         (through_stages
            [λ page, (initialized page, None);
             λ page, (page, if bool_decide (Page.page_no page = 1)
                            then Some KeyboardInterrupt else None)] page).1)
        <$> [Page.new 0])
     ++ (through_stages
           [λ page, (initialized page, None);
            λ page, (page, if bool_decide (Page.page_no page = 1)
                           then Some KeyboardInterrupt else None)]
           (Page.new 1)).1 :: [Page.new 2],
     Some KeyboardInterrupt).
Proof.
  apply (proj2 (proj2 (pull_pages_shape
           [λ page, (initialized page, None);
            λ page, (page, if bool_decide (Page.page_no page = 1)
                           then Some KeyboardInterrupt else None)]
           ([Page.new 0] ++ Page.new 1 :: [Page.new 2])))
           [Page.new 0] (Page.new 1) [Page.new 2] KeyboardInterrupt).
  - reflexivity.
  - repeat constructor.
  - reflexivity.
Defined.

(** ** The streams of the PowerPoint backend *)

(** X10.  [unload()] of the PowerPoint backend touches the stream that the
    backend holds, and that one only: every other stream is as it was, no
    stream appears or disappears, and a backend made from a path touches
    none.  The document hash stays.  When it returns, [path_or_stream] is
    [None] and the stream that the backend held is closed.  When it raises,
    it raises the [BufferError] of [close()], the backend held a stream with a
    view of its buffer alive, and nothing has changed. *)
Theorem mspowerpoint_unload_streams (st : MsPowerpoint.state) :
  let r := (MsPowerpoint.unload st).1 in
  let st' := (MsPowerpoint.unload st).2 in
  MsPowerpoint.document_hash (MsPowerpoint.self st')
  = MsPowerpoint.document_hash (MsPowerpoint.self st)
  ∧ dom (MsPowerpoint.streams st') = dom (MsPowerpoint.streams st)
  ∧ (∀ a, MsPowerpoint.path_or_stream (MsPowerpoint.self st)
          ≠ Some (MsPowerpoint.SrcBytesIO a) →
          MsPowerpoint.streams st' !! a = MsPowerpoint.streams st !! a)
  ∧ (r = Returns () →
     MsPowerpoint.path_or_stream (MsPowerpoint.self st') = None
     ∧ ¬ MsPowerpoint.exported st
     ∧ ∀ a s, MsPowerpoint.path_or_stream (MsPowerpoint.self st)
              = Some (MsPowerpoint.SrcBytesIO a) →
              MsPowerpoint.streams st !! a = Some s →
              ∃ s', MsPowerpoint.streams st' !! a = Some s'
                    ∧ MsPowerpoint.closed s' = true)
  ∧ (∀ e, r = Raises e →
          e = MsPowerpoint.BufferError ∧ st' = st ∧ MsPowerpoint.exported st).
Proof.
  cbn zeta.
  destruct (mspowerpoint_unload_cases st)
    as [[Hexp Hrun]|(Hexp & streams' & Hrun & Hdom & Hother & Hheld)];
    rewrite Hrun; cbn [fst snd MsPowerpoint.self MsPowerpoint.streams
                       MsPowerpoint.document_hash MsPowerpoint.path_or_stream].
  - split_and!; [done|done|done|done|]. by intros e [= <-].
  - split_and!; [done|done|done| |done].
    intros _. split_and!; [done|done|].
    intros a s Ha Hs. rewrite (Hheld a s Ha Hs). by eexists.
Qed.

(** ** The image cache of a page *)

Section GetImageFacts.
Context {Scale : Type} `{Countable Scale} {Image : Type}.
Implicit Types (render : PdfPageBackend → Scale → outcome Image).
Implicit Types (self : PageImage.t (Scale:=Scale) (Image:=Image)).

Lemma get_image_step render self scale :
  let self' := (PageImage.get_image render self scale).2 in
  PageImage.page self' = PageImage.page self
  ∧ PageImage._default_image_scale self' = PageImage._default_image_scale self
  ∧ PageImage._image_cache self ⊆ PageImage._image_cache self'
  ∧ dom (PageImage._image_cache self')
    ⊆ dom (PageImage._image_cache self) ∪ {[scale]}
  ∧ (Page._backend (PageImage.page self) = None → self' = self).
Proof.
  assert (Hsame : PageImage.page self = PageImage.page self
    ∧ PageImage._default_image_scale self = PageImage._default_image_scale self
    ∧ PageImage._image_cache self ⊆ PageImage._image_cache self
    ∧ dom (PageImage._image_cache self)
      ⊆ dom (PageImage._image_cache self) ∪ {[scale]}
    ∧ (Page._backend (PageImage.page self) = None → self = self)).
  { split_and!; [done|done|done|set_solver|done]. }
  unfold PageImage.get_image.
  destruct (Page._backend (PageImage.page self)) as [backend|]; [|exact Hsame].
  destruct (PageImage._image_cache self !! scale) as [image|] eqn:Hcache;
    [exact Hsame|].
  destruct (render backend scale) as [image|e]; [|exact Hsame].
  cbn. split_and!; [done|done| | |done].
  - by apply insert_subseteq.
  - by rewrite dom_insert_L, (comm_L (∪)).
Qed.
End GetImageFacts.

(** X11.  An image that [get_image] has handed out is kept: a later call at
    the same scale returns the same image and changes nothing, whatever the
    backend would render then, and also when the backend back-reference has
    been cleared or replaced in between. *)
Theorem get_image_cached {Scale : Type} `{Countable Scale} {Image : Type}
    (render render' : PdfPageBackend → Scale → outcome Image)
    (backend' : option PdfPageBackend)
    (self self1 : PageImage.t) (scale : Scale) (image : Image) :
  PageImage.get_image render self scale = (Returns (Some image), self1) →
  PageImage.get_image render' (PageImage.with_backend backend' self1) scale
  = (Returns (Some image), PageImage.with_backend backend' self1).
Proof.
  unfold PageImage.get_image at 1.
  assert (Hhit : PageImage._image_cache self1 !! scale = Some image →
    PageImage.get_image render' (PageImage.with_backend backend' self1) scale
    = (Returns (Some image), PageImage.with_backend backend' self1)).
  { intros Hcache. unfold PageImage.get_image. cbn. rewrite Hcache.
    by destruct backend'. }
  destruct (Page._backend (PageImage.page self)) as [backend|].
  - destruct (PageImage._image_cache self !! scale) as [cached|] eqn:Hcache.
    + intros [= <- <-]. by apply Hhit.
    + destruct (render backend scale) as [rendered|e]; [|done].
      intros [= <- <-]. apply Hhit. cbn. by rewrite lookup_insert_eq.
  - intros [= Hcache <-]. by apply Hhit.
Qed.

Lemma get_image_cached_witness :
  PageImage.get_image (λ _ _, Raises (RuntimeError "backend is gone"))
    (PageImage.with_backend None
       (PageImage.get_image rendering page_with_images 2).2) 2
  = (Returns (Some "PyPdfiumPageBackend@2"),
     PageImage.with_backend None
       (PageImage.get_image rendering page_with_images 2).2).
Proof.
  apply (get_image_cached rendering (λ _ _, Raises (RuntimeError "backend is gone"))
           None page_with_images).
  reflexivity.
Defined.

(** X12.  Over any series of [get_image] calls, the page and its default
    scale stay, and the cache only grows: an image once cached is neither
    dropped nor replaced.  A page without backend is not changed at all: it
    serves what is cached and renders nothing. *)
Theorem get_image_series {Scale : Type} `{Countable Scale} {Image : Type}
    (render : PdfPageBackend → Scale → outcome Image)
    (self self' : PageImage.t) :
  rtc (PageImage.asked render) self self' →
  PageImage.page self' = PageImage.page self
  ∧ PageImage._default_image_scale self' = PageImage._default_image_scale self
  ∧ PageImage._image_cache self ⊆ PageImage._image_cache self'
  ∧ (Page._backend (PageImage.page self) = None → self' = self).
Proof.
  induction 1 as [self|self self1 self' [scale <-] _ IH]; [done|].
  destruct (get_image_step render self scale) as (Hpage & Hscale & Hcache & _ & Hnone).
  destruct IH as (Hpage' & Hscale' & Hcache' & Hnone').
  split_and!.
  - congruence.
  - congruence.
  - by etrans.
  - intros Hb. rewrite Hnone' by (by rewrite Hpage). by apply Hnone.
Qed.

Lemma get_image_series_witness :
  let self' :=
    (PageImage.get_image rendering
       (PageImage.get_image rendering page_with_images 2).2 1).2 in
  PageImage.page self' = PageImage.page page_with_images
  ∧ PageImage._default_image_scale self'
    = PageImage._default_image_scale page_with_images
  ∧ PageImage._image_cache page_with_images ⊆ PageImage._image_cache self'
  ∧ (Page._backend (PageImage.page page_with_images) = None
     → self' = page_with_images).
Proof.
  apply (get_image_series rendering page_with_images).
  eapply rtc_l; [by exists 2|]. eapply rtc_l; [by exists 1|]. done.
Defined.

(** X13.  A call of [get_image] that raises, because the backend does, has
    changed nothing; it raises only on a page that has a backend and no image
    cached at that scale.  A call that returns no image is one on a page
    whose backend is cleared, at a scale that is not cached. *)
Theorem get_image_failure {Scale : Type} `{Countable Scale} {Image : Type}
    (render : PdfPageBackend → Scale → outcome Image)
    (self : PageImage.t) (scale : Scale) :
  let r := (PageImage.get_image render self scale).1 in
  let self' := (PageImage.get_image render self scale).2 in
  (∀ e, r = Raises e →
        self' = self
        ∧ PageImage._image_cache self !! scale = None
        ∧ ∃ backend, Page._backend (PageImage.page self) = Some backend
                     ∧ render backend scale = Raises e)
  ∧ (r = Returns None →
     self' = self
     ∧ PageImage._image_cache self !! scale = None
     ∧ Page._backend (PageImage.page self) = None).
Proof.
  unfold PageImage.get_image.
  destruct (Page._backend (PageImage.page self)) as [backend|].
  - destruct (PageImage._image_cache self !! scale) as [cached|] eqn:Hcache;
      [by cbn|].
    destruct (render backend scale) as [rendered|e] eqn:Hrender; [by cbn|].
    cbn. split; [|done]. intros e' [= <-]. split_and!; [done..|]. by exists backend.
  - cbn. split; [done|]. by intros [= ->].
Qed.

Lemma get_image_failure_witness :
  (PageImage.get_image (λ _ _, Raises (RuntimeError "page not rendered"))
     page_with_images 2).2 = page_with_images
  ∧ PageImage._image_cache page_with_images !! 2 = None
  ∧ ∃ backend,
      Page._backend (PageImage.page page_with_images) = Some backend
      ∧ (λ (_ : PdfPageBackend) (_ : Z), Raises (RuntimeError "page not rendered"))
          backend 2
        = Raises (A:=string) (RuntimeError "page not rendered").
Proof.
  apply (proj1 (get_image_failure
                  (λ _ _, Raises (RuntimeError "page not rendered"))
                  page_with_images 2)
           (RuntimeError "page not rendered")).
  reflexivity.
Defined.

(** ** The checks of the test suite *)

Section OutcomeFacts.
Import VerifyUtils.

Lemma outcome_bind_Returns {A B} (o : outcome A) (k : A → outcome B) b :
  o ≫= k = Returns b ↔ ∃ a, o = Returns a ∧ k a = Returns b.
Proof.
  destruct o as [a|e]; cbn.
  - split; [by exists a|by intros (? & [= <-] & ?)].
  - split; [done|by intros (? & ? & ?)].
Qed.

Lemma assert_Returns (P : Prop) `{Decision P} msg : assert P msg = Returns () ↔ P.
Proof. unfold assert. by destruct (decide P). Qed.

Lemma index_Returns {A} (xs : list A) i x : index xs i = Returns x ↔ xs !! i = Some x.
Proof. unfold index. destruct (xs !! i); naive_solver. Qed.

Lemma checked_bind (o : outcome unit) (k : unit → outcome unit) :
  checked o → checked (k ()) → checked (o ≫= k).
Proof. intros [->|[[msg ->]| ->]] Hk; cbn; [done|right; left; by eexists|by right; right]. Qed.

Lemma checked_assert (P : Prop) `{Decision P} msg : checked (assert P msg).
Proof. unfold assert. destruct (decide P); [by left|right; left; by eexists]. Qed.

Lemma checked_index {A} (xs : list A) i (k : A → outcome unit) :
  (∀ x, checked (k x)) → checked (index xs i ≫= k).
Proof. intros Hk. unfold index. destruct (xs !! i); cbn; [done|by right; right]. Qed.

Lemma verdict_bind (o : outcome unit) (k : unit → outcome bool) :
  checked o → verdict (k ()) → verdict (o ≫= k).
Proof. intros [->|[[msg ->]| ->]] Hk; cbn; [done|right; left; by eexists|by right; right]. Qed.

Lemma verdict_of_checked (o : outcome unit) :
  checked o → verdict (o ≫= λ _, Returns true).
Proof. intros [->|[[msg ->]| ->]]; cbn; [by left|right; left; by eexists|by right; right]. Qed.

Section GridFacts.
Context {C : Type} (check_cell : C → C → outcome unit) (agree : C → C → Prop).
Context (check_cell_agree : ∀ c c', check_cell c c' = Returns () ↔ agree c c').
Context (check_cell_checked : ∀ c c', checked (check_cell c c')).

Lemma check_row_Returns pred_grid i true_row : ∀ j,
  check_row check_cell pred_grid i j true_row = Returns () ↔
  ∀ k true_cell, true_row !! k = Some true_cell →
    ∃ pred_row pred_cell,
      pred_grid !! i = Some pred_row ∧ pred_row !! (j + k)%nat = Some pred_cell
      ∧ agree true_cell pred_cell.
Proof.
  induction true_row as [|c rest IH]; intros j; cbn [check_row].
  - split; [by intros _ k ?|done].
  - unfold index.
    destruct (pred_grid !! i) as [pred_row|] eqn:Hrow; cbn.
    2:{ split; [done|]. intros Hall.
        by destruct (Hall 0%nat c eq_refl) as (? & ? & ? & _). }
    destruct (pred_row !! j) as [pred_cell|] eqn:Hcell; cbn.
    2:{ split; [done|]. intros Hall.
        destruct (Hall 0%nat c eq_refl) as (row & cell & [= <-] & Hc & _).
        rewrite Nat.add_0_r in Hc. congruence. }
    destruct (check_cell c pred_cell) as [[]|e] eqn:Hcheck; cbn.
    2:{ split; [done|]. intros Hall.
        destruct (Hall 0%nat c eq_refl) as (row & cell & [= <-] & Hc & Hagree).
        rewrite Nat.add_0_r, Hcell in Hc. injection Hc as <-.
        apply check_cell_agree in Hagree. congruence. }
    rewrite IH. split.
    + intros Hrest [|k] c'.
      * intros [= <-]. exists pred_row, pred_cell. rewrite Nat.add_0_r.
        split_and!; [done|done|by apply check_cell_agree].
      * intros Hk. destruct (Hrest k c' Hk) as (row & cell & ? & ? & ?).
        exists row, cell. by rewrite Nat.add_succ_r.
    + intros Hall k c' Hk.
      destruct (Hall (S k) c' Hk) as (row & cell & ? & ? & ?).
      exists row, cell. by replace (S j + k)%nat with (j + S k)%nat by lia.
Qed.

Lemma check_rows_Returns pred_grid true_grid : ∀ i,
  check_rows check_cell pred_grid i true_grid = Returns () ↔
  ∀ k j true_row true_cell,
    true_grid !! k = Some true_row → true_row !! j = Some true_cell →
    ∃ pred_row pred_cell,
      pred_grid !! (i + k)%nat = Some pred_row ∧ pred_row !! j = Some pred_cell
      ∧ agree true_cell pred_cell.
Proof.
  induction true_grid as [|row rest IH]; intros i; cbn [check_rows].
  - split; [by intros _ k ?|done].
  - destruct (check_row check_cell pred_grid i 0 row) as [[]|e] eqn:Hrow; cbn.
    + pose proof (proj1 (check_row_Returns _ _ _ _) Hrow) as Hrow'.
      rewrite IH. split.
      * intros Hrest [|k] j true_row true_cell.
        -- intros [= <-] Hj. rewrite Nat.add_0_r. by apply Hrow'.
        -- intros Hk Hj. rewrite Nat.add_succ_r. by eapply Hrest.
      * intros Hall k j true_row true_cell Hk Hj.
        specialize (Hall (S k) j true_row true_cell Hk Hj).
        by rewrite Nat.add_succ_r in Hall.
    + split; [done|]. intros Hall.
      assert (check_row check_cell pred_grid i 0 row = Returns ()) as Hok; [|congruence].
      apply (proj2 (check_row_Returns _ _ _ _)). intros k c Hk.
      specialize (Hall 0%nat k row c eq_refl Hk). by rewrite Nat.add_0_r in Hall.
Qed.

Lemma check_rows_covers pred_grid true_grid :
  check_rows check_cell pred_grid 0 true_grid = Returns () ↔
  covers agree pred_grid true_grid.
Proof. rewrite check_rows_Returns. unfold covers. split; intros Hall; exact Hall. Qed.

Lemma check_row_checked pred_grid i true_row : ∀ j,
  checked (check_row check_cell pred_grid i j true_row).
Proof.
  induction true_row as [|c rest IH]; intros j; cbn [check_row]; [by left|].
  apply checked_index. intros pred_row. apply checked_index. intros pred_cell.
  by apply checked_bind.
Qed.

Lemma check_rows_checked pred_grid true_grid : ∀ i,
  checked (check_rows check_cell pred_grid i true_grid).
Proof.
  induction true_grid as [|row rest IH]; intros i; cbn [check_rows]; [by left|].
  apply checked_bind; [apply check_row_checked|apply IH].
Qed.
End GridFacts.
End OutcomeFacts.

Section VerifyCellsFacts.
Import VerifyUtils.
Context {P C B : Type}.
Context (cells : P → list C) (text : C → string) (bbox_as_tuple : C → B).
Context (tuple_eq : B → B → bool) (show : B → string).

Local Abbreviation verify_page_cells := (verify_page_cells cells text bbox_as_tuple tuple_eq show).
Local Abbreviation verify_pages := (verify_pages cells text bbox_as_tuple tuple_eq show).
Local Abbreviation same_cell := (same_cell text bbox_as_tuple tuple_eq).

Lemma verify_page_cells_Returns page_pred true_cells : ∀ cid,
  verify_page_cells page_pred cid true_cells = Returns () ↔
  ∀ k cell_true, true_cells !! k = Some cell_true →
    ∃ cell_pred, cells page_pred !! (cid + k)%nat = Some cell_pred
                 ∧ same_cell cell_pred cell_true.
Proof.
  induction true_cells as [|c rest IH]; intros cid; cbn [VerifyUtils.verify_page_cells].
  - split; [by intros _ k ?|done].
  - unfold index.
    destruct (cells page_pred !! cid) as [cell_pred|] eqn:Hcell; cbn.
    2:{ split; [done|]. intros Hall.
        destruct (Hall 0%nat c eq_refl) as (cell & Hc & _).
        rewrite Nat.add_0_r in Hc. congruence. }
    unfold assert.
    destruct (decide (text c = text cell_pred)) as [Htext|Htext]; cbn.
    2:{ split; [done|]. intros Hall.
        destruct (Hall 0%nat c eq_refl) as (cell & Hc & Hsame & _).
        rewrite Nat.add_0_r in Hc. congruence. }
    destruct (decide (tuple_eq (bbox_as_tuple c) (bbox_as_tuple cell_pred) = true)) as [Hbox|Hbox]; cbn.
    2:{ split; [done|]. intros Hall.
        destruct (Hall 0%nat c eq_refl) as (cell & Hc & _ & Hsame).
        rewrite Nat.add_0_r in Hc. congruence. }
    rewrite IH. split.
    + intros Hrest [|k] c'.
      * intros [= <-]. exists cell_pred. by rewrite Nat.add_0_r.
      * intros Hk. destruct (Hrest k c' Hk) as (cell & ? & ?).
        exists cell. by rewrite Nat.add_succ_r.
    + intros Hall k c' Hk. destruct (Hall (S k) c' Hk) as (cell & ? & ?).
      exists cell. by replace (S cid + k)%nat with (cid + S k)%nat by lia.
Qed.

Lemma verify_page_cells_in_range page_pred true_cells : ∀ cid,
  (cid + length true_cells ≤ length (cells page_pred))%nat →
  verify_page_cells page_pred cid true_cells = Returns ()
  ∨ ∃ msg, verify_page_cells page_pred cid true_cells = Raises (AssertionError msg).
Proof.
  induction true_cells as [|c rest IH]; intros cid Hlen;
    cbn [VerifyUtils.verify_page_cells]; [by left|].
  cbn in Hlen. unfold index.
  destruct (lookup_lt_is_Some_2 (cells page_pred) cid ltac:(lia)) as [cell_pred ->].
  cbn. unfold assert.
  destruct (decide (text c = text cell_pred)); cbn; [|right; by eexists].
  destruct (decide (tuple_eq (bbox_as_tuple c) (bbox_as_tuple cell_pred) = true)); cbn;
    [|right; by eexists].
  apply IH. lia.
Qed.

Lemma verify_pages_Returns doc_pred_pages true_pages : ∀ pid,
  verify_pages doc_pred_pages pid true_pages = Returns () ↔
  ∀ k page_true, true_pages !! k = Some page_true →
    ∃ page_pred, doc_pred_pages !! (pid + k)%nat = Some page_pred
                 ∧ Forall2 same_cell (cells page_pred) (cells page_true).
Proof.
  induction true_pages as [|page_true rest IH]; intros pid;
    cbn [VerifyUtils.verify_pages].
  - split; [by intros _ k ?|done].
  - unfold index.
    destruct (doc_pred_pages !! pid) as [page_pred|] eqn:Hpage; cbn.
    2:{ split; [done|]. intros Hall.
        destruct (Hall 0%nat page_true eq_refl) as (page & Hp & _).
        rewrite Nat.add_0_r in Hp. congruence. }
    unfold assert.
    destruct (decide (length (cells page_true) = length (cells page_pred)))
      as [Hlen|Hlen]; cbn.
    2:{ split; [done|]. intros Hall.
        destruct (Hall 0%nat page_true eq_refl) as (page & Hp & Hsame).
        rewrite Nat.add_0_r in Hp. apply Forall2_length in Hsame. congruence. }
    assert (Hcells : verify_page_cells page_pred 0 (cells page_true) = Returns ()
                     ↔ Forall2 same_cell (cells page_pred) (cells page_true)).
    { rewrite verify_page_cells_Returns, Forall2_same_length_lookup. split.
      - intros Hall. split; [done|]. intros i x y Hx Hy.
        destruct (Hall i y Hy) as (cell & Hc & Hsame). cbn in Hc. congruence.
      - intros [_ Hall] k cell_true Hk.
        destruct (lookup_lt_is_Some_2 (cells page_pred) k) as [cell Hc].
        { rewrite <- Hlen. by eapply lookup_lt_Some. }
        exists cell. split; [done|]. by eapply Hall. }
    destruct (verify_page_cells page_pred 0 (cells page_true)) as [[]|e] eqn:Hrun; cbn.
    + rewrite IH. split.
      * intros Hrest [|k] page.
        -- intros [= <-]. exists page_pred. rewrite Nat.add_0_r.
           split; [done|by apply Hcells].
        -- intros Hk. destruct (Hrest k page Hk) as (p & ? & ?).
           exists p. by rewrite Nat.add_succ_r.
      * intros Hall k page Hk. destruct (Hall (S k) page Hk) as (p & ? & ?).
        exists p. by replace (S pid + k)%nat with (pid + S k)%nat by lia.
    + split; [done|]. intros Hall.
      destruct (Hall 0%nat page_true eq_refl) as (page & Hp & Hsame).
      rewrite Nat.add_0_r, Hpage in Hp. injection Hp as <-.
      apply Hcells in Hsame. congruence.
Qed.

Lemma verify_pages_in_range doc_pred_pages true_pages : ∀ pid,
  (pid + length true_pages ≤ length doc_pred_pages)%nat →
  verify_pages doc_pred_pages pid true_pages = Returns ()
  ∨ ∃ msg, verify_pages doc_pred_pages pid true_pages = Raises (AssertionError msg).
Proof.
  induction true_pages as [|page_true rest IH]; intros pid Hlen;
    cbn [VerifyUtils.verify_pages]; [by left|].
  cbn in Hlen. unfold index.
  destruct (lookup_lt_is_Some_2 doc_pred_pages pid ltac:(lia)) as [page_pred ->].
  cbn. unfold assert.
  destruct (decide (length (cells page_true) = length (cells page_pred))) as [Hcells|];
    cbn; [|right; by eexists].
  destruct (verify_page_cells_in_range page_pred (cells page_true) 0 ltac:(lia))
    as [->|[msg ->]]; cbn; [|right; by eexists].
  apply IH. lia.
Qed.

Lemma verify_cells_Returns doc_pred_pages doc_true_pages :
  verify_cells cells text bbox_as_tuple tuple_eq show doc_pred_pages doc_true_pages
  = Returns true
  ↔ same_cells cells text bbox_as_tuple tuple_eq doc_pred_pages doc_true_pages.
Proof.
  unfold verify_cells, same_cells, assert.
  destruct (decide (length doc_pred_pages = length doc_true_pages)) as [Hlen|Hlen]; cbn.
  2:{ split; [done|]. intros Hsame. by apply Forall2_length in Hsame. }
  rewrite Forall2_same_length_lookup.
  destruct (verify_pages doc_pred_pages 0 doc_true_pages) as [[]|e] eqn:Hrun; cbn.
  - pose proof (proj1 (verify_pages_Returns _ _ _) Hrun) as Hall.
    split; [|done]. intros _. split; [done|]. intros i x y Hx Hy.
    destruct (Hall i y Hy) as (page & Hp & Hsame). cbn in Hp. congruence.
  - split; [done|]. intros [_ Hall].
    assert (verify_pages doc_pred_pages 0 doc_true_pages = Returns ()) as Hok;
      [|congruence].
    apply (proj2 (verify_pages_Returns _ _ _)). intros k page_true Hk.
    destruct (lookup_lt_is_Some_2 doc_pred_pages k) as [page Hp].
    { rewrite Hlen. by eapply lookup_lt_Some. }
    exists page. split; [done|]. by eapply Hall.
Qed.

(** X14.  [verify_cells] returns [True] exactly when the two lists have the
    same number of pages, each page the same number of cells, and each cell
    the same text as its counterpart and a bounding box whose tuple [==]
    finds equal to that of its counterpart, whatever [==] does on the tuples;
    the ids of the cells are not compared.  In every other case an assertion
    fails: no list is ever indexed out of range, and [False] is never
    returned.  Nothing is assumed of [==] on the tuples: two lists of pages
    with the same texts and the same coordinates pass only if [==] holds of
    their tuples, which it does not when a coordinate is a NaN in both. *)
Theorem verify_cells_spec doc_pred_pages doc_true_pages :
  (verify_cells cells text bbox_as_tuple tuple_eq show doc_pred_pages doc_true_pages
   = Returns true
   ↔ same_cells cells text bbox_as_tuple tuple_eq doc_pred_pages doc_true_pages)
  ∧ (verify_cells cells text bbox_as_tuple tuple_eq show doc_pred_pages doc_true_pages
     = Returns true
     ∨ ∃ msg,
         verify_cells cells text bbox_as_tuple tuple_eq show doc_pred_pages doc_true_pages
         = Raises (AssertionError msg)).
Proof.
  split_and!.
  - apply verify_cells_Returns.
  - unfold verify_cells, assert.
    destruct (decide (length doc_pred_pages = length doc_true_pages)) as [Hlen|Hlen];
      cbn; [|right; by eexists].
    destruct (verify_pages_in_range doc_pred_pages doc_true_pages 0 ltac:(cbn; lia))
      as [->|[msg ->]]; cbn; [by left|right; by eexists].
Qed.
End VerifyCellsFacts.

Section VerifyTablesFacts.
Import VerifyUtils.

Lemma check_cell_v1_agree c c' : check_cell_v1 c c' = Returns () ↔ agree_v1 c c'.
Proof.
  unfold check_cell_v1, agree_v1, assert.
  repeat destruct (decide _); cbn;
    (split;
     [ first [done | intros _; by split_and!]
     | first [done | intros Hagree; destruct_and!; done] ]).
Qed.

Lemma check_cell_v1_checked c c' : checked (check_cell_v1 c c').
Proof. unfold check_cell_v1. repeat apply checked_bind; apply checked_assert. Qed.

Lemma check_cell_v2_agree c c' : check_cell_v2 c c' = Returns () ↔ agree_v2 c c'.
Proof.
  unfold check_cell_v2, agree_v2, assert.
  repeat destruct (decide _); cbn;
    (split;
     [ first [done | intros _; by split_and!]
     | first [done | intros Hagree; destruct_and!; done] ]).
Qed.

Lemma check_cell_v2_checked c c' : checked (check_cell_v2 c c').
Proof. unfold check_cell_v2. repeat apply checked_bind; apply checked_assert. Qed.

Lemma verify_table_items_v2_Returns pred_tables true_tables : ∀ l,
  verify_table_items_v2 pred_tables l true_tables = Returns () ↔
  ∀ k true_item, true_tables !! k = Some true_item →
    ∃ pred_item, pred_tables !! (l + k)%nat = Some pred_item
                 ∧ table_agrees_v2 pred_item true_item.
Proof.
  induction true_tables as [|t rest IH]; intros l; cbn [verify_table_items_v2].
  - split; [by intros _ k ?|done].
  - unfold index.
    destruct (pred_tables !! l) as [p|] eqn:Hp; cbn.
    2:{ split; [done|]. intros Hall.
        destruct (Hall 0%nat t eq_refl) as (p & Hp' & _).
        rewrite Nat.add_0_r in Hp'. congruence. }
    assert (Hhead : ∀ p', pred_tables !! (l + 0)%nat = Some p' → p' = p).
    { intros p'. rewrite Nat.add_0_r. congruence. }
    unfold assert.
    destruct (decide (num_rows (data t) = num_rows (data p))) as [Hrows|Hrows]; cbn.
    2:{ split; [done|]. intros Hall.
        destruct (Hall 0%nat t eq_refl) as (p' & ->%Hhead & ? & _). done. }
    destruct (decide (num_cols (data t) = num_cols (data p))) as [Hcols|Hcols]; cbn.
    2:{ split; [done|]. intros Hall.
        destruct (Hall 0%nat t eq_refl) as (p' & ->%Hhead & _ & ? & _). done. }
    destruct (check_rows check_cell_v2 (grid (data p)) 0 (grid (data t)))
      as [[]|e] eqn:Hgrid; cbn.
    + pose proof (proj1 (check_rows_covers _ _ check_cell_v2_agree _ _) Hgrid) as Hcov.
      rewrite IH. split.
      * intros Hrest [|k] t'.
        -- intros [= <-]. exists p. by rewrite Nat.add_0_r.
        -- intros Hk. destruct (Hrest k t' Hk) as (p' & ? & ?).
           exists p'. by rewrite Nat.add_succ_r.
      * intros Hall k t' Hk. destruct (Hall (S k) t' Hk) as (p' & ? & ?).
        exists p'. by replace (S l + k)%nat with (l + S k)%nat by lia.
    + split; [done|]. intros Hall.
      destruct (Hall 0%nat t eq_refl) as (p' & ->%Hhead & _ & _ & Hcov).
      apply (check_rows_covers _ _ check_cell_v2_agree) in Hcov. congruence.
Qed.

Lemma verify_table_items_v2_checked pred_tables true_tables : ∀ l,
  checked (verify_table_items_v2 pred_tables l true_tables).
Proof.
  induction true_tables as [|t rest IH]; intros l; cbn [verify_table_items_v2];
    [by left|].
  apply checked_index. intros p.
  repeat (apply checked_bind; [first [apply checked_assert
    | apply (check_rows_checked _ check_cell_v2_checked)]|]).
  apply IH.
Qed.

Lemma verify_tables_v2_Returns pred_tables true_tables :
  verify_tables_v2 pred_tables true_tables = Returns true
  ↔ Forall2 table_agrees_v2 pred_tables true_tables.
Proof.
  unfold verify_tables_v2, assert.
  destruct (decide (¬ (0 < length true_tables)%nat)) as [Hnone|Hsome].
  - destruct true_tables as [|t rest]; [|cbn in Hnone; lia].
    destruct (decide (length pred_tables = 0%nat)) as [Hp|Hp]; cbn.
    + apply nil_length_inv in Hp as ->. split; [by constructor|done].
    + split; [done|]. intros Hall. by apply Forall2_nil_inv_r in Hall as ->.
  - destruct (decide (0 < length pred_tables)%nat) as [Hp|Hp]; cbn.
    2:{ split; [done|]. intros Hall. apply Forall2_length in Hall. lia. }
    destruct (decide (length true_tables = length pred_tables)) as [Hlen|Hlen]; cbn.
    2:{ split; [done|]. intros Hall. by apply Forall2_length in Hall. }
    rewrite Forall2_same_length_lookup.
    destruct (verify_table_items_v2 pred_tables 0 true_tables) as [[]|e] eqn:Hrun; cbn.
    + pose proof (proj1 (verify_table_items_v2_Returns _ _ _) Hrun) as Hall.
      split; [|done]. intros _. split; [done|]. intros i x y Hx Hy.
      destruct (Hall i y Hy) as (p & Hp' & Hagree). cbn in Hp'. congruence.
    + split; [done|]. intros [_ Hall].
      assert (verify_table_items_v2 pred_tables 0 true_tables = Returns ()) as Hok;
        [|congruence].
      apply (proj2 (verify_table_items_v2_Returns _ _ _)). intros k t Hk.
      destruct (lookup_lt_is_Some_2 pred_tables k) as [p Hp'].
      { rewrite <- Hlen. by eapply lookup_lt_Some. }
      exists p. split; [done|]. by eapply Hall.
Qed.

(** X15.  [verify_tables_v2] returns [True] exactly when the two documents
    have the same number of tables and each predicted table has the row and
    column counts of its counterpart and, at the place of every cell of the
    true grid, a cell with the same text and the same three header flags.
    Otherwise it raises: an assertion fails, or the predicted grid is indexed
    out of range where it lacks a cell; [False] is never returned. *)
Theorem verify_tables_v2_spec pred_tables true_tables :
  (verify_tables_v2 pred_tables true_tables = Returns true
   ↔ Forall2 table_agrees_v2 pred_tables true_tables)
  ∧ verdict (verify_tables_v2 pred_tables true_tables).
Proof.
  split; [apply verify_tables_v2_Returns|].
  unfold verify_tables_v2.
  destruct (decide (¬ (0 < length true_tables)%nat)).
  - apply verdict_of_checked, checked_assert.
  - repeat (apply verdict_bind; [apply checked_assert|]).
    apply verdict_of_checked, verify_table_items_v2_checked.
Qed.

Lemma covers_extends {C} (agree : C → C → Prop) pred_grid larger true_grid :
  covers agree pred_grid true_grid → grid_extends pred_grid larger →
  covers agree larger true_grid.
Proof.
  intros Hcov Hext i j true_row true_cell Hi Hj.
  destruct (Hcov i j true_row true_cell Hi Hj) as (pred_row & pred_cell & Hrow & Hcell & Hagree).
  destruct (Hext i pred_row Hrow) as (row & Hlarger & Hprefix).
  exists row, pred_cell. split_and!; [done| |done].
  by eapply prefix_lookup_Some.
Qed.

(** X16.  [verify_tables_v2] looks at the predicted grid only where the true
    grid has a cell.  A prediction that passes still passes when its grids
    are given more cells at the end of their rows, or more rows, the row and
    column counts staying the same: what a prediction has beyond the true
    grid goes unnoticed. *)
Theorem verify_tables_v2_extends pred_tables larger_tables true_tables :
  verify_tables_v2 pred_tables true_tables = Returns true →
  Forall2 table_extends pred_tables larger_tables →
  verify_tables_v2 larger_tables true_tables = Returns true.
Proof.
  rewrite !verify_tables_v2_Returns. intros Hagree Hext.
  revert larger_tables Hext.
  induction Hagree as [|p t ps ts (Hrows & Hcols & Hcov) _ IH];
    intros larger Hext.
  - apply Forall2_nil_inv_l in Hext as ->. constructor.
  - apply Forall2_cons_inv_l in Hext as (q & qs & (Hr & Hc & Hgrid) & Hrest & ->).
    constructor; [|by apply IH].
    split_and!; [congruence|congruence|by eapply covers_extends].
Qed.

Lemma verify_tables_v2_extends_witness :
  verify_tables_v2
    [mkTableItem (mkTableData 1 2
       [[mkTableCell "a" true false false; mkTableCell "b" true false false;
         mkTableCell "stray" false false false];
        [mkTableCell "more" false false false]])]
    [mkTableItem (mkTableData 1 2
       [[mkTableCell "a" true false false; mkTableCell "b" true false false]])]
  = Returns true.
Proof.
  apply (verify_tables_v2_extends
           [mkTableItem (mkTableData 1 2
              [[mkTableCell "a" true false false; mkTableCell "b" true false false]])]).
  - reflexivity.
  - repeat constructor. intros [|[|i]] row; cbn; [|done..].
    intros [= <-]. eexists. split; [done|]. by eexists [_].
Defined.
End VerifyTablesFacts.

Section VerifyTablesV1Facts.
Import VerifyUtils.

Lemma verify_table_items_v1_Returns pred_tables true_tables : ∀ l,
  verify_table_items_v1 pred_tables l true_tables = Returns () ↔
  ∀ k true_item, true_tables !! k = Some true_item →
    ∃ pred_item, pred_tables !! (l + k)%nat = Some pred_item
                 ∧ table_agrees_v1 pred_item true_item.
Proof.
  induction true_tables as [|t rest IH]; intros l; cbn [verify_table_items_v1].
  - split; [by intros _ k ?|done].
  - unfold index.
    destruct (pred_tables !! l) as [p|] eqn:Hp; cbn.
    2:{ split; [done|]. intros Hall.
        destruct (Hall 0%nat t eq_refl) as (p & Hp' & _).
        rewrite Nat.add_0_r in Hp'. congruence. }
    assert (Hhead : ∀ p', pred_tables !! (l + 0)%nat = Some p' → p' = p).
    { intros p'. rewrite Nat.add_0_r. congruence. }
    unfold assert.
    destruct (decide (v1_num_rows t = v1_num_rows p)) as [Hrows|Hrows]; cbn.
    2:{ split; [done|]. intros Hall.
        destruct (Hall 0%nat t eq_refl) as (p' & ->%Hhead & ? & _). done. }
    destruct (decide (v1_num_cols t = v1_num_cols p)) as [Hcols|Hcols]; cbn.
    2:{ split; [done|]. intros Hall.
        destruct (Hall 0%nat t eq_refl) as (p' & ->%Hhead & _ & ? & _). done. }
    destruct (v1_data t) as [true_data|] eqn:Htrue; cbn.
    2:{ destruct (decide (None ≠ None)) as [Hne|_]; [by destruct Hne|].
        cbn. split; [done|]. intros Hall.
        destruct (Hall 0%nat t eq_refl)
          as (p' & _ & _ & _ & td & pd & Ht & _). congruence. }
    destruct (decide (Some true_data ≠ None)) as [_|Hne]; [|by destruct Hne]. cbn.
    destruct (v1_data p) as [pred_data|] eqn:Hpred; cbn.
    2:{ destruct (decide (None ≠ None)) as [Hne|_]; [by destruct Hne|].
        cbn. split; [done|]. intros Hall.
        destruct (Hall 0%nat t eq_refl)
          as (p' & ->%Hhead & _ & _ & td & pd & _ & Hpd & _). congruence. }
    destruct (decide (Some pred_data ≠ None)) as [_|Hne]; [|by destruct Hne]. cbn.
    destruct (check_rows check_cell_v1 pred_data 0 true_data) as [[]|e] eqn:Hgrid; cbn.
    + pose proof (proj1 (check_rows_covers _ _ check_cell_v1_agree _ _) Hgrid) as Hcov.
      rewrite IH. split.
      * intros Hrest [|k] t'.
        -- intros [= <-]. exists p. rewrite Nat.add_0_r. split; [done|].
           split_and!; [done..|]. by exists true_data, pred_data.
        -- intros Hk. destruct (Hrest k t' Hk) as (p' & ? & ?).
           exists p'. by rewrite Nat.add_succ_r.
      * intros Hall k t' Hk. destruct (Hall (S k) t' Hk) as (p' & ? & ?).
        exists p'. by replace (S l + k)%nat with (l + S k)%nat by lia.
    + split; [done|]. intros Hall.
      destruct (Hall 0%nat t eq_refl)
        as (p' & ->%Hhead & _ & _ & td & pd & Htd & Hpd & Hcov).
      rewrite Htrue in Htd. rewrite Hpred in Hpd.
      injection Htd as <-. injection Hpd as <-.
      apply (check_rows_covers _ _ check_cell_v1_agree) in Hcov. congruence.
Qed.

Lemma verify_table_items_v1_checked pred_tables true_tables : ∀ l,
  checked (verify_table_items_v1 pred_tables l true_tables).
Proof.
  induction true_tables as [|t rest IH]; intros l; cbn [verify_table_items_v1];
    [by left|].
  apply checked_index. intros p.
  repeat (apply checked_bind; [apply checked_assert|]).
  apply checked_bind; [|apply IH].
  destruct (v1_data t), (v1_data p); try by left.
  apply (check_rows_checked _ check_cell_v1_checked).
Qed.

(** X17.  [verify_tables_v1] returns [True] exactly when neither document
    has a table list, or both have one, of the same length, and each
    predicted table has the row and column counts of its counterpart, both
    have table data, and the predicted data has, at the place of every cell
    of the true data, a cell with the same text and the same type.  Otherwise
    it raises: an assertion fails, or the predicted data is indexed out of
    range; [False] is never returned.  A true row without cells asks nothing
    of the prediction. *)
Theorem verify_tables_v1_spec doc_pred doc_true :
  (verify_tables_v1 doc_pred doc_true = Returns true
   ↔ tables_agree_v1 doc_pred doc_true)
  ∧ verdict (verify_tables_v1 doc_pred doc_true).
Proof.
  unfold verify_tables_v1, tables_agree_v1. split.
  - unfold assert.
    destruct (v1_tables doc_true) as [true_tables|],
             (v1_tables doc_pred) as [pred_tables|].
    + destruct (decide (Some pred_tables ≠ None)) as [_|Hne]; [|by destruct Hne].
      cbn.
      destruct (decide (length true_tables = length pred_tables)) as [Hlen|Hlen]; cbn.
      2:{ split; [done|]. intros Hall. by apply Forall2_length in Hall. }
      rewrite Forall2_same_length_lookup.
      destruct (verify_table_items_v1 pred_tables 0 true_tables) as [[]|e] eqn:Hrun; cbn.
      * pose proof (proj1 (verify_table_items_v1_Returns _ _ _) Hrun) as Hall.
        split; [|done]. intros _. split; [done|]. intros i x y Hx Hy.
        destruct (Hall i y Hy) as (p & Hp' & Hagree). cbn in Hp'. congruence.
      * split; [done|]. intros [_ Hall].
        assert (verify_table_items_v1 pred_tables 0 true_tables = Returns ()) as Hok;
          [|congruence].
        apply (proj2 (verify_table_items_v1_Returns _ _ _)). intros k t Hk.
        destruct (lookup_lt_is_Some_2 pred_tables k) as [p Hp'].
        { rewrite <- Hlen. by eapply lookup_lt_Some. }
        exists p. split; [done|]. by eapply Hall.
    + by destruct (decide (None ≠ None)) as [Hne|_]; [destruct Hne|].
    + by destruct (decide (Some pred_tables = None)) as [Heq|_].
    + by destruct (decide (None = None)) as [_|Hne].
  - destruct (v1_tables doc_true) as [true_tables|].
    + apply verdict_bind; [apply checked_assert|].
      destruct (v1_tables doc_pred) as [pred_tables|]; [|by left].
      apply verdict_bind; [apply checked_assert|].
      apply verdict_of_checked, verify_table_items_v1_checked.
    + apply verdict_of_checked, checked_assert.
Qed.
End VerifyTablesV1Facts.


(** ** Tables of a slide *)

Section HandleTablesFacts.
Import PptxTables.
Context (strip : string → string) (int : string → outcome Z).

Local Abbreviation cells_before := (PptxTables.cells_before strip int).
Local Abbreviation made_from := (PptxTables.made_from strip int).
Local Abbreviation kept_at := (PptxTables.kept_at strip).

Lemma place_lt_next_col p (i j : nat) :
  place_lt p (Z.of_nat i, Z.of_nat j) → place_lt p (Z.of_nat i, Z.of_nat (S j)).
Proof. unfold place_lt; cbn. lia. Qed.

Lemma place_lt_next_row p (i j : nat) :
  place_lt p (Z.of_nat i, Z.of_nat j) → place_lt p (Z.of_nat (S i), 0).
Proof. unfold place_lt; cbn. lia. Qed.

Lemma drop_cons_lookup {A} (l : list A) j x rest :
  drop j l = x :: rest → l !! j = Some x ∧ drop (S j) l = rest.
Proof.
  intros Hdrop.
  assert (l !! j = Some x) as Hj.
  { rewrite <- (Nat.add_0_r j), <- lookup_drop, Hdrop. done. }
  split; [done|].
  rewrite (drop_S _ _ _ Hj) in Hdrop. by injection Hdrop.
Qed.

(** A cell with no XML node, or with a blank text, is passed over. *)
Lemma cells_before_skip shape i j row tcells :
  rows shape !! i = Some row →
  (∀ source, row !! j = Some source →
     xpath shape (i + 1) (j + 1) = [] ∨ ¬ (0 < String.length (strip source))%nat) →
  cells_before shape (Z.of_nat i, Z.of_nat j) tcells →
  cells_before shape (Z.of_nat i, Z.of_nat (S j)) tcells.
Proof.
  intros Hrow Hskip (Hmade & Hlt & Hsorted & Hall).
  split_and!; [done| |done|].
  - eapply Forall_impl; [exact Hlt|]. intros c. apply place_lt_next_col.
  - intros i' j' Hkept Hplace.
    destruct (decide (i' = i ∧ j' = j)) as [[-> ->]|Hne].
    + destruct Hkept as (row' & source & Hrow' & Hsource & Hxml & Hlen).
      rewrite Hrow in Hrow'. injection Hrow' as <-.
      destruct (Hskip _ Hsource); done.
    + apply Hall; [done|]. unfold place_lt in *; cbn in *. lia.
Qed.

(** A cell with an XML node and a text is appended. *)
Lemma cells_before_append shape i j row source icell tcells :
  rows shape !! i = Some row → row !! j = Some source →
  made_from shape icell →
  place icell = (Z.of_nat i, Z.of_nat j) →
  cells_before shape (Z.of_nat i, Z.of_nat j) tcells →
  cells_before shape (Z.of_nat i, Z.of_nat (S j)) (tcells ++ [icell]).
Proof.
  intros Hrow Hsource Hicell Hplace (Hmade & Hlt & Hsorted & Hall).
  split_and!.
  - apply Forall_app. split; [done|]. by apply Forall_singleton.
  - apply Forall_app. split.
    + eapply Forall_impl; [exact Hlt|]. intros c. apply place_lt_next_col.
    + apply Forall_singleton. rewrite Hplace. unfold place_lt; cbn. lia.
  - apply StronglySorted_app. split_and!; [|done|repeat constructor].
    intros c d Hc Hd. apply list_elem_of_singleton in Hd as ->.
    rewrite Hplace. by apply (proj1 (Forall_forall _ _) Hlt).
  - intros i' j' Hkept Hbefore.
    destruct (decide (i' = i ∧ j' = j)) as [[-> ->]|Hne].
    + exists icell. split; [|done]. apply elem_of_app. right. by apply list_elem_of_singleton.
    + destruct (Hall i' j' Hkept) as (c & Hc & Hpc).
      { unfold place_lt in *; cbn in *. lia. }
      exists c. split; [|done]. apply elem_of_app. by left.
Qed.

(** Past the last cell of a row comes the next row. *)
Lemma cells_before_next_row shape i j row tcells :
  rows shape !! i = Some row → (length row ≤ j)%nat →
  cells_before shape (Z.of_nat i, Z.of_nat j) tcells →
  cells_before shape (Z.of_nat (S i), 0) tcells.
Proof.
  intros Hrow Hj (Hmade & Hlt & Hsorted & Hall).
  split_and!; [done| |done|].
  - eapply Forall_impl; [exact Hlt|]. intros c. apply place_lt_next_row.
  - intros i' j' Hkept Hbefore. apply Hall; [done|].
    destruct Hkept as (row' & source & Hrow' & Hsource & _).
    destruct (decide (i' = i)) as [->|Hne].
    + rewrite Hrow in Hrow'. injection Hrow' as <-.
      apply lookup_lt_Some in Hsource. unfold place_lt; cbn. lia.
    + unfold place_lt in *; cbn in *. lia.
Qed.

Lemma row_cells_before shape i row :
  rows shape !! i = Some row →
  ∀ cells j tcells out,
    drop j row = cells →
    row_cells strip int shape i j cells tcells = Returns out →
    cells_before shape (Z.of_nat i, Z.of_nat j) tcells →
    cells_before shape (Z.of_nat (S i), 0) out.
Proof.
  intros Hrow cells.
  induction cells as [|source rest IH]; intros j tcells out Hdrop Hrun Hinv.
  - cbn in Hrun. injection Hrun as <-.
    apply (cells_before_next_row shape i j row); [done| |done].
    apply drop_nil_inv in Hdrop. done.
  - apply drop_cons_lookup in Hdrop as [Hsource Hrest].
    cbn in Hrun.
    destruct (xpath shape (i + 1) (j + 1)) as [|cell_xml others] eqn:Hxml.
    + apply (IH (S j) tcells out Hrest Hrun).
      apply (cells_before_skip shape i j row); [done| |done].
      intros source' Hsource'. by left.
    + apply outcome_bind_Returns in Hrun as (row_span & Hrow_span & Hrun).
      apply outcome_bind_Returns in Hrun as (col_span & Hcol_span & Hrun).
      apply (IH (S j) _ out Hrest Hrun).
      destruct (bool_decide_reflect (0 < String.length (strip source))%nat) as [Hlen|Hlen].
      * apply (cells_before_append shape i j row source); [done|done| |done|done].
        exists i, j, row, source, cell_xml, others. cbn. split_and!; done.
      * apply (cells_before_skip shape i j row); [done| |done].
        intros source' Hsource'. rewrite Hsource in Hsource'. injection Hsource' as <-.
        by right.
Qed.

Lemma table_rows_before shape :
  ∀ todo i nc tcells nc' out,
    drop i (rows shape) = todo →
    table_rows strip int shape i todo nc tcells = Returns (nc', out) →
    cells_before shape (Z.of_nat i, 0) tcells →
    (∃ n, (length (rows shape) ≤ n)%nat ∧ cells_before shape (Z.of_nat n, 0) out)
    ∧ nc' = (nc `max` max_list (length <$> todo))%nat.
Proof.
  intros todo.
  induction todo as [|row rest IH]; intros i nc tcells nc' out Hdrop Hrun Hinv.
  - cbn in Hrun. injection Hrun as <- <-. split; [|cbn; lia].
    exists i. split; [|done]. by apply drop_nil_inv in Hdrop.
  - apply drop_cons_lookup in Hdrop as [Hrow Hrest].
    cbn in Hrun.
    apply outcome_bind_Returns in Hrun as (tcells' & Hcells & Hrun).
    apply (IH (S i) _ _ _ _ Hrest) in Hrun as [Hout ->].
    + split; [done|]. cbn. case_bool_decide; lia.
    + by apply (row_cells_before shape i row Hrow row 0%nat tcells).
Qed.

Lemma cells_before_nil shape : cells_before shape (0, 0) [].
Proof.
  split_and!; [constructor|constructor|constructor|].
  intros i j _ Hlt. unfold place_lt in Hlt; cbn in Hlt. lia.
Qed.

Lemma handle_tables_Returns shape slide_ind added :
  handle_tables strip int shape slide_ind = Returns added →
  has_table shape = false ∧ added = None
  ∨ has_table shape = true
    ∧ ∃ prov n tcells,
        generate_prov shape slide_ind "" = Returns prov
        ∧ (length (rows shape) ≤ n)%nat
        ∧ cells_before shape (Z.of_nat n, 0) tcells
        ∧ added =
            (if bool_decide (0 < length tcells)%nat
             then Some ({| num_rows := Z.of_nat (length (rows shape));
                           num_cols := Z.of_nat (max_list (length <$> rows shape));
                           table_cells := tcells |},
                        prov)
             else None).
Proof.
  unfold handle_tables. destruct (has_table shape); [|intros [= <-]; by left].
  intros Hrun. right. split; [done|].
  apply outcome_bind_Returns in Hrun as (prov & Hprov & Hrun).
  apply outcome_bind_Returns in Hrun as ([nc tcells] & Hrows & Hrun).
  apply (table_rows_before shape _ 0%nat) in Hrows as [(n & Hn & Hinv) ->];
    [|done|apply cells_before_nil].
  injection Hrun as <-. by exists prov, n, tcells.
Qed.

Lemma made_from_in_table shape c :
  made_from shape c →
  0 ≤ start_row_offset_idx c < Z.of_nat (length (rows shape))
  ∧ 0 ≤ start_col_offset_idx c < Z.of_nat (max_list (length <$> rows shape)).
Proof.
  intros (i & j & row & source & cell_xml & others & Hrow & Hsource & _ & -> & -> & _).
  pose proof (lookup_lt_Some _ _ _ Hrow).
  pose proof (lookup_lt_Some _ _ _ Hsource).
  assert (length row ≤ max_list (length <$> rows shape))%nat.
  { apply max_list_elem_of_le, list_elem_of_fmap. exists row.
    split; [done|]. by eapply list_elem_of_lookup_2. }
  lia.
Qed.

(** X18. The table that [handle_tables] adds has as many rows as the table
    of the shape and as many columns as its longest row; it has at least one
    cell; each of its cells is made from a cell of the shape that has an XML
    node and a text that is not blank, sits inside the table, and is no header;
    the cells come row by row, no two at the same place; and its provenance is
    that of the shape with an empty text. *)
Theorem handle_tables_cells shape slide_ind data prov :
  handle_tables strip int shape slide_ind = Returns (Some (data, prov)) →
  num_rows data = Z.of_nat (length (rows shape))
  ∧ num_cols data = Z.of_nat (max_list (length <$> rows shape))
  ∧ table_cells data ≠ []
  ∧ Forall (λ c, made_from shape c
                 ∧ 0 ≤ start_row_offset_idx c < num_rows data
                 ∧ 0 ≤ start_col_offset_idx c < num_cols data) (table_cells data)
  ∧ StronglySorted (λ c d, place_lt (place c) (place d)) (table_cells data)
  ∧ generate_prov shape slide_ind "" = Returns prov.
Proof.
  intros Hrun.
  apply handle_tables_Returns in Hrun
    as [[_ [=]]|(_ & prov' & n & tcells & Hprov & _ & (Hmade & _ & Hsorted & _) & Hadded)].
  case_bool_decide as Hlen; [|done]. injection Hadded as -> ->. cbn.
  split_and!; try done.
  - intros ->. cbn in Hlen. lia.
  - eapply Forall_impl; [exact Hmade|]. intros c Hc.
    split; [done|]. by apply made_from_in_table.
Qed.

(** X19. When [handle_tables] returns, it has added a table exactly when the
    shape has a table with a cell that has an XML node and a text that is not
    blank; and the table it adds has a cell at the place of every such
    cell. *)
Theorem handle_tables_added shape slide_ind added :
  handle_tables strip int shape slide_ind = Returns added →
  (is_Some added ↔ has_table shape = true ∧ ∃ i j, kept_at shape i j)
  ∧ ∀ data prov i j,
      added = Some (data, prov) → kept_at shape i j →
      ∃ c, c ∈ table_cells data ∧ place c = (Z.of_nat i, Z.of_nat j).
Proof.
  intros Hrun.
  apply handle_tables_Returns in Hrun
    as [[Htable ->]|(Htable & prov' & n & tcells & _ & Hn & (Hmade & _ & _ & Hall) & ->)].
  { split; [|done]. rewrite Htable. split; [by intros [? [=]]|by intros [[=] _]]. }
  assert (∀ i j, kept_at shape i j →
            ∃ c, c ∈ tcells ∧ place c = (Z.of_nat i, Z.of_nat j)) as Hkept.
  { intros i j Hkept. apply Hall; [done|].
    destruct Hkept as (row & source & Hrow & _).
    apply lookup_lt_Some in Hrow. unfold place_lt; cbn. lia. }
  split.
  - split.
    + intros Hsome. split; [done|].
      case_bool_decide as Hlen; [|by destruct Hsome].
      destruct tcells as [|c tcells]; [cbn in Hlen; lia|].
      apply Forall_cons in Hmade as [Hc _].
      destruct Hc as (i & j & row & source & cell_xml & others
                      & Hrow & Hsource & Hxml & _ & _ & Htext & Hlen' & _).
      exists i, j, row, source. rewrite Hxml, <- Htext. done.
    + intros [_ (i & j & Hij)].
      destruct (Hkept i j Hij) as (c & Hc & _).
      rewrite bool_decide_eq_true_2; [done|].
      destruct tcells; [by apply elem_of_nil in Hc|cbn; lia].
  - intros data prov i j Hadded Hij.
    case_bool_decide; [|done]. injection Hadded as <- <-. cbn. by apply Hkept.
Qed.

Lemma span_of_number o :
  (∀ s, o = Some s → ∃ z, int s = Returns z) → ∃ z, span_of int o = Returns z.
Proof. destruct o as [s|]; cbn; [|by exists 1]. intros Hs. by apply Hs. Qed.

Lemma row_cells_total shape i :
  spans_are_numbers int shape →
  ∀ cells j tcells, ∃ out, row_cells strip int shape i j cells tcells = Returns out.
Proof.
  intros Hspans cells.
  induction cells as [|source rest IH]; intros j tcells; cbn; [by eexists|].
  destruct (xpath shape (i + 1) (j + 1)) as [|cell_xml others] eqn:Hxml; [done|].
  destruct (span_of_number (rowSpan cell_xml)) as [row_span ->].
  { intros s Hs. apply (Hspans _ _ _ _ _ Hxml). by left. }
  destruct (span_of_number (gridSpan cell_xml)) as [col_span ->].
  { intros s Hs. apply (Hspans _ _ _ _ _ Hxml). by right. }
  cbn. apply IH.
Qed.

Lemma table_rows_total shape :
  spans_are_numbers int shape →
  ∀ todo i nc tcells, ∃ out, table_rows strip int shape i todo nc tcells = Returns out.
Proof.
  intros Hspans todo.
  induction todo as [|row rest IH]; intros i nc tcells; cbn; [by eexists|].
  destruct (row_cells_total shape i Hspans row 0%nat tcells) as [tcells' ->].
  cbn. apply IH.
Qed.

Lemma outcome_bind_Raises {A B} (o : outcome A) (k : A → outcome B) e :
  o ≫= k = Raises e ↔ o = Raises e ∨ ∃ a, o = Returns a ∧ k a = Raises e.
Proof.
  destruct o as [a|e']; cbn.
  - split; [intros Hk; right; by exists a|by intros [[=]|(? & [= <-] & ?)]].
  - split; [intros [= ->]; by left|]. by intros [[= ->]|(? & [=] & _)].
Qed.

Lemma generate_prov_cases shape slide_ind text :
  (positioned shape ∧ ∃ prov, generate_prov shape slide_ind text = Returns prov)
  ∨ (¬ positioned shape ∧ generate_prov shape slide_ind text = Raises TypeError).
Proof.
  unfold generate_prov, positioned.
  destruct (left shape) as [l|], (top shape) as [t|], (width shape) as [w|],
    (height shape) as [h|]; cbn;
    first [ left; split; [by split_and!|by eexists]
          | right; split; [|done]; by intros ([? [=]] & [? [=]] & [? [=]] & [? [=]]) ].
Qed.

Lemma span_of_Raises o e : span_of int o = Raises e → ∃ s, o = Some s ∧ int s = Raises e.
Proof. destruct o as [s|]; cbn; [|done]. by exists s. Qed.

Lemma row_cells_Raises shape i e : ∀ cells j tcells,
  row_cells strip int shape i j cells tcells = Raises e → span_refused int shape e.
Proof.
  intros cells. induction cells as [|source rest IH]; intros j tcells; cbn; [done|].
  destruct (xpath shape (i + 1) (j + 1)) as [|cell_xml others] eqn:Hxml; [apply IH|].
  intros [Hspan|(row_span & _ & Hrest)]%outcome_bind_Raises.
  { apply span_of_Raises in Hspan as (s & Hs & Hint).
    exists (i + 1)%nat, (j + 1)%nat, cell_xml, others, s. split_and!; [done|by left|done]. }
  apply outcome_bind_Raises in Hrest as [Hspan|(col_span & _ & Hrest)].
  { apply span_of_Raises in Hspan as (s & Hs & Hint).
    exists (i + 1)%nat, (j + 1)%nat, cell_xml, others, s. split_and!; [done|by right|done]. }
  by eapply IH.
Qed.

Lemma table_rows_Raises shape e : ∀ todo i nc tcells,
  table_rows strip int shape i todo nc tcells = Raises e → span_refused int shape e.
Proof.
  intros todo. induction todo as [|row rest IH]; intros i nc tcells; cbn; [done|].
  intros [Hrow|(tcells' & _ & Hrest)]%outcome_bind_Raises.
  - by eapply row_cells_Raises.
  - by eapply IH.
Qed.

(** X20. The two steps of [handle_tables] that can fail.  On a shape
    without a table it returns and adds nothing.  On a shape with a table it
    makes the provenance first: when the shape lacks a position or a size, the
    sum raises a [TypeError] before any cell is read.  When the shape has
    them and every span attribute of the XML nodes is a number for [int],
    [handle_tables] returns.  And when it raises, either the shape lacks a
    position or a size and the exception is the [TypeError], or the exception
    is that of [int] on a span attribute of an XML node of the table. *)
Theorem handle_tables_returns shape slide_ind :
  (has_table shape = false →
   handle_tables strip int shape slide_ind = Returns None)
  ∧ (has_table shape = true → ¬ positioned shape →
     handle_tables strip int shape slide_ind = Raises TypeError)
  ∧ (has_table shape = true → positioned shape → spans_are_numbers int shape →
     ∃ added, handle_tables strip int shape slide_ind = Returns added)
  ∧ (∀ e, handle_tables strip int shape slide_ind = Raises e →
       has_table shape = true
       ∧ ((e = TypeError ∧ ¬ positioned shape)
          ∨ (positioned shape ∧ span_refused int shape e))).
Proof.
  unfold handle_tables.
  destruct (has_table shape); [|by split_and!].
  destruct (generate_prov_cases shape slide_ind "")
    as [[Hpos [prov ->]]|[Hpos ->]]; cbn.
  - split_and!; [done|done| |].
    + intros _ _ Hspans.
      destruct (table_rows_total shape Hspans (rows shape) 0%nat 0%nat [])
        as [[nc tcells] ->].
      cbn. by eexists.
    + intros e Hrun. split; [done|]. right. split; [done|].
      apply outcome_bind_Raises in Hrun as [Hrows|([nc tcells] & _ & [=])].
      by eapply table_rows_Raises.
  - split_and!; [done|done|done|].
    intros e [= <-]. split; [done|]. by left.
Qed.
End HandleTablesFacts.

Lemma handle_tables_cells_witness :
  ∃ data prov,
    PptxTables.handle_tables strip_ascii decimal sample_table 1 = Returns (Some (data, prov))
    ∧ PptxTables.num_rows data = 2
    ∧ PptxTables.num_cols data = 3
    ∧ PptxTables.text <$> PptxTables.table_cells data = ["Name"; "Value"; "3"; "cm"]
    ∧ Forall (λ c, PptxTables.made_from strip_ascii decimal sample_table c
                   ∧ 0 ≤ PptxTables.start_row_offset_idx c < PptxTables.num_rows data
                   ∧ 0 ≤ PptxTables.start_col_offset_idx c < PptxTables.num_cols data)
        (PptxTables.table_cells data).
Proof.
  eexists _, _.
  split; [vm_compute; reflexivity|].
  split; [reflexivity|]. split; [reflexivity|]. split; [reflexivity|].
  refine (proj1 (proj2 (proj2 (proj2
    (handle_tables_cells strip_ascii decimal sample_table 1 _ _ _))))).
  vm_compute. reflexivity.
Defined.

Lemma handle_tables_added_witness :
  ∃ added,
    PptxTables.handle_tables strip_ascii decimal sample_table 1 = Returns added
    ∧ (is_Some added
       ↔ PptxTables.has_table sample_table = true
         ∧ ∃ i j, PptxTables.kept_at strip_ascii sample_table i j).
Proof.
  eexists.
  split; [vm_compute; reflexivity|].
  refine (proj1 (handle_tables_added strip_ascii decimal sample_table 1 _ _)).
  vm_compute. reflexivity.
Defined.

Lemma handle_tables_returns_witness :
  PptxTables.spans_are_numbers decimal sample_table
  ∧ ∃ added, PptxTables.handle_tables strip_ascii decimal sample_table 1 = Returns added.
Proof.
  assert (PptxTables.spans_are_numbers decimal sample_table) as Hspans.
  { intros i j cell_xml others s Hxml Hs.
    destruct i as [|[|i]]; [| |];
      (destruct j as [|[|[|[|j]]]]; cbn in Hxml; [| | | |]);
      try discriminate Hxml; injection Hxml as <- <-; destruct Hs as [[=]|[=]]; subst; vm_compute; eauto. }
  split; [exact Hspans|].
  apply (proj1 (proj2 (proj2 (handle_tables_returns strip_ascii decimal sample_table 1))));
    [reflexivity| |exact Hspans].
  unfold PptxTables.positioned. cbn. by split_and!.
Defined.
